(** * bot-moderCT: the server cloner (bot_cloner.py) and the moderation
      bot (bot_limpeza.py)

    A shallow embedding of the two Python modules and the properties their
    specification states about them.

    - [Py]      : the Python values and builtins the code relies on
                  (JSON payloads, truthiness, [int], [str.isdigit],
                  [list.sort], exceptions).
    - [Cloner]  : [ServerCloner] of bot_cloner.py, as programs of a small
                  monad that threads the exception, the log of remote calls
                  and the count of destination calls.
    - [Limpeza] : the module top level, [load_presets] and [/criar_cargos]
                  of bot_limpeza.py. *)

From Stdlib Require Import OrderedTypeEx Ascii String.
From stdpp Require Import gmap strings list fin_maps sorting.

Set Warnings "-register-all".
Local Open Scope Z_scope.

(* ===================================================================== *)
(** * Python values and builtins *)
(* ===================================================================== *)

Module Py.

(** What [json.loads] / [Response.json()] can return.  Floats do not occur
    in the payloads read here and are left out.  A [dict] is keyed by
    [str]. *)
Inductive pyval :=
| VNone
| VBool (b : bool)
| VInt (z : Z)
| VStr (s : string)
| VList (l : list pyval)
| VDict (d : gmap string pyval).

(** [Dict[str, Any]], the type the source gives every role, channel and
    preset record. *)
Abbreviation pydict := (gmap string pyval).

(** The exception classes the code raises or catches.  [JSONDecodeError]
    is a subclass of [ValueError]; [Forbidden] is [discord.Forbidden];
    [OtherError] stands for every other subclass of [Exception]
    (HTTP and connection failures included). *)
Inductive exn :=
| KeyError | ValueError | JSONDecodeError | TypeError | AttributeError
| NameError (name : string) | Forbidden | OtherError.

#[global] Instance exn_eq_dec : EqDecision exn.
Proof. solve_decision. Defined.

(** [isinstance(e, ValueError)] *)
Definition is_ValueError (e : exn) : bool :=
  match e with ValueError | JSONDecodeError => true | _ => false end.

(** [isinstance(e, discord.Forbidden)] *)
Definition is_Forbidden (e : exn) : bool :=
  match e with Forbidden => true | _ => false end.

(** [bool(v)] *)
Definition truthy (v : pyval) : bool :=
  match v with
  | VNone => false
  | VBool b => b
  | VInt z => negb (z =? 0)
  | VStr s => negb (String.eqb s "")
  | VList l => match l with [] => false | _ => true end
  | VDict d => negb (bool_decide (d = ∅))
  end.

(** [v == n] for an [int] literal [n]: a [bool] is an [int] in Python. *)
Definition eq_int (v : pyval) (n : Z) : bool :=
  match v with
  | VInt z => z =? n
  | VBool b => Z.b2z b =? n
  | _ => false
  end.

(** [v == s] for a [str] literal [s]. *)
Definition eq_str (v : pyval) (s : string) : bool :=
  match v with VStr t => String.eqb t s | _ => false end.

(** [d[k]] *)
Definition item (d : pydict) (k : string) : exn + pyval :=
  match d !! k with Some v => inr v | None => inl KeyError end.

(** [d.get(k, default)]; [d.get(k)] is [get d k VNone]. *)
Definition get (d : pydict) (k : string) (default : pyval) : pyval :=
  match d !! k with Some v => v | None => default end.

(** [str.isdigit] and [int] on a [str] are aware of Unicode: the
    development is parametric in them, and [ascii_str] below implements
    both for ASCII text. *)
Class StrBuiltins := {
  isdigit : string -> bool;
  int_of_str : string -> option Z
}.

(** [int(v)] *)
Definition int `{StrBuiltins} (v : pyval) : exn + Z :=
  match v with
  | VInt z => inr z
  | VBool b => inr (Z.b2z b)
  | VStr s => match int_of_str s with Some z => inr z | None => inl ValueError end
  | VNone | VList _ | VDict _ => inl TypeError
  end.

(** [isinstance(v, int)], as [discord.Colour] and [discord.Permissions]
    check their argument. *)
Definition as_int (v : pyval) : exn + Z :=
  match v with
  | VInt z => inr z
  | VBool b => inr (Z.b2z b)
  | _ => inl TypeError
  end.

(** [iter(v)]: what a [for] loop over [v] yields.  A [str] yields its
    characters and a [dict] its keys. *)
Definition iter (v : pyval) : exn + list pyval :=
  match v with
  | VList l => inr l
  | VStr s => inr ((fun c => VStr (String c "")) <$> list_ascii_of_string s)
  | VDict d => inr (VStr <$> (map_to_list d).*1)
  | VNone | VBool _ | VInt _ => inl TypeError
  end.

(** ** ASCII instance of the string builtins *)

Definition is_digit (c : ascii) : bool :=
  let n := nat_of_ascii c in (48 <=? n)%nat && (n <=? 57)%nat.

Definition digit_val (c : ascii) : Z := Z.of_nat (nat_of_ascii c) - 48.

Definition is_space (c : ascii) : bool :=
  let n := nat_of_ascii c in
  ((9 <=? n)%nat && (n <=? 13)%nat) || ((28 <=? n)%nat && (n <=? 32)%nat).

Fixpoint lstrip (s : string) : string :=
  match s with
  | String c r => if is_space c then lstrip r else s
  | EmptyString => EmptyString
  end.

Definition strip (s : string) : string :=
  String.rev (lstrip (String.rev (lstrip s))).

(** Decimal digits, with single underscores allowed between digits. *)
Fixpoint parse_digits (s : string) (acc : Z) (after_digit : bool) : option Z :=
  match s with
  | EmptyString => if after_digit then Some acc else None
  | String c r =>
      if is_digit c then parse_digits r (10 * acc + digit_val c) true
      else if Ascii.eqb c "_" && after_digit then
        match r with
        | String d _ => if is_digit d then parse_digits r acc false else None
        | EmptyString => None
        end
      else None
  end.

(** The whitespace that [int] skips around a number: tab to carriage
    return, and the space.  [str.strip] also strips bytes 28 to 31, [int]
    rejects them. *)
Definition is_int_space (c : ascii) : bool :=
  let n := nat_of_ascii c in
  ((9 <=? n)%nat && (n <=? 13)%nat) || (n =? 32)%nat.

Fixpoint int_lstrip (s : string) : string :=
  match s with
  | String c r => if is_int_space c then int_lstrip r else s
  | EmptyString => EmptyString
  end.

Definition int_strip (s : string) : string :=
  String.rev (int_lstrip (String.rev (int_lstrip s))).

Fixpoint count_digits (s : string) : nat :=
  match s with
  | String c r => if is_digit c then S (count_digits r) else count_digits r
  | EmptyString => 0%nat
  end.

(** The default of [sys.int_max_str_digits]: a decimal literal with more
    digits is refused with [ValueError]. *)
Definition int_max_str_digits : nat := 4300.

Definition parse_decimal (r : string) : option Z :=
  if (count_digits r <=? int_max_str_digits)%nat then parse_digits r 0 false else None.

Definition ascii_int_of_str (s : string) : option Z :=
  match int_strip s with
  | String "-" r => Z.opp <$> parse_decimal r
  | String "+" r => parse_decimal r
  | r => parse_decimal r
  end.

Fixpoint all_digits (s : string) : bool :=
  match s with
  | EmptyString => true
  | String c r => is_digit c && all_digits r
  end.

Definition ascii_isdigit (s : string) : bool :=
  negb (String.eqb s "") && all_digits s.

Definition ascii_str : StrBuiltins :=
  {| isdigit := ascii_isdigit; int_of_str := ascii_int_of_str |}.

(** ** Ordering of sort keys *)

(** [a < b].  Numbers compare with numbers and strings with strings (by
    code point, which for UTF-8 text is the order of the bytes); [None] and
    [dict] are unorderable and so is every mixed pair.  Python also orders
    a list against a list; list-valued sort keys do not occur in the
    payloads and are treated as unorderable here. *)
Definition lt (a b : pyval) : exn + bool :=
  match as_int a, as_int b with
  | inr x, inr y => inr (x <? y)
  | _, _ =>
      match a, b with
      | VStr s, VStr t => inr (String.ltb s t)
      | _, _ => inl TypeError
      end
  end.

(** [a <= b] on orderable pairs, [false] on the others. *)
Definition le (a b : pyval) : bool :=
  match lt b a with inr false => true | _ => false end.

Section Sort.
Context {A : Type} (key : A -> pyval).

(** Insert [x], which stood before every element of [l], into the sorted
    [l]: it goes in front of the first element that is not smaller. *)
Fixpoint insert_by (x : A) (l : list A) : exn + list A :=
  match l with
  | [] => inr [x]
  | y :: l' =>
      match lt (key y) (key x) with
      | inl e => inl e
      | inr true =>
          match insert_by x l' with
          | inl e => inl e
          | inr r => inr (y :: r)
          end
      | inr false => inr (x :: l)
      end
  end.

(** [l.sort(key=key)]: the stable sort by [key]; a comparison that raises
    makes the sort raise.  With [lt], that is when the list has two or more
    elements whose keys are not all numbers or all strings, for this sort
    as for Python's. *)
Fixpoint sort_by (l : list A) : exn + list A :=
  match l with
  | [] => inr []
  | x :: l' =>
      match sort_by l' with
      | inl e => inl e
      | inr s => insert_by x s
      end
  end.

(** The order of the keys, on the records. *)
Definition key_le (x y : A) : Prop := le (key x) (key y) = true.
End Sort.

End Py.

(* ===================================================================== *)
(** * bot_cloner.py *)
(* ===================================================================== *)

Module Cloner.
Import Py.

(** ** Exceptions as a monad on [exn + _] *)

#[global] Instance exn_ret : MRet (sum exn) := fun _ a => inr a.
#[global] Instance exn_bind : MBind (sum exn) := fun _ _ f m =>
  match m with inl e => inl e | inr a => f a end.

(** ** What the cloner exchanges with Discord *)

(** A role or category created on the destination.  discord.py hashes and
    compares these objects by their id, and they are always truthy. *)
Abbreviation handle := Z.

(** [Dict[discord.Role, discord.PermissionOverwrite]]: per new role, the
    pair of bitmasks given to [PermissionOverwrite.from_pair]. *)
Abbreviation overwrites := (gmap handle (Z * Z)).

Record role_kwargs := {
  rk_name : pyval;
  rk_permissions : Z;
  rk_color : Z;
  rk_hoist : pyval;
  rk_mentionable : pyval;
  rk_reason : string
}.

Record channel_kwargs := {
  ck_name : pyval;
  ck_overwrites : overwrites;
  ck_category : option handle;
  ck_reason : string
}.

(** The calls that change the destination guild. *)
Inductive dest_call :=
| create_role (kw : role_kwargs)
| create_category (name : pyval) (ow : overwrites) (reason : string)
| create_text_channel (topic slowmode_delay nsfw : pyval) (kw : channel_kwargs)
| create_voice_channel (user_limit bitrate : pyval) (kw : channel_kwargs)
| create_stage_channel (kw : channel_kwargs).

(** The reads of the source guild issued by [api_request]. *)
Inductive endpoint :=
| GuildRoles (origem_id : string)
| GuildChannels (origem_id : string).

(** The follow-up messages of the command. *)
Inductive msg :=
| DestNotFound (destino_id : string)
| NeedAdmin
| Starting (origem_id guild_name : string)
| Done (origem_id guild_name : string)
| InvalidId (e : exn)
| Unexpected (e : exn)
| RolesFetchFailed (status : Z)
| CopyingRoles (n : nat)
| RoleForbidden (name : pyval)
| RoleError (name : pyval) (e : exn)
| RolesCopied
| ChannelsFetchFailed (status : Z)
| CopyingChannels (n : nat)
| CategoryForbidden (name : pyval)
| CategoryError (name : pyval) (e : exn)
| ChannelForbidden (name : pyval)
| ChannelError (name : pyval) (e : exn)
| ChannelsCopied.

(** What one invocation does, in order.  A [Call] records the source record
    that was being processed when the call was issued.  [print] is not
    recorded. *)
Inductive event :=
| Defer
| Send (m : msg)
| HttpGet (ep : endpoint) (token : string)
| Call (src : pydict) (c : dest_call)
| Sleep.

Record response := {
  status_code : Z;
  json : exn + list pydict   (* [response.json()], a [List[Dict[str, Any]]] *)
}.

Record guild := {
  guild_name : string;
  me_administrator : bool     (* [guild.me.guild_permissions.administrator] *)
}.

(** Everything outside the program: the bot's guild cache, the answers of
    the source to the two reads, the answer of the destination to its
    [n]-th call, and the invoking user.  Follow-up messages are taken to be
    delivered. *)
Record env := {
  get_guild : Z -> option guild;
  http_get : endpoint -> string -> exn + response;
  dest : nat -> dest_call -> exn + handle;
  user_name : string
}.

(** ** The monad of the coroutines *)

Record out (A : Type) := Out {
  res : exn + A;        (* returned value or raised exception *)
  log : list event;     (* the events, oldest first *)
  clock : nat           (* destination calls issued so far *)
}.
Arguments Out {A}.
Arguments res {A}.
Arguments log {A}.
Arguments clock {A}.

Definition M (A : Type) : Type := nat -> out A.

#[global] Instance M_ret : MRet M := fun _ a n => Out (inr a) [] n.
#[global] Instance M_bind : MBind M := fun _ _ f m n =>
  let o := m n in
  match res o with
  | inl e => Out (inl e) (log o) (clock o)
  | inr a => let o' := f a (clock o) in Out (res o') (log o ++ log o') (clock o')
  end.

(** An exception raised by a pure step. *)
Definition lift {A} (r : exn + A) : M A := fun n => Out r [] n.

Definition emit (ev : event) : M unit := fun n => Out (inr tt) [ev] n.

(** [try: body except Exception as e: handler e] *)
Definition try_ {A} (body : M A) (handler : exn -> M A) : M A := fun n =>
  let o := body n in
  match res o with
  | inl e => let o' := handler e (clock o) in Out (res o') (log o ++ log o') (clock o')
  | inr _ => o
  end.

(** How a loop body ends: fall through (or [continue]), or [break]. *)
Inductive flow (A : Type) := Next (a : A) | Break (a : A).
Arguments Next {A}.
Arguments Break {A}.

Section Program.
Context `{StrBuiltins} (E : env).

Definition send (m : msg) : M unit := emit (Send m).
Definition sleep : M unit := emit Sleep.

(** [await asyncio.to_thread(api_request, "GET", endpoint, token)] *)
Definition api_get (ep : endpoint) (token : string) : M response := fun n =>
  Out (http_get E ep token) [HttpGet ep token] n.

(** [await guild_destino.create_...(...)], issued while processing [src]. *)
Definition call (src : pydict) (c : dest_call) : M handle := fun n =>
  Out (dest E n c) [Call src c] (S n).

Definition reason : string := "Clonagem de servidor por " +:+ user_name E.

(** *** clone_roles_user *)

(** [role.get('managed')] is truthy. *)
Definition managed (role : pydict) : bool := truthy (get role "managed" VNone).

(** [role.get('name') == '@everyone'] *)
Definition is_everyone (role : pydict) : bool :=
  eq_str (get role "name" VNone) "@everyone".

(** [not role.get('managed') and role.get('name') != '@everyone'] *)
Definition copied (role : pydict) : bool :=
  negb (managed role) && negb (is_everyone role).

Definition roles_to_copy (roles_data : list pydict) : list pydict :=
  filter (fun role => copied role) roles_data.

(** [r.get('position', 0)], the sort key of roles and channels. *)
Definition position (r : pydict) : pyval := get r "position" (VInt 0).

Definition old_id (r : pydict) : exn + Z := v ← item r "id"; int v.

Definition role_kwargs_of (role : pydict) : exn + role_kwargs :=
  name ← item role "name";
  permissions ← int (get role "permissions" (VInt 0));
  color ← as_int (get role "color" (VInt 0));
  mret {| rk_name := name;
          rk_permissions := permissions;
          rk_color := color;
          rk_hoist := get role "hoist" (VBool false);
          rk_mentionable := get role "mentionable" (VBool false);
          rk_reason := reason |}.

(** The body of [for role in roles_to_copy]. *)
Definition role_step (role : pydict) (role_mapping : gmap Z handle)
  : M (flow (gmap Z handle)) :=
  old_role_id ← lift (old_id role);
  kw ← lift (role_kwargs_of role);
  try_ (new_role ← call role (create_role kw);
        sleep;;
        mret (Next (<[old_role_id := new_role]> role_mapping)))
       (fun e =>
          if is_Forbidden e
          then send (RoleForbidden (rk_name kw));; mret (Break role_mapping)
          else send (RoleError (rk_name kw) e);; mret (Next role_mapping)).

Fixpoint role_loop (roles : list pydict) (role_mapping : gmap Z handle)
  : M (gmap Z handle) :=
  match roles with
  | [] => mret role_mapping
  | role :: rest =>
      f ← role_step role role_mapping;
      match f with
      | Next m => role_loop rest m
      | Break m => mret m
      end
  end.

Definition clone_roles_user (user_token origem_id : string) : M (gmap Z handle) :=
  response ← api_get (GuildRoles origem_id) user_token;
  if negb (status_code response =? 200) then
    send (RolesFetchFailed (status_code response));;
    mret ∅
  else
    roles_data ← lift (json response);
    sorted ← lift (sort_by position (roles_to_copy roles_data));
    send (CopyingRoles (length sorted));;
    role_mapping ← role_loop sorted ∅;
    send RolesCopied;;
    mret role_mapping.

(** The records given to the loop, when the fetch and the sort succeed. *)
Definition roles_to_create (token origem : string) : list pydict :=
  match http_get E (GuildRoles origem) token with
  | inr resp =>
      if status_code resp =? 200 then
        match json resp with
        | inr roles_data =>
            match sort_by position (roles_to_copy roles_data) with
            | inr sorted => sorted
            | inl _ => []
            end
        | inl _ => []
        end
      else []
  | inl _ => []
  end.

(** *** map_overwrites *)

(** [v[k]] on a value of unknown type. *)
Definition subscript (v : pyval) (k : string) : exn + pyval :=
  match v with
  | VDict d => item d k
  | _ => inl TypeError
  end.

(** [v.get(k, default)] on a value of unknown type. *)
Definition method_get (v : pyval) (k : string) (default : pyval) : exn + pyval :=
  match v with
  | VDict d => inr (get d k default)
  | _ => inl AttributeError
  end.

(** [v.isdigit()] on a value of unknown type. *)
Definition method_isdigit (v : pyval) : exn + bool :=
  match v with
  | VStr s => inr (isdigit s)
  | _ => inl AttributeError
  end.

(** The body of [for overwrite in overwrites]. *)
Definition map_overwrite (role_mapping : gmap Z handle) (mapped : overwrites)
    (overwrite : pyval) : exn + overwrites :=
  ty ← subscript overwrite "type";
  if eq_int ty 0 then
    id ← subscript overwrite "id";
    digits ← method_isdigit id;
    if negb digits then mret mapped
    else
      old_role_id ← int id;
      match role_mapping !! old_role_id with
      | Some new_role =>
          allow ← method_get overwrite "allow" (VInt 0);
          allow_value ← int allow;
          deny ← method_get overwrite "deny" (VInt 0);
          deny_value ← int deny;
          mret (<[new_role := (allow_value, deny_value)]> mapped)
      | None => mret mapped
      end
  else mret mapped.

Fixpoint map_overwrites_loop (role_mapping : gmap Z handle) (l : list pyval)
    (mapped : overwrites) : exn + overwrites :=
  match l with
  | [] => mret mapped
  | overwrite :: rest =>
      mapped' ← map_overwrite role_mapping mapped overwrite;
      map_overwrites_loop role_mapping rest mapped'
  end.

Definition map_overwrites (role_mapping : gmap Z handle) (entries : pyval)
  : exn + overwrites :=
  l ← iter entries;
  map_overwrites_loop role_mapping l ∅.

(** *** clone_channels_user *)

Definition is_category (channel : pydict) : bool :=
  eq_int (get channel "type" VNone) 4.

Definition channel_overwrites (role_mapping : gmap Z handle) (channel : pydict)
  : exn + overwrites :=
  map_overwrites role_mapping (get channel "permission_overwrites" (VList [])).

(** The body of the first [for channel in channels_data]. *)
Definition category_step (role_mapping : gmap Z handle) (channel : pydict)
    (category_mapping : gmap Z handle) : M (flow (gmap Z handle)) :=
  if is_category channel then
    old_category_id ← lift (old_id channel);
    ow ← lift (channel_overwrites role_mapping channel);
    try_ (name ← lift (item channel "name");
          new_category ← call channel (create_category name ow reason);
          sleep;;
          mret (Next (<[old_category_id := new_category]> category_mapping)))
         (fun e =>
            name ← lift (item channel "name");
            if is_Forbidden e
            then send (CategoryForbidden name);; mret (Break category_mapping)
            else send (CategoryError name e);; mret (Next category_mapping))
  else mret (Next category_mapping).

Fixpoint category_loop (role_mapping : gmap Z handle) (channels : list pydict)
    (category_mapping : gmap Z handle) : M (gmap Z handle) :=
  match channels with
  | [] => mret category_mapping
  | channel :: rest =>
      f ← category_step role_mapping channel category_mapping;
      match f with
      | Next m => category_loop role_mapping rest m
      | Break m => mret m
      end
  end.

(** The new category of a channel: [None] unless [parent_id] is truthy,
    converts to an [int] and is a key of the category mapping.  Only a
    [ValueError] of the conversion is caught. *)
Definition resolve_parent (category_mapping : gmap Z handle) (channel : pydict)
  : exn + option handle :=
  let parent_id := get channel "parent_id" VNone in
  if truthy parent_id then
    match int parent_id with
    | inr parent_id_int => inr (category_mapping !! parent_id_int)
    | inl e => if is_ValueError e then inr None else inl e
    end
  else inr None.

(** The creation call of a channel, by type; no call for the other types. *)
Definition create_channel (channel : pydict) (kw : channel_kwargs) : M unit :=
  let channel_type := get channel "type" VNone in
  let text :=
    create_text_channel (get channel "topic" VNone)
                        (get channel "rate_limit_per_user" VNone)
                        (get channel "nsfw" (VBool false)) kw in
  if eq_int channel_type 0 then call channel text;; mret tt
  else if eq_int channel_type 2 then
    call channel (create_voice_channel (get channel "user_limit" VNone)
                                       (get channel "bitrate" VNone) kw);;
    mret tt
  else if eq_int channel_type 5 then call channel text;; mret tt
  else if eq_int channel_type 13 then call channel (create_stage_channel kw);; mret tt
  else mret tt.

(** The body of the second [for channel in channels_data]. *)
Definition channel_step (role_mapping category_mapping : gmap Z handle)
    (channel : pydict) : M (flow unit) :=
  if negb (is_category channel) then
    new_category ← lift (resolve_parent category_mapping channel);
    ow ← lift (channel_overwrites role_mapping channel);
    name ← lift (item channel "name");
    let kw := {| ck_name := name; ck_overwrites := ow;
                 ck_category := new_category; ck_reason := reason |} in
    try_ (create_channel channel kw;;
          sleep;;
          mret (Next tt))
         (fun e =>
            if is_Forbidden e
            then send (ChannelForbidden name);; mret (Break tt)
            else send (ChannelError name e);; mret (Next tt))
  else mret (Next tt).

Fixpoint channel_loop (role_mapping category_mapping : gmap Z handle)
    (channels : list pydict) : M unit :=
  match channels with
  | [] => mret tt
  | channel :: rest =>
      f ← channel_step role_mapping category_mapping channel;
      match f with
      | Next _ => channel_loop role_mapping category_mapping rest
      | Break _ => mret tt
      end
  end.

Definition clone_channels_user (user_token origem_id : string)
    (role_mapping : gmap Z handle) : M unit :=
  response ← api_get (GuildChannels origem_id) user_token;
  if negb (status_code response =? 200) then
    send (ChannelsFetchFailed (status_code response))
  else
    channels_data ← lift (json response);
    sorted ← lift (sort_by position channels_data);
    send (CopyingChannels (length sorted));;
    category_mapping ← category_loop role_mapping sorted ∅;
    channel_loop role_mapping category_mapping sorted;;
    send ChannelsCopied.

(** *** clone_server_user_slash *)

(** The two [except] clauses of the command. *)
Definition report (e : exn) : M unit :=
  if is_ValueError e then send (InvalidId e) else send (Unexpected e).

Definition clone_server_user_slash (user_token origem_id destino_id : string)
  : M unit :=
  emit Defer;;
  try_ (destino ← lift (int (VStr destino_id));
        match get_guild E destino with
        | None => send (DestNotFound destino_id)
        | Some guild_destino =>
            if negb (me_administrator guild_destino) then send NeedAdmin
            else
              send (Starting origem_id (guild_name guild_destino));;
              role_mapping ← clone_roles_user user_token origem_id;
              clone_channels_user user_token origem_id role_mapping;;
              send (Done origem_id (guild_name guild_destino))
        end)
       report.

End Program.

(** The outcome [o], reached after the events [t]. *)
Definition after {A} (t : list event) (o : out A) : out A :=
  Out (res o) (t ++ log o) (clock o).

(** Every event of [m] satisfies [P], whenever [m] is started. *)
Definition emits {A} (P : event -> Prop) (m : M A) : Prop :=
  forall n, Forall P (log (m n)).

(** The log of [m] is a part where [P] holds followed by one where [Q]
    does. *)
Definition splits {A} (P Q : event -> Prop) (m : M A) : Prop :=
  forall n, exists t1 t2, log (m n) = t1 ++ t2 /\ Forall P t1 /\ Forall Q t2.

(** The events of one invocation, oldest first. *)
Definition trace {A} (m : M A) : list event := log (m 0%nat).

(** What the invocation returned or raised. *)
Definition result {A} (m : M A) : exn + A := res (m 0%nat).

(** ** Observations on a trace *)

(** A read of the source guild. *)
Definition is_read (ev : event) : bool :=
  match ev with HttpGet _ _ => true | _ => false end.

(** A call that changes the destination guild. *)
Definition is_write (ev : event) : bool :=
  match ev with Call _ _ => true | _ => false end.

(** The events that follow the report of a failed fetch of the roles. *)
Fixpoint after_roles_failure (t : list event) : option (list event) :=
  match t with
  | [] => None
  | Send (RolesFetchFailed _) :: post => Some post
  | _ :: t' => after_roles_failure t'
  end.

(** Nothing is read or written once the failed fetch of the roles has been
    reported. *)
Definition aborted_on_roles_failure (t : list event) : bool :=
  match after_roles_failure t with
  | Some post => forallb (fun ev => negb (is_read ev) && negb (is_write ev)) post
  | None => true
  end.

(** No two records carry the same id. *)
Definition unique_ids `{StrBuiltins} (records : list pydict) : Prop :=
  forall r1 r2 k, r1 ∈ records -> r2 ∈ records ->
    old_id r1 = inr k -> old_id r2 = inr k -> r1 = r2.

Section Subjects.
Context `{StrBuiltins}.

(** An overwrite entry scoped to a role: [overwrite['type'] == 0]. *)
Definition role_scoped (overwrite : pyval) : Prop :=
  exists ty, subscript overwrite "type" = inr ty /\ eq_int ty 0 = true.

(** An overwrite entry scoped to a member (type 1), or to anything that
    is not a role. *)
Definition member_scoped (overwrite : pyval) : Prop :=
  exists ty, subscript overwrite "type" = inr ty /\ eq_int ty 0 = false.

(** The id of the subject of the entry is the old role id [k]. *)
Definition subject (overwrite : pyval) (k : Z) : Prop :=
  exists s, subscript overwrite "id" = inr (VStr s) /\
            isdigit s = true /\ int_of_str s = Some k.


(** The channel types for which [clone_channels_user] has a creation
    call: text, voice, announcement and stage. *)
Definition creatable (channel : pydict) : bool :=
  let channel_type := get channel "type" VNone in
  eq_int channel_type 0 || eq_int channel_type 2 ||
  eq_int channel_type 5 || eq_int channel_type 13.
End Subjects.

(** The records for which [create_role] was called, in call order. *)
Definition created_role_sources (t : list event) : list pydict :=
  omap (fun ev => match ev with
                  | Call src (create_role _) => Some src
                  | _ => None
                  end) t.

(** The calls on the destination in a trace, each with the record it was
    issued for, in call order. *)
Definition calls (t : list event) : list (pydict * dest_call) :=
  omap (fun ev => match ev with Call src c => Some (src, c) | _ => None end) t.

(** What may happen up to the end of the category pass: no channel is
    created, and a category only from a record of type 4. *)
Definition first_pass (ev : event) : bool :=
  match ev with
  | Call _ (create_role _) => true
  | Call src (create_category _ _ _) => is_category src
  | Call _ _ => false
  | _ => true
  end.

(** What may happen from the start of the channel pass: no role and no
    category is created, and a channel only from a record of another
    type. *)
Definition second_pass (ev : event) : bool :=
  match ev with
  | Call src (create_text_channel _ _ _ _) => negb (is_category src)
  | Call src (create_voice_channel _ _ _) => negb (is_category src)
  | Call src (create_stage_channel _) => negb (is_category src)
  | Call _ _ => false
  | _ => true
  end.

(** The keyword arguments of a channel creation. *)
Definition call_kwargs (c : dest_call) : option channel_kwargs :=
  match c with
  | create_text_channel _ _ _ kw => Some kw
  | create_voice_channel _ _ kw => Some kw
  | create_stage_channel kw => Some kw
  | _ => None
  end.

(** ** Further observations *)

(** The reads of the source in a trace, in order. *)
Definition reads (t : list event) : list event := List.filter is_read t.

(** The number of calls on the destination in a trace. *)
Definition writes (t : list event) : nat := length (List.filter is_write t).

(** Whenever [m] returns, the last of its events is a message. *)
Definition ends_with_send {A} (m : M A) : Prop :=
  forall n a, res (m n) = inr a -> exists t x, log (m n) = t ++ [Send x].

(** Is a call issued after a call that the destination answered with
    [Forbidden]?  [n] calls were issued before [t]. *)
Fixpoint call_after_forbidden (E : env) (n : nat) (t : list event) : bool :=
  match t with
  | [] => false
  | Call _ c :: t' =>
      match dest E n c with
      | inl e => if is_Forbidden e then existsb is_write t'
                 else call_after_forbidden E (S n) t'
      | inr _ => call_after_forbidden E (S n) t'
      end
  | _ :: t' => call_after_forbidden E n t'
  end.

Section WellFormed.
Context `{StrBuiltins} (E : env).

(** A role record from which the loop can build its call: it has an [id]
    that converts, a [name], [permissions] that convert and an integer
    [color]. *)
Definition role_well_formed (role : pydict) : Prop :=
  (exists k, old_id role = inr k) /\ (exists kw, role_kwargs_of E role = inr kw).

(** A channel record from which the passes can build their call: it has a
    [name], overwrites that map, and for a category an [id] that converts,
    for another channel a [parent_id] that does not raise. *)
Definition channel_well_formed (role_mapping : gmap Z handle) (channel : pydict)
  : Prop :=
  (exists name, item channel "name" = inr name) /\
  (exists ow, channel_overwrites role_mapping channel = inr ow) /\
  if is_category channel then exists k, old_id channel = inr k
  else forall cm, exists p, resolve_parent cm channel = inr p.
End WellFormed.

End Cloner.

(* ===================================================================== *)
(** * bot_limpeza.py *)
(* ===================================================================== *)

Module Limpeza.
Import Py.
Import Cloner (exn_ret, exn_bind).

(** ** The module top level *)

(** What running the module can do to the outside. *)
Inductive effect :=
| BotRun                          (* [bot.run(TOKEN)] *)
| CommandAdded (name : string)    (* a command or group added to [bot.tree] *)
| Printed (text : string).

(** A top-level statement: the global names it evaluates, in order, then
    what it does, then the names it binds.  The body of a [def] is not
    evaluated by the statement; its decorators and annotations are. *)
Record stmt := Stmt {
  line : nat;
  loads : list string;
  effs : list effect;
  stores : list string
}.

Record mstate := {
  globals : gset string;
  effects : list effect
}.

(** The names of the [builtins] module and of every module namespace. *)
Definition builtins : gset string := list_to_set [
  "__name__"; "__file__"; "__doc__"; "__builtins__";
  "abs"; "aiter"; "all"; "anext"; "any"; "ascii"; "bin"; "bool";
  "breakpoint"; "bytearray"; "bytes"; "callable"; "chr"; "classmethod";
  "compile"; "complex"; "delattr"; "dict"; "dir"; "divmod"; "enumerate";
  "eval"; "exec"; "filter"; "float"; "format"; "frozenset"; "getattr";
  "globals"; "hasattr"; "hash"; "help"; "hex"; "id"; "input"; "int";
  "isinstance"; "issubclass"; "iter"; "len"; "list"; "locals"; "map";
  "max"; "memoryview"; "min"; "next"; "object"; "oct"; "open"; "ord";
  "pow"; "print"; "property"; "range"; "repr"; "reversed"; "round"; "set";
  "setattr"; "slice"; "sorted"; "staticmethod"; "str"; "sum"; "super";
  "tuple"; "type"; "vars"; "zip"; "__import__";
  "None"; "True"; "False"; "Ellipsis"; "NotImplemented";
  "BaseException"; "Exception"; "ValueError"; "TypeError"; "KeyError";
  "NameError"; "AttributeError"; "OSError"; "RuntimeError" ].

Definition bound (st : mstate) (x : string) : bool :=
  bool_decide (x ∈ globals st) || bool_decide (x ∈ builtins).

Definition exec (s : stmt) (st : mstate) : exn + mstate :=
  match List.find (fun x => negb (bound st x)) (loads s) with
  | Some x => inl (NameError x)
  | None => inr {| globals := globals st ∪ list_to_set (stores s);
                   effects := effects st ++ effs s |}
  end.

(** Run the statements in order: the state reached, and the exception and
    the line of the statement that raised it, if one did. *)
Fixpoint run (body : list stmt) (st : mstate) : option (exn * nat) * mstate :=
  match body with
  | [] => (None, st)
  | s :: rest =>
      match exec s st with
      | inl e => (Some (e, line s), st)
      | inr st' => run rest st'
      end
  end.

(** A decorated command: the decorators are evaluated, then the
    annotations of the function, and [tree_owner.command] adds it. *)
Definition command (l : nat) (tree_owner name : string) (annot : list string)
    (fn : string) : stmt :=
  Stmt l ([tree_owner; "app_commands"; "app_commands"; "discord"] ++ annot)
       [CommandAdded name] [fn].

(** The statements of bot_limpeza.py, by line.  [token] is what
    [os.getenv("DISCORD_TOKEN")] returns. *)
Definition module_body (token : option string) : list stmt := [
  Stmt 1 [] [] ["discord"];
  Stmt 2 [] [] ["commands"];
  Stmt 3 [] [] ["app_commands"];
  Stmt 4 [] [] ["os"];
  Stmt 5 [] [] ["json"];
  Stmt 6 [] [] ["Dict"; "List"; "Any"];
  Stmt 7 [] [] ["Path"];
  Stmt 12 ["discord"] [] ["intents"];
  Stmt 13 ["intents"] [] [];
  Stmt 14 ["intents"] [] [];
  Stmt 15 ["intents"] [] [];
  Stmt 16 ["intents"] [] [];
  Stmt 19 ["os"] [] ["TOKEN"];
  Stmt 20 ["bot"; "TOKEN"] [BotRun] [];
  Stmt 23 ["str"; "Path"; "__file__"] [] ["PRESET_FILE"];
  Stmt 25 ["Dict"; "str"; "List"; "Dict"; "str"; "Any"] [] ["load_presets"];
  Stmt 43 ["Dict"; "str"; "List"; "Dict"; "str"; "Any"] [] ["save_presets"];
  Stmt 48 ["commands"; "discord"; "discord"; "app_commands"] [] ["ModerationBot"];
  Stmt 94 ["ModerationBot"; "intents"] [] ["bot"];
  command 98 "bot" "criar_cargos" ["str"] "criar_cargos_slash";
  Stmt 199 ["app_commands"] [] ["preset_group"];
  Stmt 200 ["bot"; "preset_group"] [CommandAdded "preset_cargos"] [];
  Stmt 202 ["preset_group"; "app_commands"; "discord"]
       [CommandAdded "preset_cargos listar"] ["preset_listar_slash"];
  command 221 "preset_group" "preset_cargos salvar" ["str"; "str"] "preset_salvar_slash";
  command 243 "preset_group" "preset_cargos usar" ["str"] "preset_usar_slash";
  Stmt 347 ["bot"; "app_commands"; "discord"] [CommandAdded "sync"] ["sync_slash"];
  command 355 "bot" "limpar" ["app_commands"; "int"] "limpar_slash";
  Stmt 386 ["bot"; "app_commands"; "discord"]
       [CommandAdded "apagar_canais"] ["apagar_canais_slash"];
  Stmt 413 ["bot"; "app_commands"; "discord"]
       [CommandAdded "apagar_cargos"] ["apagar_cargos_slash"];
  match token with
  | None => Stmt 442 ["TOKEN"; "print"] [Printed "ERRO: O token do bot não foi definido."] []
  | Some _ => Stmt 442 ["TOKEN"; "bot"; "TOKEN"] [BotRun] []
  end ].

Definition fresh : mstate := {| globals := ∅; effects := [] |}.

(** Importing or running the module. *)
Definition run_module (token : option string) : option (exn * nat) * mstate :=
  run (module_body token) fresh.

(** The global names the module binds when every statement runs. *)
Definition module_globals : gset string :=
  list_to_set (concat (stores <$> module_body None)).

(** ** load_presets *)

(** The file [role_presets.json]: whether [os.path.exists] finds it, and
    what opening and reading it as UTF-8 text gives. *)
Record preset_file := {
  file_exists : bool;
  file_read : exn + string
}.

Section Presets.
(** [json.loads] *)
Variable json_loads : string -> exn + pyval.

Definition load_presets (f : preset_file) : exn + pyval :=
  if negb (file_exists f) then inr (VDict ∅)
  else
    match (content ← file_read f;
           if negb (truthy (VStr content)) then inr (VDict ∅)
           else json_loads content) with
    | inr v => inr v
    | inl JSONDecodeError => inr (VDict ∅)   (* except json.JSONDecodeError *)
    | inl _ => inr (VDict ∅)                 (* except Exception *)
    end.
End Presets.

(** ** /criar_cargos *)

(** A [discord.Role]; two roles are equal when their ids are. *)
Record role := { role_id : Z; role_name : string }.

Definition role_eqb (a b : role) : bool := role_id a =? role_id b.

(** An entry of [failed_roles]. *)
Inductive failure :=
| FailForbidden (name : string)
| FailError (name : string) (e : exn)
| ReorderForbidden
| ReorderError (e : exn).

(** The follow-up messages of the command. *)
Inductive reply :=
| OnlyInGuild
| NoValidRole
| RolesCreated (names : list string) (failed : list failure) (reorder_failed : bool)
| CreationFailed (failed : list failure).

Inductive event :=
| Defer
| Send (r : reply)
| CreateRole (name : string)
| EditRolePositions (positions : list (Z * nat)).

(** The guild the command runs in: whether there is one, the answer to the
    [n]-th [create_role], [guild.roles] and [guild.me.top_role] as the
    reordering reads them, and the answer to [edit_role_positions]. *)
Record genv := {
  in_guild : bool;
  create_role_outcome : nat -> string -> exn + role;
  guild_roles : list role;
  top_role : role;
  edit_outcome : list (Z * nat) -> exn + unit
}.

(** [s.replace(',', '\n').split('\n')]; [cur] is the piece being read. *)
Fixpoint split_names (s : string) (cur : string) : list string :=
  match s with
  | EmptyString => [cur]
  | String c r =>
      if Ascii.eqb c "," || Ascii.eqb c "010"
      then cur :: split_names r EmptyString
      else split_names r (cur +:+ String c EmptyString)
  end.

(** [[name.strip() for name in ... if name.strip()]], on ASCII text. *)
Definition role_names (lista_cargos : string) : list string :=
  List.filter (fun name => negb (String.eqb name ""))
              (strip <$> split_names lista_cargos EmptyString).

(** The loop over [role_names]; [n] create calls were issued before. *)
Fixpoint create_roles (g : genv) (names : list string) (n : nat)
  : list event * list role * list failure :=
  match names with
  | [] => ([], [], [])
  | name :: rest =>
      match create_role_outcome g n name with
      | inr new_role =>
          let '(t, created, failed) := create_roles g rest (S n) in
          (CreateRole name :: t, new_role :: created, failed)
      | inl e =>
          if is_Forbidden e then ([CreateRole name], [], [FailForbidden name])
          else
            let '(t, created, failed) := create_roles g rest (S n) in
            (CreateRole name :: t, created, FailError name e :: failed)
      end
  end.

(** [l.index(x)] *)
Fixpoint index (l : list role) (x : role) : exn + nat :=
  match l with
  | [] => inl ValueError
  | y :: l' =>
      if role_eqb y x then inr 0%nat
      else match index l' x with inr i => inr (S i) | inl e => inl e end
  end.

(** [l.insert(i, x)]: a negative [i] counts from the end, and an [i] out
    of range inserts at the nearest end. *)
Definition insert (i : Z) (x : role) (l : list role) : list role :=
  let len := Z.of_nat (length l) in
  let i := if i <? 0 then Z.max 0 (i + len) else Z.min i len in
  take (Z.to_nat i) l ++ x :: drop (Z.to_nat i) l.

Fixpoint insert_all (insert_position : Z) (created : list role)
    (roles_to_reorder : list role) : list role :=
  match created with
  | [] => roles_to_reorder
  | role :: rest =>
      insert_all (insert_position - 1) rest (insert insert_position role roles_to_reorder)
  end.

(** The names [criar_cargos_slash] binds: its parameters and the targets
    of its assignments, loops and handlers. *)
Definition criar_cargos_locals : gset string := list_to_set [
  "interaction"; "lista_cargos"; "guild"; "role_names"; "created_roles";
  "failed_roles"; "name"; "new_role"; "e"; "reorder_success";
  "roles_to_reorder"; "bot_role_index"; "insert_position"; "role";
  "new_role_positions"; "success_message" ].

(** Evaluating the name [x] in a function with the locals [locals]. *)
Definition load_name (locals : gset string) (x : string) : exn + unit :=
  if bool_decide (x ∈ locals) || bool_decide (x ∈ module_globals)
     || bool_decide (x ∈ builtins)
  then inr tt else inl (NameError x).

(** The body of the [try] of step 3: what it raised if it did, its events,
    and [created_roles], which it reverses in place. *)
Definition reorder (g : genv) (created_roles : list role)
  : (exn + unit) * list event * list role :=
  match index (guild_roles g) (top_role g) with
  | inl e => (inl e, [], created_roles)
  | inr bot_role_index =>
      let roles_to_reorder :=
        List.filter (fun r => negb (existsb (Z.eqb (role_id r)) (role_id <$> created_roles)))
                    (guild_roles g) in
      let created_roles := reverse created_roles in
      let roles_to_reorder :=
        insert_all (Z.of_nat bot_role_index) created_roles roles_to_reorder in
      let new_role_positions :=
        imap (fun index role => (role_id role, index)) roles_to_reorder in
      (* the arguments of the call: [new_role_positions], then the reason,
         an f-string over [nome] and [interaction.user.name] *)
      match (load_name criar_cargos_locals "nome";;
             load_name criar_cargos_locals "interaction") with
      | inl e => (inl e, [], created_roles)
      | inr _ =>
          (edit_outcome g new_role_positions,
           [EditRolePositions new_role_positions], created_roles)
      end
  end.

Definition criar_cargos_slash (g : genv) (lista_cargos : string) : list event :=
  Defer ::
  if negb (in_guild g) then [Send OnlyInGuild]
  else
    let names := role_names lista_cargos in
    match names with
    | [] => [Send NoValidRole]
    | _ =>
        let '(t, created_roles, failed_roles) := create_roles g names 0 in
        match created_roles with
        | [] => t ++ [Send (CreationFailed failed_roles)]
        | _ =>
            let '(r, t', created_roles) := reorder g created_roles in
            let '(reorder_success, failed_roles) :=
              match r with
              | inr _ => (true, failed_roles)
              | inl e =>
                  (false,
                   failed_roles ++
                   [if is_Forbidden e then ReorderForbidden else ReorderError e])
              end in
            t ++ t' ++
            [Send (RolesCreated (role_name <$> created_roles) failed_roles
                                (negb reorder_success))]
        end
    end.

(** ** The other commands *)

(** [str.lower] and [int(s, 16)] are aware of Unicode: the commands below
    are parametric in them, and [ascii_text] implements both for ASCII
    text. *)
Class TextBuiltins := {
  lower : string -> string;
  int16 : string -> option Z
}.

(** [s.lstrip('#')] *)
Fixpoint lstrip_hash (s : string) : string :=
  match s with
  | String c r => if Ascii.eqb c "#" then lstrip_hash r else s
  | EmptyString => EmptyString
  end.

Definition ascii_lower_char (c : ascii) : ascii :=
  let n := nat_of_ascii c in
  if (65 <=? n)%nat && (n <=? 90)%nat then ascii_of_nat (n + 32) else c.

Fixpoint ascii_lower (s : string) : string :=
  match s with
  | String c r => String (ascii_lower_char c) (ascii_lower r)
  | EmptyString => EmptyString
  end.

Definition hex_val (c : ascii) : option Z :=
  let n := nat_of_ascii c in
  if (48 <=? n)%nat && (n <=? 57)%nat then Some (Z.of_nat n - 48)
  else if (65 <=? n)%nat && (n <=? 70)%nat then Some (Z.of_nat n - 55)
  else if (97 <=? n)%nat && (n <=? 102)%nat then Some (Z.of_nat n - 87)
  else None.

(** Hexadecimal digits, with single underscores allowed between digits. *)
Fixpoint parse_hex (s : string) (acc : Z) (after_digit : bool) : option Z :=
  match s with
  | EmptyString => if after_digit then Some acc else None
  | String c r =>
      match hex_val c with
      | Some v => parse_hex r (16 * acc + v) true
      | None =>
          if Ascii.eqb c "_" && after_digit then
            match r with
            | String d _ =>
                match hex_val d with
                | Some _ => parse_hex r acc false
                | None => None
                end
            | EmptyString => None
            end
          else None
      end
  end.

(** The digits of [int(s, 16)] after the sign: an optional [0x] prefix,
    which an underscore may follow. *)
Definition parse_hex_body (s : string) : option Z :=
  match s with
  | String "0" (String x r) =>
      if Ascii.eqb x "x" || Ascii.eqb x "X" then
        match r with
        | EmptyString => None
        | _ => parse_hex r 0 true
        end
      else parse_hex s 0 false
  | _ => parse_hex s 0 false
  end.

Definition ascii_int16 (s : string) : option Z :=
  match int_strip s with
  | String "-" r => Z.opp <$> parse_hex_body r
  | String "+" r => parse_hex_body r
  | r => parse_hex_body r
  end.

Definition ascii_text : TextBuiltins :=
  {| lower := ascii_lower; int16 := ascii_int16 |}.

(** A text channel, voice channel or category of the guild. *)
Record channel := { channel_id : Z; channel_name : string }.

(** An entry of [failed_roles] in [/preset_cargos usar]. *)
Inductive usar_failure :=
| AdminRefused (name : pyval)
| CreateForbidden (name : pyval)
| CreateError (name : pyval) (e : exn)
| ReorderRefused
| ReorderFailed (e : exn).

(** The follow-up messages of the other commands. *)
Inductive answer :=
| GuildOnly
| PresetNotFound (nome : string)
| PresetApplied (nome : string) (names : list string) (failed : list usar_failure)
                (reorder_failed : bool)
| PresetFailed (failed : list usar_failure)
| NothingToSave
| PresetSaved (nome : string) (n : nat)
| DeletingChannels (n : nat)
| ChannelsDeleted (n : nat)
| DeletingRoles (n : nat)
| RolesDeleted (n : nat).

(** What the other commands do, in order. *)
Inductive action :=
| ADefer
| AReply (a : answer)
| ACreateRole (name : pyval) (permissions colour : Z)
| AEditRolePositions (positions : list (Z * nat))
| ASave (presets : pyval)              (* [save_presets(presets)] *)
| ADeleteChannel (c : channel)
| ADeleteRole (r : role).

(** What [/preset_cargos usar] meets: whether there is a guild, the preset
    file, whether the bot is administrator, the answer to the [n]-th
    [create_role], [guild.roles] and [guild.me.top_role] as the reordering
    reads them, and the answer to [edit_role_positions]. *)
Record usar_env := {
  u_in_guild : bool;
  u_file : preset_file;
  u_me_administrator : bool;
  u_create : nat -> pyval -> Z -> Z -> exn + role;
  u_guild_roles : list role;
  u_top_role : role;
  u_edit : list (Z * nat) -> exn + unit
}.

(** What [/preset_cargos salvar] meets: the preset file, and the outcome of
    [save_presets] (opening the file for writing and [json.dump]). *)
Record salvar_env := {
  s_file : preset_file;
  s_write : pyval -> exn + unit
}.

(** What [/apagar_canais] and [/apagar_cargos] meet. *)
Record purge_env := {
  d_in_guild : bool;
  d_channels : list channel;
  d_delete_channel : nat -> channel -> exn + unit;
  d_roles : list role;
  d_top_role : role;
  d_delete_role : nat -> role -> exn + unit
}.

(** The list the reordering builds: [guild.roles] without the created
    roles, and the created roles, last created first, inserted from the
    index of the bot's top role downwards. *)
Definition reordered_roles (guild_roles : list role) (bot_role_index : nat)
    (created_roles : list role) : list role :=
  insert_all (Z.of_nat bot_role_index) (reverse created_roles)
    (List.filter (fun r => negb (existsb (Z.eqb (role_id r)) (role_id <$> created_roles)))
                 guild_roles).

(** [[{'id': role.id, 'position': index} for index, role in enumerate(...)]] *)
Definition positions_of (roles : list role) : list (Z * nat) :=
  imap (fun index role => (role_id role, index)) roles.

(** The names [preset_usar_slash] binds. *)
Definition preset_usar_locals : gset string := list_to_set [
  "interaction"; "nome"; "guild"; "presets"; "role_data_list"; "created_roles";
  "failed_roles"; "role_data"; "name"; "permissions_value"; "color_hex"; "perms";
  "color_int"; "new_role"; "e"; "reorder_success"; "roles_to_reorder";
  "bot_role_index"; "insert_position"; "role"; "new_role_positions";
  "success_message" ].

(** [{'name': name, 'permissions': 0, 'color': '#FFFFFF'}] *)
Definition role_data_of (name : string) : pyval :=
  VDict (list_to_map [("name", VStr name); ("permissions", VInt 0);
                      ("color", VStr "#FFFFFF")]).

Section Commands.
Context `{TextBuiltins}.
Variable json_loads : string -> exn + pyval.
(** [role < other] of discord.py *)
Variable role_lt : role -> role -> bool.

(** [presets.get(nome.lower())] *)
Definition preset_get (presets : pyval) (nome : string) : exn + pyval :=
  Cloner.method_get presets (lower nome) VNone.

(** [int(color_hex.lstrip('#'), 16)] *)
Definition colour_of (color_hex : pyval) : exn + Z :=
  match color_hex with
  | VStr s =>
      match int16 (lstrip_hash s) with
      | Some z => inr z
      | None => inl ValueError
      end
  | _ => inl AttributeError
  end.

(** The body of the [try] for one entry of the preset: the call it issues
    if it gets that far, and the role created, [None] when the entry asks
    for Administrator and the bot is not administrator, or the exception
    raised. *)
Definition usar_attempt (U : usar_env) (n : nat) (name : pyval) (role_data : pydict)
  : list action * (exn + option role) :=
  match as_int (get role_data "permissions" (VInt 0)) with
  | inl e => ([], inl e)
  | inr perms =>
      if Z.testbit perms 3 && negb (u_me_administrator U) then ([], inr None)
      else
        match colour_of (get role_data "color" (VStr "#FFFFFF")) with
        | inl e => ([], inl e)
        | inr color_int =>
            ([ACreateRole name perms color_int],
             match u_create U n name perms color_int with
             | inl e => inl e
             | inr new_role => inr (Some new_role)
             end)
        end
  end.

(** The loop over [role_data_list]; [n] create calls were issued before. *)
Fixpoint usar_loop (U : usar_env) (items : list pyval) (n : nat)
    (created_roles : list role) (failed_roles : list usar_failure)
  : list action * (exn + list role * list usar_failure) :=
  match items with
  | [] => ([], inr (created_roles, failed_roles))
  | VDict role_data :: rest =>
      let name := get role_data "name" VNone in
      if negb (truthy name) then usar_loop U rest n created_roles failed_roles
      else
        let '(t, r) := usar_attempt U n name role_data in
        let n' := (n + length t)%nat in
        match r with
        | inr (Some new_role) =>
            let '(t', x) := usar_loop U rest n' (created_roles ++ [new_role]) failed_roles in
            (t ++ t', x)
        | inr None =>
            let '(t', x) :=
              usar_loop U rest n' created_roles (failed_roles ++ [AdminRefused name]) in
            (t ++ t', x)
        | inl e =>
            if is_Forbidden e
            then (t, inr (created_roles, failed_roles ++ [CreateForbidden name]))
            else
              let '(t', x) :=
                usar_loop U rest n' created_roles (failed_roles ++ [CreateError name e]) in
              (t ++ t', x)
        end
  | _ :: _ => ([], inl AttributeError)
  end.

(** The body of the [try] of the reordering. *)
Definition usar_reorder (U : usar_env) (created_roles : list role)
  : (exn + unit) * list action * list role :=
  match index (u_guild_roles U) (u_top_role U) with
  | inl e => (inl e, [], created_roles)
  | inr bot_role_index =>
      let new_role_positions :=
        positions_of (reordered_roles (u_guild_roles U) bot_role_index created_roles) in
      let created_roles := reverse created_roles in
      match (load_name preset_usar_locals "nome";;
             load_name preset_usar_locals "interaction") with
      | inl e => (inl e, [], created_roles)
      | inr _ =>
          (u_edit U new_role_positions,
           [AEditRolePositions new_role_positions], created_roles)
      end
  end.

Definition preset_usar_slash (U : usar_env) (nome : string)
  : list action * (exn + unit) :=
  if negb (u_in_guild U) then ([ADefer; AReply GuildOnly], inr tt)
  else
    match (presets ← load_presets json_loads (u_file U);
           role_data_list ← preset_get presets nome;
           if negb (truthy role_data_list) then inr None
           else items ← iter role_data_list; inr (Some items)) with
    | inl e => ([ADefer], inl e)
    | inr None => ([ADefer; AReply (PresetNotFound nome)], inr tt)
    | inr (Some items) =>
        let '(t, r) := usar_loop U items 0 [] [] in
        match r with
        | inl e => (ADefer :: t, inl e)
        | inr ([], failed_roles) =>
            (ADefer :: t ++ [AReply (PresetFailed failed_roles)], inr tt)
        | inr (created_roles, failed_roles) =>
            let '(r, t', created_roles) := usar_reorder U created_roles in
            let '(reorder_success, failed_roles) :=
              match r with
              | inr _ => (true, failed_roles)
              | inl e =>
                  (false,
                   failed_roles ++
                   [if is_Forbidden e then ReorderRefused else ReorderFailed e])
              end in
            (ADefer :: t ++ t' ++
             [AReply (PresetApplied nome (role_name <$> created_roles) failed_roles
                                    (negb reorder_success))],
             inr tt)
        end
    end.

(** [presets[nome.lower()] = role_data_list], on what [load_presets]
    returned. *)
Definition preset_set (presets : pyval) (nome : string) (role_data_list : pyval)
  : exn + pyval :=
  match presets with
  | VDict d => inr (VDict (<[lower nome := role_data_list]> d))
  | _ => inl TypeError
  end.

Definition preset_salvar_slash (S : salvar_env) (nome lista_cargos : string)
  : list action * (exn + unit) :=
  match role_names lista_cargos with
  | [] => ([ADefer; AReply NothingToSave], inr tt)
  | names =>
      match (presets ← load_presets json_loads (s_file S);
             preset_set presets nome (VList (role_data_of <$> names))) with
      | inl e => ([ADefer], inl e)
      | inr presets =>
          match s_write S presets with
          | inl e => ([ADefer; ASave presets], inl e)
          | inr _ =>
              ([ADefer; ASave presets; AReply (PresetSaved nome (length names))],
               inr tt)
          end
      end
  end.

(** The loop of [/apagar_canais]: the deletions attempted and the number
    that succeeded; [n] were attempted before. *)
Fixpoint delete_channels (D : purge_env) (channels : list channel) (n : nat)
  : list action * nat :=
  match channels with
  | [] => ([], 0%nat)
  | c :: rest =>
      let '(t, deleted_count) := delete_channels D rest (S n) in
      (ADeleteChannel c :: t,
       match d_delete_channel D n c with
       | inr _ => S deleted_count
       | inl _ => deleted_count
       end)
  end.

Definition apagar_canais_slash (D : purge_env) : list action :=
  ADefer ::
  if negb (d_in_guild D) then [AReply GuildOnly]
  else
    let '(t, deleted_count) := delete_channels D (d_channels D) 0 in
    AReply (DeletingChannels (length (d_channels D))) :: t ++
    [AReply (ChannelsDeleted deleted_count)].

(** [[role for role in guild.roles
      if role.name != '@everyone' and role < guild.me.top_role]] *)
Definition roles_to_delete (D : purge_env) : list role :=
  List.filter (fun role => negb (String.eqb (role_name role) "@everyone") &&
                           role_lt role (d_top_role D))
              (d_roles D).

Fixpoint delete_roles (D : purge_env) (roles : list role) (n : nat)
  : list action * nat :=
  match roles with
  | [] => ([], 0%nat)
  | r :: rest =>
      let '(t, deleted_count) := delete_roles D rest (S n) in
      (ADeleteRole r :: t,
       match d_delete_role D n r with
       | inr _ => S deleted_count
       | inl _ => deleted_count
       end)
  end.

Definition apagar_cargos_slash (D : purge_env) : list action :=
  ADefer ::
  if negb (d_in_guild D) then [AReply GuildOnly]
  else
    let '(t, deleted_count) := delete_roles D (roles_to_delete D) 0 in
    AReply (DeletingRoles (length (roles_to_delete D))) :: t ++
    [AReply (RolesDeleted deleted_count)].
End Commands.

(** The calls of [create_role] in a trace, in order. *)
Definition create_calls (t : list action) : list action :=
  List.filter (fun a => match a with ACreateRole _ _ _ => true | _ => false end) t.

(** The roles that [create_role] returned to the calls of a trace, in call
    order; [n] calls were issued before. *)
Fixpoint returned_roles (U : usar_env) (n : nat) (t : list action) : list role :=
  match t with
  | [] => []
  | ACreateRole name permissions colour :: t' =>
      match u_create U n name permissions colour with
      | inr new_role => new_role :: returned_roles U (S n) t'
      | inl _ => returned_roles U (S n) t'
      end
  | _ :: t' => returned_roles U n t'
  end.

(** The calls of [edit_role_positions] in a trace, in order. *)
Definition edit_calls (t : list action) : list action :=
  List.filter (fun a => match a with AEditRolePositions _ => true | _ => false end) t.

(** The channels and roles a trace attempts to delete, in order. *)
Definition deleted_channels (t : list action) : list channel :=
  omap (fun a => match a with ADeleteChannel c => Some c | _ => None end) t.
Definition deleted_roles (t : list action) : list role :=
  omap (fun a => match a with ADeleteRole r => Some r | _ => None end) t.


(** The roles the creation loop of the command creates. *)
Definition created_roles_of (g : genv) (lista_cargos : string) : list role :=
  snd (fst (create_roles g (role_names lista_cargos) 0)).

(** A call of [edit_role_positions]. *)
Definition is_edit (ev : event) : bool :=
  match ev with EditRolePositions _ => true | _ => false end.


(** A call of [create_role] that does not ask for Administrator. *)
Definition without_administrator (a : action) : Prop :=
  match a with
  | ACreateRole _ permissions _ => Z.testbit permissions 3 = false
  | _ => True
  end.

(** Whether a trace event is a call of [create_role]. *)
Definition is_create (a : action) : Prop :=
  match a with ACreateRole _ _ _ => True | _ => False end.

(** The names [/criar_cargos] calls [create_role] with, in order. *)
Definition created_names (t : list event) : list string :=
  omap (fun ev => match ev with CreateRole name => Some name | _ => None end) t.

(** Whether a call returned rather than raised. *)
Definition succeeded {A} (r : exn + A) : bool :=
  match r with inr _ => true | inl _ => false end.

(** The characters of a string. *)
Definition chars (s : string) : list ascii := list_ascii_of_string s.

End Limpeza.

(* ===================================================================== *)
(** * Concrete payloads and environments *)
(* ===================================================================== *)

Module Scenarios.
Import Py Cloner.
Local Open Scope string_scope.

Definition record (fields : list (string * pyval)) : pydict := list_to_map fields.

(** The roles of the source: one to clone, a managed one and [@everyone]. *)
Definition mod_role : pydict :=
  record [("id", VStr "1"); ("name", VStr "Mod"); ("position", VInt 2);
          ("managed", VBool false)].
Definition bot_role : pydict :=
  record [("id", VStr "2"); ("name", VStr "Bot"); ("position", VInt 3);
          ("managed", VBool true)].
Definition everyone_role : pydict :=
  record [("id", VStr "0"); ("name", VStr "@everyone"); ("position", VInt 0)].

(** An overwrite for role 1 and one for member 77. *)
Definition role_overwrite : pyval :=
  VDict (record [("id", VStr "1"); ("type", VInt 0);
                 ("allow", VStr "1024"); ("deny", VStr "0")]).
Definition member_overwrite : pyval :=
  VDict (record [("id", VStr "77"); ("type", VInt 1);
                 ("allow", VStr "0"); ("deny", VStr "2048")]).

(** A category, a text channel in it, and a text channel whose category is
    not among the channels. *)
Definition general : pydict :=
  record [("id", VStr "10"); ("type", VInt 4); ("name", VStr "General");
          ("position", VInt 0)].
Definition chat : pydict :=
  record [("id", VStr "11"); ("type", VInt 0); ("name", VStr "chat");
          ("position", VInt 0); ("parent_id", VStr "10");
          ("permission_overwrites", VList [role_overwrite; member_overwrite])].

Definition ok (body : list pydict) : exn + response :=
  inr {| status_code := 200; json := inr body |}.

(** The bot is administrator of guild 5 only; the destination accepts every
    call and numbers what it creates from 100. *)
Definition destination (roles channels : exn + response) : env := {|
  get_guild := fun id =>
    if (id =? 5)%Z then Some {| guild_name := "destino"; me_administrator := true |}
    else if (id =? 6)%Z then Some {| guild_name := "outro"; me_administrator := false |}
    else None;
  http_get := fun ep _ =>
    match ep with GuildRoles _ => roles | GuildChannels _ => channels end;
  dest := fun n _ => inr (100 + Z.of_nat n);
  user_name := "ana"
|}.

(** Both reads succeed. *)
Definition readable : env :=
  destination (ok [mod_role; bot_role; everyone_role]) (ok [chat; general]).

(** Both reads succeed and the destination refuses every call: the first
    with [Forbidden], the others with another error. *)
Definition refusing : env := {|
  get_guild := get_guild readable;
  http_get := http_get readable;
  dest := fun n _ => if Nat.eqb n 0 then inl Forbidden else inl OtherError;
  user_name := "ana"
|}.

(** The read of the roles is refused, the read of the channels is not. *)
Definition roles_refused : env :=
  destination (inr {| status_code := 403; json := inl JSONDecodeError |})
              (ok [chat; general]).

(** A role-scoped overwrite whose id is not a number. *)
Definition unnumbered_overwrite : pyval :=
  VDict (record [("id", VStr "abc"); ("type", VInt 0);
                 ("allow", VStr "8"); ("deny", VStr "0")]).

(** A forum channel, a type the cloner has no creation call for. *)
Definition forum : pydict :=
  record [("id", VStr "13"); ("type", VInt 15); ("name", VStr "ideas");
          ("position", VInt 2)].

(** The roles are read, the read of the channels is answered with 503. *)
Definition channels_refused : env :=
  destination (ok [mod_role; bot_role; everyone_role])
              (inr {| status_code := 503; json := inl JSONDecodeError |}).

(** A decoder of the JSON constants and of the empty containers, to run
    [load_presets] on. *)
Definition json_loads_const (s : string) : exn + pyval :=
  if String.eqb s "{}" then inr (VDict ∅)
  else if String.eqb s "[]" then inr (VList [])
  else if String.eqb s "null" then inr VNone
  else if String.eqb s "true" then inr (VBool true)
  else if String.eqb s "false" then inr (VBool false)
  else inl JSONDecodeError.

(** A guild with [@everyone] and the role of the bot, which accepts every
    call. *)
Definition small_guild : Limpeza.genv := {|
  Limpeza.in_guild := true;
  Limpeza.create_role_outcome := fun n name =>
    inr {| Limpeza.role_id := 100 + Z.of_nat n; Limpeza.role_name := name |};
  Limpeza.guild_roles :=
    [ {| Limpeza.role_id := 1; Limpeza.role_name := "@everyone" |};
      {| Limpeza.role_id := 2; Limpeza.role_name := "bot" |} ];
  Limpeza.top_role := {| Limpeza.role_id := 2; Limpeza.role_name := "bot" |};
  Limpeza.edit_outcome := fun _ => inr tt
|}.


(** A word between double quotes. *)
Definition quoted (s : string) : string :=
  String "034"%char (s ++ String "034"%char "").

(** The text of an entry of a preset. *)
Definition entry_text (name permissions color : string) : string :=
  "{" ++ quoted "name" ++ ": " ++ quoted name ++ ", " ++
  quoted "permissions" ++ ": " ++ permissions ++ ", " ++
  quoted "color" ++ ": " ++ quoted color ++ "}".

(** The preset file after [/preset_cargos salvar] stored the names Admin and
    Mod as [staff], and the value it decodes to. *)
Definition staff_text : string :=
  "{" ++ quoted "staff" ++ ": [" ++ entry_text "Admin" "0" "#FFFFFF" ++ ", " ++
  entry_text "Mod" "0" "#FFFFFF" ++ "]}".
Definition staff_store : pyval :=
  VDict {[ "staff" := VList [Limpeza.role_data_of "Admin"; Limpeza.role_data_of "Mod"] ]}.

(** The same file edited by hand: the first role is Owner, red, with the
    permission Administrator. *)
Definition edited_text : string :=
  "{" ++ quoted "staff" ++ ": [" ++ entry_text "Owner" "8" "#FF0000" ++ ", " ++
  entry_text "Mod" "0" "#FFFFFF" ++ "]}".
Definition edited_store : pyval :=
  VDict {[ "staff" :=
    VList [VDict (record [("name", VStr "Owner"); ("permissions", VInt 8);
                          ("color", VStr "#FF0000")]);
           Limpeza.role_data_of "Mod"] ]}.

(** A decoder of these two texts, and of the constants. *)
Definition json_loads_presets (s : string) : exn + pyval :=
  if String.eqb s staff_text then inr staff_store
  else if String.eqb s edited_text then inr edited_store
  else json_loads_const s.

Definition everyone : Limpeza.role :=
  {| Limpeza.role_id := 1; Limpeza.role_name := "@everyone" |}.
Definition bot : Limpeza.role := {| Limpeza.role_id := 3; Limpeza.role_name := "bot" |}.
Definition helper : Limpeza.role := {| Limpeza.role_id := 2; Limpeza.role_name := "helper" |}.
Definition owner : Limpeza.role := {| Limpeza.role_id := 4; Limpeza.role_name := "owner" |}.

(** A guild whose preset file holds [text], with [@everyone] and the role
    of the bot, which accepts every call. *)
Definition preset_guild (text : string) (administrator : bool) : Limpeza.usar_env := {|
  Limpeza.u_in_guild := true;
  Limpeza.u_file := {| Limpeza.file_exists := true; Limpeza.file_read := inr text |};
  Limpeza.u_me_administrator := administrator;
  Limpeza.u_create := fun n name _ _ =>
    inr {| Limpeza.role_id := 100 + Z.of_nat n;
           Limpeza.role_name := match name with VStr s => s | _ => "" end |};
  Limpeza.u_guild_roles := [everyone; bot];
  Limpeza.u_top_role := bot;
  Limpeza.u_edit := fun _ => inr tt
|}.

(** The same guild, refusing every creation. *)
Definition refusing_guild (text : string) : Limpeza.usar_env := {|
  Limpeza.u_in_guild := true;
  Limpeza.u_file := {| Limpeza.file_exists := true; Limpeza.file_read := inr text |};
  Limpeza.u_me_administrator := false;
  Limpeza.u_create := fun _ _ _ _ => inl Forbidden;
  Limpeza.u_guild_roles := [everyone; bot];
  Limpeza.u_top_role := bot;
  Limpeza.u_edit := fun _ => inr tt
|}.

(** No preset file yet, and a file that can be written. *)
Definition no_presets : Limpeza.salvar_env := {|
  Limpeza.s_file := {| Limpeza.file_exists := false; Limpeza.file_read := inl OtherError |};
  Limpeza.s_write := fun _ => inr tt
|}.

(** A preset file that holds a JSON list. *)
Definition list_file : Limpeza.preset_file :=
  {| Limpeza.file_exists := true; Limpeza.file_read := inr "[]" |}.

(** Roles ordered by their ids. *)
Definition lower_id (a b : Limpeza.role) : bool :=
  (Limpeza.role_id a <? Limpeza.role_id b)%Z.

(** A guild with two channels, of which the second cannot be deleted, and
    four roles. *)
Definition general_channel : Limpeza.channel :=
  {| Limpeza.channel_id := 1; Limpeza.channel_name := "general" |}.
Definition voice_channel : Limpeza.channel :=
  {| Limpeza.channel_id := 2; Limpeza.channel_name := "voice" |}.
Definition purge_guild : Limpeza.purge_env := {|
  Limpeza.d_in_guild := true;
  Limpeza.d_channels := [general_channel; voice_channel];
  Limpeza.d_delete_channel := fun n c =>
    if (Limpeza.channel_id c =? 2)%Z then inl Forbidden else inr tt;
  Limpeza.d_roles := [everyone; helper; bot; owner];
  Limpeza.d_top_role := bot;
  Limpeza.d_delete_role := fun _ _ => inr tt
|}.

End Scenarios.

(* ===================================================================== *)
(** * Facts about the Python layer *)
(* ===================================================================== *)

Module PyFacts.
Import Py.

Lemma ltb_asym (s t : string) : String.ltb s t = true -> String.ltb t s = false.
Proof.
  unfold String.ltb. rewrite (String.compare_antisym t s).
  destruct (String.compare s t); simpl; congruence.
Qed.

Lemma ltb_false_trans (s t u : string) :
  String.ltb t s = false -> String.ltb u t = false -> String.ltb u s = false.
Proof.
  unfold String.ltb. intros Hts Hut.
  destruct (String.compare u s) eqn:Hus; try reflexivity. exfalso.
  apply String_as_OT.cmp_lt in Hus.
  destruct (String.compare t s) eqn:Hts'; try discriminate.
  - apply String.compare_eq_iff in Hts'. subst t.
    apply String_as_OT.cmp_lt in Hus. unfold String_as_OT.cmp in Hus.
    rewrite Hus in Hut. discriminate.
  - rewrite String.compare_antisym in Hts'.
    destruct (String.compare s t) eqn:Hst; try discriminate.
    apply String_as_OT.cmp_lt in Hst.
    pose proof (String_as_OT.lt_trans _ _ _ Hus Hst) as Hut'.
    apply String_as_OT.cmp_lt in Hut'. unfold String_as_OT.cmp in Hut'.
    rewrite Hut' in Hut. discriminate.
Qed.

(** On integers [le] is [<=]. *)
Lemma le_int (a b : Z) : le (VInt a) (VInt b) = true <-> a <= b.
Proof.
  unfold le, lt; simpl. destruct (b <? a) eqn:Hc.
  - apply Z.ltb_lt in Hc. split; [discriminate | lia].
  - apply Z.ltb_ge in Hc. split; [lia | reflexivity].
Qed.

Lemma lt_false_le (a b : pyval) : lt a b = inr false -> le b a = true.
Proof. unfold le. intros ->. reflexivity. Qed.

Lemma lt_true_le (a b : pyval) : lt a b = inr true -> le a b = true.
Proof.
  unfold le, lt.
  destruct (as_int a) as [ea|x] eqn:Ha, (as_int b) as [eb|y] eqn:Hb.
  - destruct a, b; try discriminate. intros [= Hlt]. by rewrite (ltb_asym _ _ Hlt).
  - destruct a, b; try discriminate.
  - destruct a, b; try discriminate.
  - intros [= Hlt]. apply Z.ltb_lt in Hlt.
    destruct (y <? x) eqn:Hc; [apply Z.ltb_lt in Hc; lia | reflexivity].
Qed.

Lemma le_trans (a b c : pyval) : le a b = true -> le b c = true -> le a c = true.
Proof.
  unfold le, lt.
  destruct (as_int a) as [ea|x] eqn:Ha, (as_int b) as [eb|y] eqn:Hb,
           (as_int c) as [ec|z] eqn:Hc;
    try (destruct a, b, c; discriminate).
  - destruct a, b, c; try discriminate.
    destruct (String.ltb s0 s) eqn:H1; [discriminate|].
    destruct (String.ltb s1 s0) eqn:H2; [discriminate|].
    intros _ _. by rewrite (ltb_false_trans _ _ _ H1 H2).
  - destruct (y <? x) eqn:H1; [discriminate|].
    destruct (z <? y) eqn:H2; [discriminate|].
    apply Z.ltb_ge in H1, H2. intros _ _.
    destruct (z <? x) eqn:H3; [apply Z.ltb_lt in H3; lia | reflexivity].
Qed.

Section SortFacts.
Context {A : Type} (key : A -> pyval).

Lemma insert_by_perm (x : A) (l r : list A) :
  insert_by key x l = inr r -> r ≡ₚ x :: l.
Proof.
  revert r. induction l as [|y l IH]; intros r; simpl.
  - intros [= <-]. reflexivity.
  - destruct (lt (key y) (key x)) as [e|[|]]; try discriminate.
    + destruct (insert_by key x l) as [e|r'] eqn:Hins; try discriminate.
      intros [= <-]. rewrite (IH r' eq_refl). apply Permutation_swap.
    + intros [= <-]. reflexivity.
Qed.

Lemma sort_by_perm (l s : list A) : sort_by key l = inr s -> s ≡ₚ l.
Proof.
  revert s. induction l as [|x l IH]; intros s; simpl.
  - intros [= <-]. reflexivity.
  - destruct (sort_by key l) as [e|s'] eqn:Hs; try discriminate.
    intros Hins. apply insert_by_perm in Hins.
    rewrite Hins, (IH s' eq_refl). reflexivity.
Qed.

Lemma insert_by_sorted (x : A) (l r : list A) :
  StronglySorted (key_le key) l -> insert_by key x l = inr r -> StronglySorted (key_le key) r.
Proof.
  revert r. induction l as [|y l IH]; intros r Hsorted; simpl.
  - intros [= <-]. repeat constructor.
  - apply StronglySorted_inv in Hsorted as [Hl Hy].
    destruct (lt (key y) (key x)) as [e|[|]] eqn:Hlt; try discriminate.
    + destruct (insert_by key x l) as [e|r'] eqn:Hins; try discriminate.
      intros [= <-]. constructor; [by apply IH|].
      apply insert_by_perm in Hins. rewrite Hins.
      constructor; [by apply lt_true_le | done].
    + intros [= <-]. apply lt_false_le in Hlt.
      constructor; [by constructor|].
      constructor; [done|].
      eapply Forall_impl; [exact Hy|].
      intros z Hz. by eapply le_trans.
Qed.

(** When [list.sort] returns, the keys are in non-decreasing order. *)
Lemma sort_by_sorted (l s : list A) :
  sort_by key l = inr s -> StronglySorted (key_le key) s.
Proof.
  revert s. induction l as [|x l IH]; intros s; simpl.
  - intros [= <-]. constructor.
  - destruct (sort_by key l) as [e|s'] eqn:Hs; try discriminate.
    apply insert_by_sorted. by apply IH.
Qed.
End SortFacts.

End PyFacts.

(* ===================================================================== *)
(** * Facts about bot_cloner.py *)
(* ===================================================================== *)

Module ClonerFacts.
Import Py Cloner PyFacts.

(** ** The log of a composed program *)

Section Logs.
Context {A B : Type} (P Q : event -> Prop).

Lemma emits_ret (a : A) : emits P (mret a).
Proof. intros n. constructor. Qed.

Lemma emits_lift (r : exn + A) : emits P (lift r).
Proof. intros n. constructor. Qed.

Lemma emits_emit (ev : event) : P ev -> emits P (emit ev).
Proof. intros Hev n. by repeat constructor. Qed.

Lemma emits_bind (m : M A) (f : A -> M B) :
  emits P m -> (forall a, emits P (f a)) -> emits P (m ≫= f).
Proof.
  intros Hm Hf n. unfold mbind, M_bind. specialize (Hm n).
  destruct (res (m n)); simpl; [done|].
  apply Forall_app. split; [done | apply Hf].
Qed.

Lemma emits_try (m : M A) (h : exn -> M A) :
  emits P m -> (forall e, emits P (h e)) -> emits P (try_ m h).
Proof.
  intros Hm Hh n. unfold try_. specialize (Hm n).
  destruct (res (m n)); simpl; [|done].
  apply Forall_app. split; [done | apply Hh].
Qed.

Lemma emits_splits_l (m : M A) : emits P m -> splits P Q m.
Proof. intros Hm n. exists (log (m n)), []. rewrite app_nil_r. by repeat split. Qed.

Lemma emits_splits_r (m : M A) : emits Q m -> splits P Q m.
Proof. intros Hm n. exists [], (log (m n)). by repeat split. Qed.

Lemma splits_bind_l (m : M A) (f : A -> M B) :
  emits P m -> (forall a, splits P Q (f a)) -> splits P Q (m ≫= f).
Proof.
  intros Hm Hf n. unfold mbind, M_bind. specialize (Hm n).
  destruct (res (m n)) as [e|a]; simpl.
  - exists (log (m n)), []. rewrite app_nil_r. by repeat split.
  - destruct (Hf a (clock (m n))) as (t1 & t2 & -> & H1 & H2).
    exists (log (m n) ++ t1), t2. rewrite app_assoc.
    repeat split; [by apply Forall_app | done].
Qed.

Lemma splits_bind_r (m : M A) (f : A -> M B) :
  splits P Q m -> (forall a, emits Q (f a)) -> splits P Q (m ≫= f).
Proof.
  intros Hm Hf n. unfold mbind, M_bind.
  destruct (Hm n) as (t1 & t2 & Hlog & H1 & H2).
  destruct (res (m n)) as [e|a]; simpl.
  - by exists t1, t2.
  - exists t1, (t2 ++ log (f a (clock (m n)))). rewrite Hlog, app_assoc.
    repeat split; [done | apply Forall_app; split; [done | apply Hf]].
Qed.

Lemma splits_try_r (m : M A) (h : exn -> M A) :
  splits P Q m -> (forall e, emits Q (h e)) -> splits P Q (try_ m h).
Proof.
  intros Hm Hh n. unfold try_.
  destruct (Hm n) as (t1 & t2 & Hlog & H1 & H2).
  destruct (res (m n)) as [e|a]; simpl.
  - exists t1, (t2 ++ log (h e (clock (m n)))). rewrite Hlog, app_assoc.
    repeat split; [done | apply Forall_app; split; [done | apply Hh]].
  - by exists t1, t2.
Qed.
End Logs.

(** ** Running a composed program *)

Section Runs.
Context {A B : Type}.

Lemma after_nil (o : out A) : after [] o = o.
Proof. by destruct o. Qed.

Lemma after_after (t1 t2 : list event) (o : out A) :
  after t1 (after t2 o) = after (t1 ++ t2) o.
Proof. unfold after; cbn. by rewrite app_assoc. Qed.

Lemma run_bind_ok (m : M A) (f : A -> M B) (n : nat) a t c :
  m n = Out (inr a) t c -> (m ≫= f) n = after t (f a c).
Proof. intros Hm. unfold mbind, M_bind. by rewrite Hm. Qed.

Lemma run_bind_err (m : M A) (f : A -> M B) (n : nat) e t c :
  m n = Out (inl e) t c -> (m ≫= f) n = Out (inl e) t c.
Proof. intros Hm. unfold mbind, M_bind. by rewrite Hm. Qed.

Lemma run_emit_bind (ev : event) (f : unit -> M B) (n : nat) :
  (emit ev ≫= f) n = after [ev] (f tt n).
Proof. reflexivity. Qed.

Lemma run_send_bind (m : msg) (f : unit -> M B) (n : nat) :
  (send m ≫= f) n = after [Send m] (f tt n).
Proof. reflexivity. Qed.

Lemma run_lift_ok (a : A) (f : A -> M B) (n : nat) :
  (lift (inr a) ≫= f) n = f a n.
Proof. unfold mbind, M_bind, lift; cbn. by destruct (f a n). Qed.

Lemma run_lift_err (e : exn) (f : A -> M B) (n : nat) :
  (lift (inl e) ≫= f) n = Out (inl e) [] n.
Proof. reflexivity. Qed.

(** A [try] whose body starts with the events [t]. *)
Lemma run_try_after (m m' : M A) (h : exn -> M A) (t : list event) (n : nat) :
  m' n = after t (m n) -> try_ m' h n = after t (try_ m h n).
Proof.
  intros Hm. unfold try_. rewrite Hm.
  destruct (m n) as [[e|a] t' c]; unfold after; cbn; [by rewrite app_assoc | done].
Qed.

Lemma run_try_err (m : M A) (h : exn -> M A) (n : nat) e t c :
  m n = Out (inl e) t c -> try_ m h n = after t (h e c).
Proof. intros Hm. unfold try_. by rewrite Hm. Qed.

Lemma run_try_ok (m : M A) (h : exn -> M A) (n : nat) a t c :
  m n = Out (inr a) t c -> try_ m h n = Out (inr a) t c.
Proof. intros Hm. unfold try_. by rewrite Hm. Qed.
End Runs.

Ltac log_leaf :=
  first [ apply emits_ret | apply emits_lift | apply emits_emit; done ].

Ltac log_step :=
  first [ log_leaf | apply emits_bind; [solve [log_leaf] | intros ?] ].

Section ProgramFacts.
Context `{StrBuiltins} (E : env).

Lemma emits_call (P : event -> Prop) (src : pydict) (c : dest_call) :
  P (Call src c) -> emits P (call E src c).
Proof. intros Hc n. by repeat constructor. Qed.

Lemma emits_api_get (P : event -> Prop) (ep : endpoint) (token : string) :
  P (HttpGet ep token) -> emits P (api_get E ep token).
Proof. intros Hc n. by repeat constructor. Qed.

(** *** The two passes of the channel cloner *)

Lemma role_loop_first_pass (roles : list pydict) (rm : gmap Z handle) :
  emits first_pass (role_loop E roles rm).
Proof.
  revert rm. induction roles as [|role rest IH]; intros rm; simpl.
  - apply emits_ret.
  - apply emits_bind.
    + unfold role_step. do 2 log_step. apply emits_try.
      * apply emits_bind; [by apply emits_call | intros ?]. repeat log_step.
      * intros e. destruct (is_Forbidden e); unfold send; repeat log_step.
    + intros [m|m]; [apply IH | apply emits_ret].
Qed.

Lemma clone_roles_user_first_pass (token origem : string) :
  emits first_pass (clone_roles_user E token origem).
Proof.
  unfold clone_roles_user, send.
  apply emits_bind; [by apply emits_api_get | intros response].
  destruct (negb _); repeat log_step.
  apply emits_bind; [apply role_loop_first_pass | intros ?]. repeat log_step.
Qed.

Lemma category_loop_first_pass (rm : gmap Z handle) (channels : list pydict)
    (cm : gmap Z handle) :
  emits first_pass (category_loop E rm channels cm).
Proof.
  revert cm. induction channels as [|channel rest IH]; intros cm; simpl.
  - apply emits_ret.
  - apply emits_bind.
    + unfold category_step. destruct (is_category channel) eqn:Hcat; [|apply emits_ret].
      do 2 log_step. apply emits_try.
      * log_step.
        apply emits_bind; [apply emits_call; simpl; by rewrite Hcat | intros ?].
        unfold sleep. repeat log_step.
      * intros e. log_step.
        destruct (is_Forbidden e); unfold send; repeat log_step.
    + intros [m|m]; [apply IH | apply emits_ret].
Qed.

Lemma create_channel_second_pass (channel : pydict) (kw : channel_kwargs) :
  is_category channel = false -> emits second_pass (create_channel E channel kw).
Proof.
  intros Hcat. unfold create_channel.
  repeat case_match; try log_leaf;
    (apply emits_bind; [apply emits_call; simpl; by rewrite Hcat | intros ?; log_leaf]).
Qed.

Lemma channel_loop_second_pass (rm cm : gmap Z handle) (channels : list pydict) :
  emits second_pass (channel_loop E rm cm channels).
Proof.
  induction channels as [|channel rest IH]; simpl.
  - apply emits_ret.
  - apply emits_bind.
    + unfold channel_step. destruct (is_category channel) eqn:Hcat; simpl; [apply emits_ret|].
      do 3 log_step. apply emits_try.
      * apply emits_bind; [by apply create_channel_second_pass | intros ?].
        unfold sleep. repeat log_step.
      * intros e. destruct (is_Forbidden e); unfold send; repeat log_step.
    + intros [m|m]; [apply IH | apply emits_ret].
Qed.

Lemma clone_channels_user_passes (token origem : string) (rm : gmap Z handle) :
  splits first_pass second_pass (clone_channels_user E token origem rm).
Proof.
  unfold clone_channels_user, send.
  apply splits_bind_l; [by apply emits_api_get | intros response].
  destruct (negb _); [apply emits_splits_l; log_leaf|].
  apply splits_bind_l; [log_leaf | intros channels_data].
  apply splits_bind_l; [log_leaf | intros sorted].
  apply splits_bind_l; [log_leaf | intros ?].
  apply splits_bind_l; [apply category_loop_first_pass | intros cm].
  apply emits_splits_r.
  apply emits_bind; [apply channel_loop_second_pass | intros ?]. log_leaf.
Qed.

Lemma clone_server_user_slash_passes (token origem destino : string) :
  splits first_pass second_pass (clone_server_user_slash E token origem destino).
Proof.
  unfold clone_server_user_slash, send.
  apply splits_bind_l; [log_leaf | intros ?].
  apply splits_try_r.
  - apply splits_bind_l; [log_leaf | intros d].
    destruct (get_guild E d) as [g|]; [|apply emits_splits_l; log_leaf].
    destruct (negb _); [apply emits_splits_l; log_leaf|].
    apply splits_bind_l; [log_leaf | intros ?].
    apply splits_bind_l; [apply clone_roles_user_first_pass | intros rm].
    apply splits_bind_r; [apply clone_channels_user_passes | intros ?; log_leaf].
  - intros e. unfold report. destruct (is_ValueError e); log_leaf.
Qed.

(** C5: in every invocation the creation calls of the category pass come
    before those of the channel pass.  The trace is a first part, in
    which a category is only created from a record of type 4 and no
    channel is created, followed by a second part, in which a channel is
    only created from a record of another type and no category is
    created. *)
Theorem categories_before_channels (token origem destino : string) :
  exists t1 t2,
    trace (clone_server_user_slash E token origem destino) = t1 ++ t2 /\
    Forall first_pass t1 /\ Forall second_pass t2.
Proof.
  apply (clone_server_user_slash_passes token origem destino 0%nat).
Qed.

(** *** The orchestrator *)

(** C3: when the destination guild is not in the bot's cache, or the bot
    is not administrator there, the command answers with the failure
    message and does nothing else: no read of the source and no call on
    the destination is issued. *)
Theorem precondition_failure_fails_fast (token origem destino : string) (d : Z) :
  int_of_str destino = Some d ->
  (get_guild E d = None \/
   exists g, get_guild E d = Some g /\ me_administrator g = false) ->
  let t := trace (clone_server_user_slash E token origem destino) in
  (exists m, t = [Defer; Send m] /\ (m = DestNotFound destino \/ m = NeedAdmin)) /\
  Forall (fun ev => is_read ev = false /\ is_write ev = false) t /\
  result (clone_server_user_slash E token origem destino) = inr tt.
Proof.
  intros Hd Hpre.
  unfold trace, result, clone_server_user_slash, try_, mbind, M_bind; simpl.
  rewrite Hd; simpl.
  destruct Hpre as [-> | (g & -> & ->)]; simpl.
  - split; [eexists; split; [reflexivity | by left] | split; [by repeat constructor | done]].
  - split; [eexists; split; [reflexivity | by right] | split; [by repeat constructor | done]].
Qed.

(** C1, as the code has it.  When the fetch of the roles raises (the
    request fails, or the body of a 200 answer cannot be decoded), the
    clone is aborted: the exception is reported once and nothing follows.
    When the fetch answers with another status than 200, the role cloner
    reports it once, creates no role and returns the empty mapping, and
    the command goes on with the channel phase against the empty mapping
    and with its closing message. *)
Theorem roles_fetch_failure (token origem destino : string) (d : Z) (g : guild) :
  int_of_str destino = Some d ->
  get_guild E d = Some g ->
  me_administrator g = true ->
  let t := trace (clone_server_user_slash E token origem destino) in
  let start := [Defer; Send (Starting origem (guild_name g));
                HttpGet (GuildRoles origem) token] in
  (forall e, http_get E (GuildRoles origem) token = inl e ->
     t = start ++ trace (report e)) /\
  (forall resp e, http_get E (GuildRoles origem) token = inr resp ->
     status_code resp = 200 -> json resp = inl e ->
     t = start ++ trace (report e)) /\
  (forall resp, http_get E (GuildRoles origem) token = inr resp ->
     status_code resp <> 200 ->
     trace (clone_roles_user E token origem) =
       [HttpGet (GuildRoles origem) token; Send (RolesFetchFailed (status_code resp))] /\
     result (clone_roles_user E token origem) = inr ∅ /\
     t = start ++ Send (RolesFetchFailed (status_code resp)) ::
         trace (try_ (clone_channels_user E token origem ∅;;
                      send (Done origem (guild_name g)))
                     report)).
Proof.
  intros Hd Hg Hadmin t start.
  assert (Hrun : forall body : M unit,
    clone_server_user_slash E token origem destino 0%nat =
    after [Defer]
      (try_ (send (Starting origem (guild_name g));;
             role_mapping ← clone_roles_user E token origem;
             clone_channels_user E token origem role_mapping;;
             send (Done origem (guild_name g))) report 0%nat)).
  { intros _. unfold clone_server_user_slash. rewrite run_emit_bind. f_equal.
    unfold try_ at 1 2. unfold int. rewrite Hd, run_lift_ok, Hg, Hadmin. reflexivity. }
  specialize (Hrun (mret tt)). unfold t, trace. rewrite Hrun. clear Hrun t.
  split; [|split].
  - intros e He.
    assert (Hroles : clone_roles_user E token origem 0%nat =
                     Out (inl e) [HttpGet (GuildRoles origem) token] 0%nat).
    { unfold clone_roles_user. apply run_bind_err. unfold api_get. by rewrite He. }
    erewrite run_try_err;
      [|rewrite (run_send_bind (Starting origem (guild_name g)));
        erewrite run_bind_err by exact Hroles; reflexivity].
    reflexivity.
  - intros resp e Hget Hs He.
    assert (Hroles : clone_roles_user E token origem 0%nat =
                     Out (inl e) [HttpGet (GuildRoles origem) token] 0%nat).
    { unfold clone_roles_user. erewrite run_bind_ok; [|unfold api_get; by rewrite Hget].
      rewrite Hs, He; cbn. by rewrite run_lift_err. }
    erewrite run_try_err;
      [|rewrite (run_send_bind (Starting origem (guild_name g)));
        erewrite run_bind_err by exact Hroles; reflexivity].
    reflexivity.
  - intros resp Hget Hs.
    assert (Hroles : clone_roles_user E token origem 0%nat =
              Out (inr ∅) [HttpGet (GuildRoles origem) token;
                           Send (RolesFetchFailed (status_code resp))] 0%nat).
    { unfold clone_roles_user. erewrite run_bind_ok; [|unfold api_get; by rewrite Hget].
      apply Z.eqb_neq in Hs. rewrite Hs. reflexivity. }
    unfold result. rewrite Hroles. split; [reflexivity | split; [reflexivity|]].
    erewrite run_try_after.
    2:{ rewrite (run_send_bind (Starting origem (guild_name g))).
        erewrite run_bind_ok; [|exact Hroles].
        rewrite after_after. reflexivity. }
    reflexivity.
Qed.


(** *** The role cloner *)

Lemma sources_app (t1 t2 : list event) :
  created_role_sources (t1 ++ t2) = created_role_sources t1 ++ created_role_sources t2.
Proof. apply omap_app. Qed.

(** The creation calls of the loop are issued for the records of a
    prefix of its list, in the order of the list. *)
Lemma role_loop_sources (roles : list pydict) (rm : gmap Z handle) (n : nat) :
  created_role_sources (log (role_loop E roles rm n)) `prefix_of` roles.
Proof.
  revert rm n. induction roles as [|role rest IH]; intros rm n; simpl.
  - apply prefix_nil.
  - unfold mbind at 1, M_bind at 1, role_step, lift, try_, call, mbind, M_bind; simpl.
    destruct (old_id role) as [e|k]; simpl; [apply prefix_nil|].
    destruct (role_kwargs_of E role) as [e|kw]; simpl; [apply prefix_nil|].
    destruct (dest E n (create_role kw)) as [e|h]; simpl.
    + destruct (is_Forbidden e); simpl.
      * apply prefix_cons, prefix_nil.
      * apply prefix_cons. apply (IH rm (S n)).
    + apply prefix_cons. apply (IH _ (S n)).
Qed.

(** A key of the mapping the loop returns was a key before, or is the id
    of a record of the list. *)
Lemma role_loop_keys (roles : list pydict) (rm rm' : gmap Z handle) (n : nat) (k : Z) :
  res (role_loop E roles rm n) = inr rm' ->
  is_Some (rm' !! k) ->
  is_Some (rm !! k) \/ exists r, r ∈ roles /\ old_id r = inr k.
Proof.
  revert rm n. induction roles as [|role rest IH]; intros rm n; simpl.
  - intros [= <-]. by left.
  - unfold mbind at 1, M_bind at 1, role_step, lift, try_, call, mbind, M_bind; simpl.
    destruct (old_id role) as [e|k'] eqn:Hid; simpl; [done|].
    destruct (role_kwargs_of E role) as [e|kw]; simpl; [done|].
    destruct (dest E n (create_role kw)) as [e|h]; simpl.
    + destruct (is_Forbidden e); simpl.
      * intros [= <-]. by left.
      * intros Hres Hk. destruct (IH rm (S n) Hres Hk) as [?|(r & Hr & Hrk)]; [by left|].
        right. exists r. split; [by apply list_elem_of_further | done].
    + intros Hres Hk. destruct (IH _ (S n) Hres Hk) as [Hin|(r & Hr & Hrk)].
      * destruct (decide (k' = k)) as [->|Hne].
        -- right. exists role. split; [apply list_elem_of_here | done].
        -- left. by rewrite lookup_insert_ne in Hin.
      * right. exists r. split; [by apply list_elem_of_further | done].
Qed.

Lemma clone_roles_user_sources (token origem : string) :
  created_role_sources (trace (clone_roles_user E token origem))
    `prefix_of` roles_to_create E token origem.
Proof.
  unfold trace, roles_to_create, clone_roles_user, api_get, lift, send, emit, mbind, M_bind;
    simpl.
  destruct (http_get E (GuildRoles origem) token) as [e|resp]; simpl; [apply prefix_nil|].
  destruct (status_code resp =? 200); simpl; [|apply prefix_nil].
  destruct (json resp) as [e|roles_data]; simpl; [apply prefix_nil|].
  destruct (sort_by position (roles_to_copy roles_data)) as [e|sorted]; simpl;
    [apply prefix_nil|].
  pose proof (role_loop_sources sorted ∅ 0%nat) as Hp.
  destruct (res (role_loop E sorted ∅ 0%nat)); simpl;
    rewrite ?sources_app, ?app_nil_r; simpl; rewrite ?app_nil_r; exact Hp.
Qed.

Lemma roles_to_create_copied (token origem : string) (r : pydict) :
  r ∈ roles_to_create E token origem -> copied r = true.
Proof.
  unfold roles_to_create.
  destruct (http_get E (GuildRoles origem) token) as [e|resp]; [by intros ?%elem_of_nil|].
  destruct (status_code resp =? 200); [|by intros ?%elem_of_nil].
  destruct (json resp) as [e|roles_data]; [by intros ?%elem_of_nil|].
  destruct (sort_by position (roles_to_copy roles_data)) as [e|sorted] eqn:Hs;
    [by intros ?%elem_of_nil|].
  intros Hr. apply sort_by_perm in Hs. rewrite Hs in Hr.
  unfold roles_to_copy in Hr. apply list_elem_of_filter in Hr as [Hc _].
  by apply Is_true_true.
Qed.

(** C8: the records for which [create_role] is called come in
    non-decreasing order of [position]. *)
Theorem role_creation_order (token origem : string) :
  StronglySorted (key_le position)
    (created_role_sources (trace (clone_roles_user E token origem))).
Proof.
  destruct (clone_roles_user_sources token origem) as [rest Hrest].
  eapply StronglySorted_app_1_l. rewrite <- Hrest.
  unfold roles_to_create.
  destruct (http_get E (GuildRoles origem) token) as [e|resp]; [constructor|].
  destruct (status_code resp =? 200); [|constructor].
  destruct (json resp) as [e|roles_data]; [constructor|].
  destruct (sort_by position (roles_to_copy roles_data)) as [e|sorted] eqn:Hs;
    [constructor|].
  by eapply sort_by_sorted.
Qed.


Lemma clone_roles_user_keys (token origem : string) (rm : gmap Z handle) (k : Z) :
  result (clone_roles_user E token origem) = inr rm ->
  is_Some (rm !! k) ->
  exists r, r ∈ roles_to_create E token origem /\ old_id r = inr k.
Proof.
  unfold result, roles_to_create, clone_roles_user, api_get, lift, send, emit, mbind, M_bind;
    simpl.
  destruct (http_get E (GuildRoles origem) token) as [e|resp]; simpl; [done|].
  destruct (status_code resp =? 200); simpl;
    [|intros [= <-] [? Hk]; by rewrite lookup_empty in Hk].
  destruct (json resp) as [e|roles_data]; simpl; [done|].
  destruct (sort_by position (roles_to_copy roles_data)) as [e|sorted]; simpl; [done|].
  destruct (res (role_loop E sorted ∅ 0%nat)) as [e|rm'] eqn:Hres; simpl; [done|].
  intros [= <-] Hk.
  destruct (role_loop_keys _ _ _ _ _ Hres Hk) as [[? Hk']|Hr]; [|done].
  by rewrite lookup_empty in Hk'.
Qed.

Lemma roles_to_create_fetched (token origem : string) (resp : response)
    (roles_data : list pydict) (r : pydict) :
  http_get E (GuildRoles origem) token = inr resp ->
  json resp = inr roles_data ->
  r ∈ roles_to_create E token origem -> r ∈ roles_data.
Proof.
  unfold roles_to_create. intros -> ->.
  destruct (status_code resp =? 200); [|by intros ?%elem_of_nil].
  destruct (sort_by position (roles_to_copy roles_data)) as [e|sorted] eqn:Hs;
    [by intros ?%elem_of_nil|].
  intros Hr. apply sort_by_perm in Hs. rewrite Hs in Hr.
  unfold roles_to_copy in Hr. by apply list_elem_of_filter in Hr as [_ ?].
Qed.

(** Records whose ids are pairwise different have unique ids. *)
Lemma unique_ids_NoDup (records : list pydict) :
  NoDup (old_id <$> records) -> unique_ids records.
Proof.
  induction records as [|a l IH]; intros Hnd r1 r2 k H1 H2 Hk1 Hk2.
  - by apply elem_of_nil in H1.
  - rewrite fmap_cons in Hnd. apply NoDup_cons in Hnd as [Ha Hl].
    apply elem_of_cons in H1 as [->|H1]; apply elem_of_cons in H2 as [->|H2].
    + done.
    + exfalso. apply Ha. rewrite Hk1, <- Hk2. by apply list_elem_of_fmap_2.
    + exfalso. apply Ha. rewrite Hk2, <- Hk1. by apply list_elem_of_fmap_2.
    + by apply (IH Hl r1 r2 k).
Qed.

(** C4: a fetched role record that is managed or named [@everyone] is
    never the subject of a [create_role] call, and its id is not a key of
    the mapping the role cloner returns (ids being unique among the
    fetched records, as in the data model). *)
Theorem excluded_roles_not_cloned (token origem : string) (resp : response)
    (roles_data : list pydict) (role : pydict) :
  http_get E (GuildRoles origem) token = inr resp ->
  json resp = inr roles_data ->
  unique_ids roles_data ->
  role ∈ roles_data ->
  managed role = true \/ is_everyone role = true ->
  (role ∉ created_role_sources (trace (clone_roles_user E token origem))) /\
  forall rm k,
    result (clone_roles_user E token origem) = inr rm ->
    old_id role = inr k -> rm !! k = None.
Proof.
  intros Hget Hjson Huniq Hin Hexcl.
  assert (Hnot : copied role = false).
  { unfold copied. destruct Hexcl as [-> | ->]; [done | by rewrite andb_false_r]. }
  split.
  - intros Hsrc.
    destruct (clone_roles_user_sources token origem) as [rest Hrest].
    assert (Hc : role ∈ roles_to_create E token origem).
    { rewrite Hrest. apply elem_of_app. by left. }
    apply roles_to_create_copied in Hc. congruence.
  - intros rm k Hres Hk.
    destruct (rm !! k) as [h|] eqn:Hlook; [|done]. exfalso.
    destruct (clone_roles_user_keys token origem rm k Hres) as (r & Hr & Hrk);
      [by rewrite Hlook|].
    pose proof (roles_to_create_copied _ _ _ Hr) as Hc.
    pose proof (roles_to_create_fetched _ _ _ _ _ Hget Hjson Hr) as Hr'.
    assert (r = role) by (eapply Huniq; eauto). subst r. congruence.
Qed.


(** *** The overwrite mapper *)

(** An entry that is not scoped to a role, or whose role has no new
    role, leaves the output as it is and raises nothing. *)
Lemma map_overwrite_skip (rm : gmap Z handle) (mapped : overwrites) (ow : pyval) :
  member_scoped ow \/ (role_scoped ow /\ exists k, subject ow k /\ rm !! k = None) ->
  map_overwrite rm mapped ow = inr mapped.
Proof.
  unfold map_overwrite.
  intros [(ty & -> & Hty) | ((ty & -> & Hty) & k & (s & -> & Hd & Hk) & Hrm)]; simpl.
  - by rewrite Hty.
  - rewrite Hty, Hd; simpl. rewrite Hk; simpl. by rewrite Hrm.
Qed.

(** An entry changes the output only by adding the new role of its
    subject. *)
Lemma map_overwrite_adds (rm : gmap Z handle) (mapped mapped' : overwrites) (ow : pyval) :
  map_overwrite rm mapped ow = inr mapped' ->
  mapped' = mapped \/
  exists k h v, role_scoped ow /\ subject ow k /\ rm !! k = Some h /\
                mapped' = <[h := v]> mapped.
Proof.
  unfold map_overwrite.
  destruct (subscript ow "type") as [e|ty] eqn:Hty; simpl; [done|].
  destruct (eq_int ty 0) eqn:Hrole; [|intros [= <-]; by left].
  destruct (subscript ow "id") as [e|id] eqn:Hid; simpl; [done|].
  destruct id as [| | |s| |]; simpl; try done.
  destruct (isdigit s) eqn:Hd; simpl; [|intros [= <-]; by left].
  destruct (int_of_str s) as [k|] eqn:Hk; simpl; [|done].
  destruct (rm !! k) as [h|] eqn:Hrm; [|intros [= <-]; by left].
  destruct (method_get ow "allow" (VInt 0)) as [e|allow]; simpl; [done|].
  destruct (int allow) as [e|a]; simpl; [done|].
  destruct (method_get ow "deny" (VInt 0)) as [e|deny]; simpl; [done|].
  destruct (int deny) as [e|b]; simpl; [done|].
  intros [= <-]. right. exists k, h, (a, b).
  repeat split; [by exists ty | by exists s | done].
Qed.

Lemma map_overwrites_loop_keys (rm : gmap Z handle) (l : list pyval)
    (mapped mapped' : overwrites) (h : handle) :
  map_overwrites_loop rm l mapped = inr mapped' ->
  is_Some (mapped' !! h) ->
  is_Some (mapped !! h) \/
  exists ow k, ow ∈ l /\ role_scoped ow /\ subject ow k /\ rm !! k = Some h.
Proof.
  revert mapped. induction l as [|ow l IH]; intros mapped; simpl.
  - intros [= <-]. by left.
  - destruct (map_overwrite rm mapped ow) as [e|m1] eqn:Hstep; simpl; [done|].
    intros Hloop Hh.
    destruct (IH m1 Hloop Hh) as [Hin | (ow' & k & Hin & ?)].
    + apply map_overwrite_adds in Hstep
        as [-> | (k & h' & v & Hrole & Hsubj & Hrm & ->)]; [by left|].
      destruct (decide (h' = h)) as [->|Hne].
      * right. exists ow, k. split; [apply list_elem_of_here | done].
      * left. by rewrite lookup_insert_ne in Hin.
    + right. exists ow', k. split; [by apply list_elem_of_further | done].
Qed.

Lemma map_overwrites_loop_skip (rm : gmap Z handle) (before after : list pyval)
    (ow : pyval) (mapped : overwrites) :
  member_scoped ow \/ (role_scoped ow /\ exists k, subject ow k /\ rm !! k = None) ->
  map_overwrites_loop rm (before ++ ow :: after) mapped =
  map_overwrites_loop rm (before ++ after) mapped.
Proof.
  intros Hskip. revert mapped. induction before as [|x before IH]; intros mapped; simpl.
  - by rewrite (map_overwrite_skip rm mapped ow Hskip).
  - destruct (map_overwrite rm mapped x); simpl; [done | apply IH].
Qed.

(** C6: every entry of the output belongs to a role-scoped entry whose
    subject has a new role in the role mapping; and an entry that is
    member-scoped, or role-scoped with a subject that the role mapping
    lacks, is left out without an error: the mapper returns (or raises)
    what it does on the list without that entry. *)
Theorem map_overwrites_role_scoped_present (rm : gmap Z handle) (entries : list pyval) :
  (forall mapped h,
     map_overwrites rm (VList entries) = inr mapped ->
     is_Some (mapped !! h) ->
     exists ow k, ow ∈ entries /\ role_scoped ow /\ subject ow k /\ rm !! k = Some h) /\
  (forall before ow after,
     entries = before ++ ow :: after ->
     member_scoped ow \/ (role_scoped ow /\ exists k, subject ow k /\ rm !! k = None) ->
     map_overwrite rm ∅ ow = inr ∅ /\
     map_overwrites rm (VList entries) = map_overwrites rm (VList (before ++ after))).
Proof.
  split.
  - intros mapped h Hmap Hh. unfold map_overwrites in Hmap; simpl in Hmap.
    destruct (map_overwrites_loop_keys _ _ _ _ _ Hmap Hh) as [[? Hin]|?]; [|done].
    by rewrite lookup_empty in Hin.
  - intros before ow after -> Hskip. split; [by apply map_overwrite_skip|].
    unfold map_overwrites; simpl. by apply map_overwrites_loop_skip.
Qed.

(** *** Channels whose parent cannot be resolved *)


Local Ltac issued :=
  right; split; [reflexivity|]; eexists; split; [|reflexivity]; reflexivity.

Lemma create_channel_cases (channel : pydict) (kw : channel_kwargs) :
  (creatable channel = false /\ create_channel E channel kw = mret tt) \/
  (creatable channel = true /\
   exists c, call_kwargs c = Some kw /\
             create_channel E channel kw = (call E channel c;; mret tt)).
Proof.
  unfold create_channel, creatable.
  destruct (eq_int (get channel "type" VNone) 0); cbn; [issued|].
  destruct (eq_int (get channel "type" VNone) 2); cbn; [issued|].
  destruct (eq_int (get channel "type" VNone) 5); cbn; [issued|].
  destruct (eq_int (get channel "type" VNone) 13); cbn; [issued|].
  left. done.
Qed.


End ProgramFacts.


(** ** The theorems at concrete inputs *)

Section Instances.
Import Scenarios.
Local Open Scope string_scope.
#[local] Existing Instance ascii_str.

Lemma precondition_failure_witness :
  let t := trace (clone_server_user_slash readable "token" "1" "7") in
  (exists m, t = [Defer; Send m] /\ (m = DestNotFound "7" \/ m = NeedAdmin)) /\
  Forall (fun ev => is_read ev = false /\ is_write ev = false) t /\
  result (clone_server_user_slash readable "token" "1" "7") = inr tt.
Proof.
  apply (precondition_failure_fails_fast readable "token" "1" "7" 7).
  - reflexivity.
  - left. reflexivity.
Defined.

(** C1 as stated fails: the read of the roles is answered with 403, and
    after the report of that failure the channels are fetched and
    created. *)
Lemma roles_fetch_failure_does_not_abort :
  let t := trace (clone_server_user_slash roles_refused "token" "1" "5") in
  http_get roles_refused (GuildRoles "1") "token" =
    inr {| status_code := 403; json := inl JSONDecodeError |} /\
  aborted_on_roles_failure t = false /\
  exists post,
    after_roles_failure t = Some post /\
    HttpGet (GuildChannels "1") "token" ∈ post /\
    existsb is_write post = true.
Proof.
  split; [reflexivity|]. split; [vm_compute; reflexivity|].
  eexists. split; [vm_compute; reflexivity|].
  split; [apply list_elem_of_here | vm_compute; reflexivity].
Qed.

Lemma roles_fetch_failure_witness :
  let g := {| guild_name := "destino"; me_administrator := true |} in
  let t := trace (clone_server_user_slash roles_refused "token" "1" "5") in
  trace (clone_roles_user roles_refused "token" "1") =
    [HttpGet (GuildRoles "1") "token"; Send (RolesFetchFailed 403)] /\
  result (clone_roles_user roles_refused "token" "1") = inr ∅ /\
  t = ([Defer; Send (Starting "1" "destino"); HttpGet (GuildRoles "1") "token"] ++
       Send (RolesFetchFailed 403) ::
       trace (try_ (clone_channels_user roles_refused "token" "1" ∅;;
                    send (Done "1" "destino"))
                   report))%list.
Proof.
  intros g t.
  destruct (roles_fetch_failure roles_refused "token" "1" "5" 5 g) as (_ & _ & Hstatus);
    [reflexivity | reflexivity | reflexivity |].
  apply (Hstatus {| status_code := 403; json := inl JSONDecodeError |});
    [reflexivity | discriminate].
Defined.

Lemma excluded_roles_witness :
  (bot_role ∉ created_role_sources (trace (clone_roles_user readable "token" "1"))) /\
  forall rm k,
    result (clone_roles_user readable "token" "1") = inr rm ->
    old_id bot_role = inr k -> rm !! k = None.
Proof.
  apply (excluded_roles_not_cloned readable "token" "1"
           {| status_code := 200; json := inr [mod_role; bot_role; everyone_role] |}
           [mod_role; bot_role; everyone_role] bot_role).
  - reflexivity.
  - reflexivity.
  - apply unique_ids_NoDup. apply (bool_decide_unpack _). vm_compute. exact I.
  - apply list_elem_of_further, list_elem_of_here.
  - left. reflexivity.
Defined.

Lemma map_overwrites_witness :
  let rm : gmap Z handle := {[ 1 := 100 ]} in
  map_overwrite rm ∅ member_overwrite = inr ∅ /\
  map_overwrites rm (VList [role_overwrite; member_overwrite]) =
  map_overwrites rm (VList ([role_overwrite] ++ [])%list).
Proof.
  intros rm.
  apply (proj2 (map_overwrites_role_scoped_present rm [role_overwrite; member_overwrite])
               [role_overwrite] member_overwrite []).
  - reflexivity.
  - left. exists (VInt 1). split; reflexivity.
Defined.

End Instances.

End ClonerFacts.

(* ===================================================================== *)
(** * Facts about bot_limpeza.py *)
(* ===================================================================== *)

Module LimpezaFacts.
Import Py Limpeza.

(** ** The module top level *)

(** C2: whatever the token, running the module stops at line 20 with a
    [NameError] for [bot]: the name is evaluated there and bound only at
    line 94.  Nothing has been done by then: no command is added to the
    tree and the bot is not run. *)
Theorem module_raises_name_error (token : option string) :
  fst (run_module token) = Some (NameError "bot", 20%nat) /\
  effects (snd (run_module token)) = [] /\
  bound (snd (run_module token)) "bot" = false.
Proof. destruct token; vm_compute; done. Qed.

(** Had line 20 not been there, the rest of the module would have added
    the commands and run the bot. *)
Lemma module_without_line_20 :
  let body := List.filter (fun s => negb (line s =? 20)%nat) (module_body (Some "t")) in
  fst (run body fresh) = None /\
  effects (snd (run body fresh)) =
    [CommandAdded "criar_cargos"; CommandAdded "preset_cargos";
     CommandAdded "preset_cargos listar"; CommandAdded "preset_cargos salvar";
     CommandAdded "preset_cargos usar"; CommandAdded "sync"; CommandAdded "limpar";
     CommandAdded "apagar_canais"; CommandAdded "apagar_cargos"; BotRun].
Proof. vm_compute. done. Qed.

(** ** load_presets *)

Section PresetFacts.
Variable json_loads : string -> exn + pyval.

(** [load_presets] never raises.  It returns the empty mapping when the
    file is missing, cannot be read, is empty or does not decode, and what
    [json.loads] decodes otherwise, whatever that is. *)
Lemma load_presets_total (f : preset_file) :
  (exists v, load_presets json_loads f = inr v) /\
  (file_exists f = false -> load_presets json_loads f = inr (VDict ∅)) /\
  (forall e, file_read f = inl e -> load_presets json_loads f = inr (VDict ∅)) /\
  (file_read f = inr EmptyString -> load_presets json_loads f = inr (VDict ∅)) /\
  (forall s e, file_read f = inr s -> json_loads s = inl e ->
     load_presets json_loads f = inr (VDict ∅)) /\
  (forall s v, file_exists f = true -> file_read f = inr s -> s <> EmptyString ->
     json_loads s = inr v -> load_presets json_loads f = inr v).
Proof.
  unfold load_presets.
  repeat split.
  - destruct (file_exists f); simpl; [|eauto].
    destruct (file_read f) as [e|s]; simpl; [destruct e; eauto|].
    destruct (negb (negb (String.eqb s ""))); [eauto|].
    destruct (json_loads s) as [e|v]; [destruct e|]; eauto.
  - by intros ->.
  - intros e ->. destruct (file_exists f); simpl; [by destruct e | done].
  - intros ->. by destruct (file_exists f).
  - intros s e -> He. destruct (file_exists f); simpl; [|done].
    destruct (negb (negb (String.eqb s ""))); [done|]. rewrite He. by destruct e.
  - intros s v -> -> Hs Hv; simpl.
    apply String.eqb_neq in Hs. by rewrite Hs, Hv.
Qed.

(** C9: on a preset file that holds a JSON value other than an object,
    [load_presets] returns no mapping.  For the file that holds the text
    [[]], which [json.loads] decodes to the empty list, it returns that
    list: neither the stored mapping nor an empty one, against its own
    return annotation. *)
Theorem load_presets_returns_list (f : preset_file) :
  file_exists f = true ->
  file_read f = inr "[]" ->
  json_loads "[]" = inr (VList []) ->
  load_presets json_loads f = inr (VList []) /\
  forall d, load_presets json_loads f <> inr (VDict d).
Proof.
  intros Hexists Hread Hloads.
  assert (Hlist : load_presets json_loads f = inr (VList [])).
  { unfold load_presets. rewrite Hexists, Hread. cbn. by rewrite Hloads. }
  split; [exact Hlist|]. intros d. by rewrite Hlist.
Qed.
End PresetFacts.

(** ** /criar_cargos *)

Lemma nome_undefined : load_name criar_cargos_locals "nome" = inl (NameError "nome").
Proof. vm_compute. reflexivity. Qed.

Lemma index_raises (l : list role) (x : role) (e : exn) :
  index l x = inl e -> e = ValueError.
Proof.
  induction l as [|y l IH]; simpl; [congruence|].
  destruct (role_eqb y x); [done|].
  destruct (index l x); [|done]. intros [= <-]. by apply IH.
Qed.

(** The reordering never reaches [edit_role_positions]: it raises, the
    [NameError] of [nome] unless [index] raised before. *)
Lemma reorder_raises (g : genv) (created : list role) :
  exists e created',
    reorder g created = (inl e, [], created') /\
    is_Forbidden e = false /\
    length created' = length created /\
    (forall i, index (guild_roles g) (top_role g) = inr i -> e = NameError "nome").
Proof.
  unfold reorder. destruct (index (guild_roles g) (top_role g)) as [e|i] eqn:Hi.
  - apply index_raises in Hi as ->. exists ValueError, created.
    split; [done|]. split; [done|]. split; [done | discriminate].
  - rewrite nome_undefined; simpl. exists (NameError "nome"), (reverse created).
    split; [done|]. split; [done|]. split; [apply length_reverse | done].
Qed.

Lemma create_roles_no_edit (g : genv) (names : list string) (n : nat) :
  Forall (fun ev => is_edit ev = false) (fst (fst (create_roles g names n))).
Proof.
  revert n. induction names as [|name rest IH]; intros n; simpl; [constructor|].
  specialize (IH (S n)).
  destruct (create_role_outcome g n name) as [e|r].
  - destruct (is_Forbidden e); [by repeat constructor|].
    destruct (create_roles g rest (S n)) as [[t c] f]; simpl in *. by constructor.
  - destruct (create_roles g rest (S n)) as [[t c] f]; simpl in *. by constructor.
Qed.

(** C10: when the command has created a role, the reordering fails.  The
    trace has no call of [edit_role_positions]; the closing message reports
    the reordering as failed, and the failure it lists last is the
    exception of the reordering, which is the [NameError] of [nome] (the
    bot's top role being one of [guild.roles]). *)
Theorem criar_cargos_reorder_fails (g : genv) (lista_cargos : string) :
  in_guild g = true ->
  created_roles_of g lista_cargos <> [] ->
  let t := criar_cargos_slash g lista_cargos in
  Forall (fun ev => is_edit ev = false) t /\
  exists names failed e,
    last t = Some (Send (RolesCreated names failed true)) /\
    last failed = Some (ReorderError e) /\
    (forall i, index (guild_roles g) (top_role g) = inr i -> e = NameError "nome").
Proof.
  unfold created_roles_of, criar_cargos_slash. intros -> Hcreated; simpl.
  destruct (role_names lista_cargos) as [|name names] eqn:Hnames; [done|].
  pose proof (create_roles_no_edit g (name :: names) 0) as Hno.
  destruct (create_roles g (name :: names) 0) as [[t created] failed]; simpl in *.
  destruct created as [|r created]; [done|].
  destruct (reorder_raises g (r :: created)) as (e & created' & -> & Hf & Hlen & He).
  rewrite Hf; simpl. split.
  - constructor; [done|]. apply Forall_app. split; [done | by repeat constructor].
  - destruct created' as [|r' created']; [done|].
    eexists _, _, e.
    split; [|split; [apply last_snoc | done]].
    change (Defer :: t ++ ?x) with ((Defer :: t) ++ x). apply last_snoc.
Qed.

Section Instances.
Import Scenarios.
Local Open Scope string_scope.

Lemma load_presets_returns_list_witness :
  load_presets json_loads_const list_file = inr (VList []) /\
  forall d, load_presets json_loads_const list_file <> inr (VDict d).
Proof.
  apply (load_presets_returns_list json_loads_const list_file).
  - reflexivity.
  - reflexivity.
  - reflexivity.
Defined.

Lemma criar_cargos_witness :
  let t := criar_cargos_slash small_guild "Admin, Mod" in
  Forall (fun ev => is_edit ev = false) t /\
  exists names failed e,
    last t = Some (Send (RolesCreated names failed true)) /\
    last failed = Some (ReorderError e) /\
    (forall i, index (guild_roles small_guild) (top_role small_guild) = inr i ->
       e = NameError "nome").
Proof.
  apply (criar_cargos_reorder_fails small_guild "Admin, Mod").
  - reflexivity.
  - vm_compute. discriminate.
Defined.
End Instances.

End LimpezaFacts.

(* ===================================================================== *)
(** * More about bot_cloner.py *)
(* ===================================================================== *)

Module ClonerMore.
Import Py Cloner PyFacts ClonerFacts.

Section Orchestrator.
Context `{StrBuiltins} (E : env).

Lemma log_after {A} (t : list event) (o : out A) : log (after t o) = t ++ log o.
Proof. reflexivity. Qed.

Lemma res_after {A} (t : list event) (o : out A) : res (after t o) = res o.
Proof. reflexivity. Qed.

Lemma ends_send (x : msg) : ends_with_send (send x).
Proof. intros n a _. by exists [], x. Qed.

Lemma ends_bind {A B} (m : M A) (f : A -> M B) :
  (forall a, ends_with_send (f a)) -> ends_with_send (m ≫= f).
Proof.
  intros Hf n b. unfold mbind, M_bind.
  destruct (m n) as [[e|a] t c]; cbn; [done|].
  intros Hres. destruct (Hf a c b Hres) as (t' & x & ->).
  exists (t ++ t'), x. by rewrite app_assoc.
Qed.

Lemma report_run (e : exn) (n : nat) :
  exists m, report e n = Out (inr tt) [Send m] n.
Proof. unfold report. destruct (is_ValueError e); eauto. Qed.

(** X1: the command never raises, whatever the source and the destination
    answer, and its last event is a follow-up message. *)
Theorem clone_server_user_slash_always_answers (token origem destino : string) :
  result (clone_server_user_slash E token origem destino) = inr tt /\
  exists t m, trace (clone_server_user_slash E token origem destino) =
              Defer :: t ++ [Send m].
Proof.
  unfold result, trace, clone_server_user_slash.
  rewrite run_emit_bind, res_after, log_after.
  match goal with |- context [try_ ?b report] => 
    assert (Hends : ends_with_send b); [|revert Hends; generalize b] end.
  { apply ends_bind. intros d. destruct (get_guild E d) as [g|]; [|apply ends_send].
    destruct (negb _); [apply ends_send|].
    apply ends_bind. intros _. apply ends_bind. intros rm. apply ends_bind. intros _.
    apply ends_send. }
  intros body Hends. unfold try_. specialize (Hends 0%nat).
  destruct (body 0%nat) as [[e|[]] t c] eqn:Hbody; cbn in *.
  - destruct (report_run e c) as (m & ->); cbn. split; [done|]. by exists t, m.
  - split; [done|]. destruct (Hends tt eq_refl) as (t' & x & ->). by exists t', x.
Qed.

(** X2: a destination id that does not convert to an integer is answered
    with the invalid-id message alone: nothing is read and nothing is
    written. *)
Theorem invalid_destination_id (token origem destino : string) :
  int_of_str destino = None ->
  trace (clone_server_user_slash E token origem destino) =
    [Defer; Send (InvalidId ValueError)].
Proof.
  intros Hd. unfold trace, clone_server_user_slash.
  rewrite run_emit_bind, log_after.
  erewrite run_try_err; [|unfold int; rewrite Hd; apply run_lift_err].
  reflexivity.
Qed.
End Orchestrator.

(** ** Events of the loops *)

Section LoopEvents.
Context `{StrBuiltins} (E : env) (P : event -> Prop).
Hypothesis P_send : forall m, P (Send m).
Hypothesis P_sleep : P Sleep.
Hypothesis P_call : forall src c, P (Call src c).

Local Ltac loop_leaf :=
  first [ apply emits_ret | apply emits_lift | apply emits_emit; auto
        | apply emits_call; auto ].

Local Ltac loop_step :=
  first [ loop_leaf | apply emits_bind; [solve [loop_leaf] | intros ?] ].

Lemma role_loop_emits (roles : list pydict) (rm : gmap Z handle) :
  emits P (role_loop E roles rm).
Proof.
  revert rm. induction roles as [|role rest IH]; intros rm; cbn [role_loop].
  - apply emits_ret.
  - apply emits_bind; [|intros [m|m]; [apply IH | apply emits_ret]].
    unfold role_step, sleep, send. do 2 loop_step. apply emits_try.
    + repeat loop_step.
    + intros e. destruct (is_Forbidden e); repeat loop_step.
Qed.

Lemma category_loop_emits (rm : gmap Z handle) (channels : list pydict)
    (cm : gmap Z handle) :
  emits P (category_loop E rm channels cm).
Proof.
  revert cm. induction channels as [|channel rest IH]; intros cm; cbn [category_loop].
  - apply emits_ret.
  - apply emits_bind; [|intros [m|m]; [apply IH | apply emits_ret]].
    unfold category_step, sleep, send. destruct (is_category channel); [|apply emits_ret].
    do 2 loop_step. apply emits_try.
    + repeat loop_step.
    + intros e. loop_step. destruct (is_Forbidden e); repeat loop_step.
Qed.

Lemma create_channel_emits (channel : pydict) (kw : channel_kwargs) :
  emits P (create_channel E channel kw).
Proof. unfold create_channel. repeat case_match; repeat loop_step. Qed.

Lemma channel_loop_emits (rm cm : gmap Z handle) (channels : list pydict) :
  emits P (channel_loop E rm cm channels).
Proof.
  induction channels as [|channel rest IH]; cbn [channel_loop].
  - apply emits_ret.
  - apply emits_bind; [|intros [m|m]; [apply IH | apply emits_ret]].
    unfold channel_step, sleep, send. destruct (negb (is_category channel)); [|apply emits_ret].
    do 3 loop_step. apply emits_try.
    + apply emits_bind; [apply create_channel_emits | intros ?]. repeat loop_step.
    + intros e. destruct (is_Forbidden e); repeat loop_step.
Qed.
End LoopEvents.

(** ** The reads of the source *)

Section Reads.
Context `{StrBuiltins} (E : env).

Lemma reads_app (t1 t2 : list event) : reads (t1 ++ t2) = reads t1 ++ reads t2.
Proof. apply List.filter_app. Qed.

Lemma no_reads {A} (m : M A) (n : nat) :
  emits (fun ev => is_read ev = false) m -> reads (log (m n)) = [].
Proof.
  intros Hm. specialize (Hm n). induction Hm as [|ev t Hev _ IH]; [done|].
  unfold reads in *; cbn. by rewrite Hev.
Qed.

Lemma reads_bind {A B} (m : M A) (f : A -> M B) (n : nat) :
  reads (log ((m ≫= f) n)) =
  reads (log (m n)) ++
  match res (m n) with
  | inr a => reads (log (f a (clock (m n))))
  | inl _ => []
  end.
Proof.
  unfold mbind, M_bind. destruct (m n) as [[e|a] t c]; cbn.
  - by rewrite app_nil_r.
  - apply reads_app.
Qed.

Lemma clone_roles_user_reads (token origem : string) (n : nat) :
  reads (log (clone_roles_user E token origem n)) = [HttpGet (GuildRoles origem) token].
Proof.
  unfold clone_roles_user. rewrite reads_bind.
  change (reads (log (api_get E (GuildRoles origem) token n)))
    with [HttpGet (GuildRoles origem) token].
  destruct (res _) as [e|resp]; [done|]. rewrite no_reads; [done|].
  unfold send. destruct (negb _).
  - apply emits_bind; [by apply emits_emit | intros ?; apply emits_ret].
  - apply emits_bind; [apply emits_lift | intros ?].
    apply emits_bind; [apply emits_lift | intros ?].
    apply emits_bind; [by apply emits_emit | intros ?].
    apply emits_bind; [by apply role_loop_emits | intros ?].
    apply emits_bind; [by apply emits_emit | intros ?; apply emits_ret].
Qed.

Lemma clone_channels_user_reads (token origem : string) (rm : gmap Z handle) (n : nat) :
  reads (log (clone_channels_user E token origem rm n)) =
    [HttpGet (GuildChannels origem) token].
Proof.
  unfold clone_channels_user. rewrite reads_bind.
  change (reads (log (api_get E (GuildChannels origem) token n)))
    with [HttpGet (GuildChannels origem) token].
  destruct (res _) as [e|resp]; [done|]. rewrite no_reads; [done|].
  unfold send. destruct (negb _); [by apply emits_emit|].
  apply emits_bind; [apply emits_lift | intros ?].
  apply emits_bind; [apply emits_lift | intros ?].
  apply emits_bind; [by apply emits_emit | intros ?].
  apply emits_bind; [by apply category_loop_emits | intros ?].
  apply emits_bind; [by apply channel_loop_emits | intros ?]. by apply emits_emit.
Qed.

(** X3: an invocation reads the source at most twice, its roles and then
    its channels, both with the user token. *)
Theorem reads_roles_then_channels (token origem destino : string) :
  reads (trace (clone_server_user_slash E token origem destino))
    `prefix_of` [HttpGet (GuildRoles origem) token;
                 HttpGet (GuildChannels origem) token].
Proof.
  unfold trace, clone_server_user_slash.
  rewrite run_emit_bind, log_after. cbn [app]. change (reads (Defer :: ?t)) with (reads t).
  assert (Hreport : forall e c, reads (log (report e c)) = []).
  { intros e c. destruct (report_run e c) as (m & ->). done. }
  match goal with |- context [try_ ?b report] =>
    assert (Hbody : reads (log (b 0%nat)) `prefix_of`
                      [HttpGet (GuildRoles origem) token;
                       HttpGet (GuildChannels origem) token]);
    [|revert Hbody; generalize b] end.
  { rewrite reads_bind. cbn [lift log res clock app reads List.filter].
    destruct (int (VStr destino)) as [e|d]; [apply prefix_nil|].
    destruct (get_guild E d) as [g|]; [|apply prefix_nil].
    destruct (negb _); [apply prefix_nil|].
    rewrite (run_send_bind (Starting origem (guild_name g))), log_after. cbn [app].
    change (reads (Send ?x :: ?t)) with (reads t).
    rewrite reads_bind, clone_roles_user_reads.
    destruct (res _) as [e|rm]; [by exists [HttpGet (GuildChannels origem) token]|].
    rewrite reads_bind, clone_channels_user_reads.
    destruct (res _) as [e|u]; [by exists []|].
    cbn. by exists []. }
  intros body Hbody. unfold try_.
  destruct (body 0%nat) as [[e|u] t c]; cbn in *; [|done].
  by rewrite reads_app, Hreport, app_nil_r.
Qed.
End Reads.

(** ** The role loop, step by step *)

Section RoleLoop.
Context `{StrBuiltins} (E : env).

(** A step raises before any event, or issues its call and handles the
    answer. *)
Lemma role_step_run (role : pydict) (rm : gmap Z handle) (n : nat) :
  (exists e, role_step E role rm n = Out (inl e) [] n /\
             (old_id role = inl e \/ role_kwargs_of E role = inl e)) \/
  (exists k kw, old_id role = inr k /\ role_kwargs_of E role = inr kw /\
     role_step E role rm n =
     match dest E n (create_role kw) with
     | inr h => Out (inr (Next (<[k := h]> rm)))
                    [Call role (create_role kw); Sleep] (S n)
     | inl e =>
         if is_Forbidden e
         then Out (inr (Break rm))
                  [Call role (create_role kw); Send (RoleForbidden (rk_name kw))] (S n)
         else Out (inr (Next rm))
                  [Call role (create_role kw); Send (RoleError (rk_name kw) e)] (S n)
     end).
Proof.
  unfold role_step.
  destruct (old_id role) as [e|k] eqn:Hk.
  { left. exists e. rewrite run_lift_err. eauto. }
  rewrite run_lift_ok.
  destruct (role_kwargs_of E role) as [e|kw] eqn:Hkw.
  { left. exists e. rewrite run_lift_err. eauto. }
  rewrite run_lift_ok. right. exists k, kw. split; [done|]. split; [done|].
  unfold try_, mbind, M_bind, call, sleep, send, emit; cbn.
  destruct (dest E n (create_role kw)) as [e|h]; cbn; [|done].
  by destruct (is_Forbidden e).
Qed.

Lemma role_loop_cons (role : pydict) (rest : list pydict) (rm : gmap Z handle) (n : nat) :
  role_loop E (role :: rest) rm n =
  match res (role_step E role rm n) with
  | inl e => Out (inl e) (log (role_step E role rm n)) (clock (role_step E role rm n))
  | inr (Next m) =>
      after (log (role_step E role rm n)) (role_loop E rest m (clock (role_step E role rm n)))
  | inr (Break m) =>
      Out (inr m) (log (role_step E role rm n) ++ []) (clock (role_step E role rm n))
  end.
Proof.
  cbn [role_loop]. unfold mbind, M_bind.
  destruct (role_step E role rm n) as [[e|[m|m]] t c]; reflexivity.
Qed.

Lemma forbidden_ends_role_loop (roles : list pydict) (rm : gmap Z handle) (n : nat) :
  call_after_forbidden E n (log (role_loop E roles rm n)) = false.
Proof.
  revert rm n. induction roles as [|role rest IH]; intros rm n; [done|].
  rewrite role_loop_cons.
  destruct (role_step_run role rm n) as [(e & -> & _) | (k & kw & _ & _ & ->)]; [done|].
  destruct (dest E n (create_role kw)) as [e|h] eqn:Hd; cbn.
  - destruct (is_Forbidden e) eqn:Hf; cbn; rewrite Hd, Hf; [done | apply IH].
  - rewrite Hd. apply IH.
Qed.

Lemma call_after_forbidden_app (n : nat) (t t' : list event) :
  call_after_forbidden E n t = false ->
  existsb is_write t' = false ->
  call_after_forbidden E n (t ++ t') = false.
Proof.
  intros Ht Ht'. revert n Ht. induction t as [|ev t IH]; intros n; cbn.
  - intros _. revert n. induction t' as [|ev t' IH']; intros n; [done|].
    cbn in Ht'. apply orb_false_elim in Ht' as [Hev Ht'].
    destruct ev; try discriminate; cbn; by apply IH'.
  - destruct ev; try apply IH.
    destruct (dest E n c) as [e|h]; [|apply IH].
    destruct (is_Forbidden e); [|apply IH].
    intros Hno. rewrite existsb_app, Hno. exact Ht'.
Qed.

Lemma run_api_get_bind {B} (ep : endpoint) (token : string) (f : response -> M B)
    (n : nat) :
  (api_get E ep token ≫= f) n =
  match http_get E ep token with
  | inl e => Out (inl e) [HttpGet ep token] n
  | inr r => after [HttpGet ep token] (f r n)
  end.
Proof.
  unfold mbind, M_bind, api_get; cbn. by destruct (http_get E ep token).
Qed.

(** A loop followed by its closing message. *)
Lemma run_then_send {A} (m : M A) (x : msg) (n : nat) :
  (a ← m; send x;; mret a) n =
  match res (m n) with
  | inl e => Out (inl e) (log (m n)) (clock (m n))
  | inr a => Out (inr a) (log (m n) ++ [Send x]) (clock (m n))
  end.
Proof. unfold mbind, M_bind. by destruct (m n) as [[e|a] t c]. Qed.

(** The role cloner, case by case. *)
Lemma clone_roles_user_run (token origem : string) (n : nat) :
  clone_roles_user E token origem n =
  match http_get E (GuildRoles origem) token with
  | inl e => Out (inl e) [HttpGet (GuildRoles origem) token] n
  | inr resp =>
      if negb (status_code resp =? 200) then
        Out (inr ∅) [HttpGet (GuildRoles origem) token;
                     Send (RolesFetchFailed (status_code resp))] n
      else
        match json resp with
        | inl e => Out (inl e) [HttpGet (GuildRoles origem) token] n
        | inr roles_data =>
            match sort_by position (roles_to_copy roles_data) with
            | inl e => Out (inl e) [HttpGet (GuildRoles origem) token] n
            | inr sorted =>
                after [HttpGet (GuildRoles origem) token;
                       Send (CopyingRoles (length sorted))]
                      ((rm ← role_loop E sorted ∅; send RolesCopied;; mret rm) n)
            end
        end
  end.
Proof.
  unfold clone_roles_user. rewrite run_api_get_bind.
  destruct (http_get E (GuildRoles origem) token) as [e|resp]; [done|].
  destruct (negb _); [done|].
  destruct (json resp) as [e|roles_data]; [by rewrite run_lift_err|].
  rewrite run_lift_ok.
  destruct (sort_by position (roles_to_copy roles_data)) as [e|sorted];
    [by rewrite run_lift_err|].
  rewrite run_lift_ok, run_send_bind, after_after. reflexivity.
Qed.

(** X4: in the role cloner no call follows a call that the destination
    answered with [Forbidden]: a permission failure ends the creation of
    roles. *)
Theorem forbidden_ends_role_creation (token origem : string) :
  call_after_forbidden E 0 (trace (clone_roles_user E token origem)) = false.
Proof.
  unfold trace. rewrite clone_roles_user_run.
  destruct (http_get E (GuildRoles origem) token) as [e|resp]; [done|].
  destruct (negb _); [done|].
  destruct (json resp) as [e|roles_data]; [done|].
  destruct (sort_by position (roles_to_copy roles_data)) as [e|sorted]; [done|].
  rewrite log_after, run_then_send. cbn [app call_after_forbidden].
  pose proof (forbidden_ends_role_loop sorted ∅ 0%nat) as Hloop.
  destruct (role_loop E sorted ∅ 0%nat) as [[e|m] t c]; cbn [res log clock] in *.
  - exact Hloop.
  - by apply call_after_forbidden_app.
Qed.

Lemma role_loop_complete (roles : list pydict) (rm : gmap Z handle) (n : nat) :
  (forall i c, exists h, dest E i c = inr h) ->
  Forall (role_well_formed E) roles ->
  exists rm',
    res (role_loop E roles rm n) = inr rm' /\
    created_role_sources (log (role_loop E roles rm n)) = roles /\
    (forall k, is_Some (rm !! k) -> is_Some (rm' !! k)) /\
    (forall r k, r ∈ roles -> old_id r = inr k -> is_Some (rm' !! k)).
Proof.
  intros Hdest Hwf. revert rm n.
  induction Hwf as [|role rest [[k0 Hk0] [kw0 Hkw0]] _ IH]; intros rm n.
  - exists rm. split; [done|]. split; [done|]. split; [done|].
    intros r k Hr. by apply elem_of_nil in Hr.
  - rewrite role_loop_cons.
    destruct (role_step_run role rm n)
      as [(e & _ & [He|He]) | (k & kw & Hk & Hkw & ->)]; [congruence..|].
    destruct (Hdest n (create_role kw)) as [h ->]. cbn [res log clock].
    destruct (IH (<[k := h]> rm) (S n)) as (rm' & Hres & Hsrc & Hold & Hnew).
    exists rm'. rewrite res_after, log_after. split; [done|].
    split; [rewrite sources_app, Hsrc; reflexivity|]. split.
    + intros k' Hk'. apply Hold.
      destruct (decide (k = k')) as [->|Hne];
        [by rewrite lookup_insert_eq | by rewrite lookup_insert_ne].
    + intros r k' Hr Hrk. apply elem_of_cons in Hr as [->|Hr]; [|by eapply Hnew].
      apply Hold. assert (k' = k) as -> by congruence. by rewrite lookup_insert_eq.
Qed.

(** X5: when the fetch and the sort succeed, every copied record is well
    formed and the destination accepts every call, [create_role] is called
    for every copied record, in sorted order, and the mapping returned has
    the id of each of them as a key. *)
Theorem all_copied_roles_created (token origem : string) (resp : response)
    (roles_data sorted : list pydict) :
  http_get E (GuildRoles origem) token = inr resp ->
  status_code resp = 200 ->
  json resp = inr roles_data ->
  sort_by position (roles_to_copy roles_data) = inr sorted ->
  (forall r, r ∈ roles_data -> copied r = true -> role_well_formed E r) ->
  (forall i c, exists h, dest E i c = inr h) ->
  exists rm,
    result (clone_roles_user E token origem) = inr rm /\
    created_role_sources (trace (clone_roles_user E token origem)) = sorted /\
    forall r k, r ∈ roles_data -> copied r = true -> old_id r = inr k ->
                is_Some (rm !! k).
Proof.
  intros Hget Hs Hjson Hsort Hwf Hdest.
  assert (Hin : forall r, r ∈ sorted <-> r ∈ roles_data /\ copied r = true).
  { intros r. rewrite (sort_by_perm _ _ _ Hsort). unfold roles_to_copy.
    rewrite list_elem_of_filter, Is_true_true. tauto. }
  destruct (role_loop_complete sorted ∅ 0%nat Hdest) as (rm & Hres & Hsrc & _ & Hkeys).
  { apply Forall_forall. intros r Hr. apply Hin in Hr as [? ?]. by apply Hwf. }
  exists rm. unfold result, trace.
  rewrite clone_roles_user_run, Hget, Hs, Hjson, Hsort; cbn [negb Z.eqb Pos.eqb].
  rewrite res_after, log_after, run_then_send, Hres. cbn [res log].
  split; [done|]. split.
  - cbn. rewrite sources_app, Hsrc. cbn. by rewrite app_nil_r.
  - intros r k Hr Hc Hk. apply (Hkeys r k); [|done]. apply Hin. done.
Qed.
End RoleLoop.

(** ** More about the overwrite mapper *)

Section Overwrites.
Context `{StrBuiltins}.

(** X6: against the empty role mapping the mapper returns no overwrite at
    all, whatever the entries: channels cloned after a failed role phase
    carry no overwrite. *)
Theorem map_overwrites_empty_mapping (entries : pyval) (mapped : overwrites) :
  map_overwrites ∅ entries = inr mapped -> mapped = ∅.
Proof.
  unfold map_overwrites. destruct (iter entries) as [e|l]; [done|]. cbn.
  intros Hmap. apply map_empty. intros h.
  destruct (mapped !! h) as [v|] eqn:Hh; [|done]. exfalso.
  destruct (map_overwrites_loop_keys ∅ l ∅ mapped h Hmap) as [[? Hin]|(ow & k & _ & _ & _ & Hk)];
    [by rewrite Hh | by rewrite lookup_empty in Hin | by rewrite lookup_empty in Hk].
Qed.

(** A role-scoped entry whose subject has a new role stores its two
    bitmasks, converted by [int], under that role. *)
Lemma map_overwrite_stores (rm : gmap Z handle) (mapped : overwrites) (ow : pyval)
    (k : Z) (h : handle) (allow deny : pyval) (a d : Z) :
  role_scoped ow -> subject ow k -> rm !! k = Some h ->
  method_get ow "allow" (VInt 0) = inr allow -> int allow = inr a ->
  method_get ow "deny" (VInt 0) = inr deny -> int deny = inr d ->
  map_overwrite rm mapped ow = inr (<[h := (a, d)]> mapped).
Proof.
  intros (ty & Hty & Hrole) (s & Hid & Hdig & Hk) Hrm Hallow Ha Hdeny Hd.
  unfold map_overwrite. rewrite Hty; cbn. rewrite Hrole, Hid; cbn.
  rewrite Hdig; cbn. rewrite Hk; cbn. rewrite Hrm, Hallow; cbn.
  rewrite Ha; cbn. rewrite Hdeny; cbn. by rewrite Hd.
Qed.

Lemma map_overwrites_loop_app (rm : gmap Z handle) (l1 l2 : list pyval)
    (m0 m1 : overwrites) :
  map_overwrites_loop rm l1 m0 = inr m1 ->
  map_overwrites_loop rm (l1 ++ l2) m0 = map_overwrites_loop rm l2 m1.
Proof.
  revert m0. induction l1 as [|x l1 IH]; intros m0; cbn.
  - by intros [= ->].
  - destruct (map_overwrite rm m0 x); cbn; [done | apply IH].
Qed.

(** X7: the bitmasks are carried over unchanged, and the last entry for a
    role wins: when the last entry of the list is role-scoped and its
    subject has the new role [h], the output maps [h] to the allow and deny
    values of that entry. *)
Theorem map_overwrites_last_entry (rm : gmap Z handle) (before : list pyval)
    (ow : pyval) (k : Z) (h : handle) (allow deny : pyval) (a d : Z)
    (mapped : overwrites) :
  role_scoped ow -> subject ow k -> rm !! k = Some h ->
  method_get ow "allow" (VInt 0) = inr allow -> int allow = inr a ->
  method_get ow "deny" (VInt 0) = inr deny -> int deny = inr d ->
  map_overwrites rm (VList (before ++ [ow])) = inr mapped ->
  mapped !! h = Some (a, d).
Proof.
  intros Hrole Hsubj Hrm Hallow Ha Hdeny Hd. unfold map_overwrites; cbn.
  destruct (map_overwrites_loop rm before ∅) as [e|m1] eqn:Hbefore.
  - revert Hbefore. generalize (∅ : overwrites).
    induction before as [|x l IH]; intros m0; cbn; [done|].
    destruct (map_overwrite rm m0 x); cbn; [done | apply IH].
  - rewrite (map_overwrites_loop_app _ _ _ _ _ Hbefore); cbn.
    rewrite (map_overwrite_stores rm m1 ow k h allow deny a d); try done; cbn.
    intros [= <-]. apply lookup_insert_eq.
Qed.

(** X8: a role-scoped entry whose id is a string that [isdigit] rejects
    is left out without an error: the mapper returns what it returns on
    the list without that entry. *)
Theorem map_overwrites_skips_non_numeric_id (rm : gmap Z handle)
    (before after : list pyval) (ow : pyval) (s : string) :
  role_scoped ow ->
  subscript ow "id" = inr (VStr s) ->
  isdigit s = false ->
  map_overwrites rm (VList (before ++ ow :: after)) =
  map_overwrites rm (VList (before ++ after)).
Proof.
  intros (ty & Hty & Hrole) Hid Hdig. unfold map_overwrites; cbn.
  generalize (∅ : overwrites). induction before as [|x l IH]; intros m0; cbn.
  - unfold map_overwrite. rewrite Hty; cbn. rewrite Hrole, Hid; cbn. by rewrite Hdig.
  - destruct (map_overwrite rm m0 x); cbn; [done | apply IH].
Qed.
End Overwrites.

(** ** More about the channel cloner *)

Section Channels.
Context `{StrBuiltins} (E : env).

Local Ltac run_step :=
  unfold try_, mbind, M_bind, call, sleep, send, emit, lift; cbn.

Lemma category_step_res (rm cm : gmap Z handle) (channel : pydict) (n : nat) :
  channel_well_formed rm channel ->
  exists f, res (category_step E rm channel cm n) = inr f.
Proof.
  unfold channel_well_formed, category_step.
  intros ((name & Hname) & (ow & How) & Hid).
  destruct (is_category channel); [|by eexists].
  destruct Hid as [k Hk]. rewrite Hk, How, !run_lift_ok, Hname. run_step.
  destruct (dest E n _) as [e|h]; cbn; [destruct (is_Forbidden e)|]; by eexists.
Qed.

Lemma channel_step_res (rm cm : gmap Z handle) (channel : pydict) (n : nat) :
  channel_well_formed rm channel ->
  exists f, res (channel_step E rm cm channel n) = inr f.
Proof.
  unfold channel_well_formed, channel_step.
  intros ((name & Hname) & (ow & How) & Hparent).
  destruct (is_category channel); [by eexists|]. cbn [negb].
  destruct (Hparent cm) as [p Hp]. rewrite Hp, How, Hname, !run_lift_ok.
  destruct (create_channel_cases E channel
              {| ck_name := name; ck_overwrites := ow;
                 ck_category := p; ck_reason := reason E |})
    as [[_ ->] | (_ & c & _ & ->)].
  - by eexists.
  - run_step. destruct (dest E n c) as [e|h]; cbn; [destruct (is_Forbidden e)|]; by eexists.
Qed.

Lemma category_loop_res (rm cm : gmap Z handle) (channels : list pydict) (n : nat) :
  Forall (channel_well_formed rm) channels ->
  exists cm', res (category_loop E rm channels cm n) = inr cm'.
Proof.
  intros Hwf. revert cm n. induction Hwf as [|channel rest Hc _ IH]; intros cm n.
  - by eexists.
  - cbn [category_loop]. unfold mbind, M_bind.
    destruct (category_step_res rm cm channel n Hc) as [f Hf].
    destruct (category_step E rm channel cm n) as [r t c]; cbn in Hf; subst r; cbn.
    destruct f as [m|m]; [apply IH | by eexists].
Qed.

Lemma channel_loop_res (rm cm : gmap Z handle) (channels : list pydict) (n : nat) :
  Forall (channel_well_formed rm) channels ->
  res (channel_loop E rm cm channels n) = inr tt.
Proof.
  intros Hwf. revert n. induction Hwf as [|channel rest Hc _ IH]; intros n.
  - done.
  - cbn [channel_loop]. unfold mbind, M_bind.
    destruct (channel_step_res rm cm channel n Hc) as [f Hf].
    destruct (channel_step E rm cm channel n) as [r t c]; cbn in Hf; subst r; cbn.
    destruct f as [m|m]; [apply IH | done].
Qed.

(** The channel cloner, case by case. *)
Lemma clone_channels_user_run (token origem : string) (rm : gmap Z handle) (n : nat) :
  clone_channels_user E token origem rm n =
  match http_get E (GuildChannels origem) token with
  | inl e => Out (inl e) [HttpGet (GuildChannels origem) token] n
  | inr resp =>
      if negb (status_code resp =? 200) then
        Out (inr tt) [HttpGet (GuildChannels origem) token;
                      Send (ChannelsFetchFailed (status_code resp))] n
      else
        match json resp with
        | inl e => Out (inl e) [HttpGet (GuildChannels origem) token] n
        | inr channels_data =>
            match sort_by position channels_data with
            | inl e => Out (inl e) [HttpGet (GuildChannels origem) token] n
            | inr sorted =>
                after [HttpGet (GuildChannels origem) token;
                       Send (CopyingChannels (length sorted))]
                      ((cm ← category_loop E rm sorted ∅;
                        channel_loop E rm cm sorted;;
                        send ChannelsCopied) n)
            end
        end
  end.
Proof.
  unfold clone_channels_user. rewrite run_api_get_bind.
  destruct (http_get E (GuildChannels origem) token) as [e|resp]; [done|].
  destruct (negb _); [done|].
  destruct (json resp) as [e|channels_data]; [by rewrite run_lift_err|].
  rewrite run_lift_ok.
  destruct (sort_by position channels_data) as [e|sorted]; [by rewrite run_lift_err|].
  rewrite run_lift_ok, run_send_bind, after_after. reflexivity.
Qed.

(** X9: a failure of the destination never aborts the channel cloner.
    When the channels are fetched and sorted and every record is well
    formed, the cloner returns and its last event is the message that the
    channels were copied, whatever the destination answers to the calls. *)
Theorem destination_failures_do_not_abort (token origem : string) (rm : gmap Z handle)
    (resp : response) (channels_data sorted : list pydict) :
  http_get E (GuildChannels origem) token = inr resp ->
  status_code resp = 200 ->
  json resp = inr channels_data ->
  sort_by position channels_data = inr sorted ->
  Forall (channel_well_formed rm) channels_data ->
  result (clone_channels_user E token origem rm) = inr tt /\
  last (trace (clone_channels_user E token origem rm)) = Some (Send ChannelsCopied).
Proof.
  intros Hget Hs Hjson Hsort Hwf.
  assert (Hwf' : Forall (channel_well_formed rm) sorted).
  { by rewrite (sort_by_perm _ _ _ Hsort). }
  unfold result, trace.
  rewrite clone_channels_user_run, Hget, Hs, Hjson, Hsort; cbn [negb Z.eqb Pos.eqb].
  rewrite res_after, log_after.
  destruct (category_loop_res rm ∅ sorted 0%nat Hwf') as [cm Hcm].
  unfold mbind at 1 3, M_bind at 1 3.
  destruct (category_loop E rm sorted ∅ 0%nat) as [r t c]; cbn in Hcm; subst r;
    cbn [res log clock].
  pose proof (channel_loop_res rm cm sorted c Hwf') as Hch.
  unfold mbind, M_bind.
  destruct (channel_loop E rm cm sorted c) as [r t' c']; cbn in Hch; subst r; cbn.
  split; [done|].
  rewrite app_assoc.
  exact (last_snoc (Send ChannelsCopied)
           (Send (CopyingChannels (length sorted)) :: t ++ t')).
Qed.

(** The call of the channel pass carries the category that the parent of
    the record resolves to. *)
Lemma channel_step_call (rm cm : gmap Z handle) (channel : pydict) (name : pyval)
    (ow : overwrites) (p : option handle) (n : nat) :
  is_category channel = false ->
  resolve_parent cm channel = inr p ->
  item channel "name" = inr name ->
  channel_overwrites rm channel = inr ow ->
  creatable channel = true ->
  exists c rest,
    log (channel_step E rm cm channel n) = Call channel c :: rest /\
    call_kwargs c = Some {| ck_name := name; ck_overwrites := ow;
                            ck_category := p; ck_reason := reason E |}.
Proof.
  intros Hcat Hp Hname How Hc. unfold channel_step.
  rewrite Hcat, Hp, How, Hname; cbn [negb]. rewrite !run_lift_ok.
  destruct (create_channel_cases E channel
              {| ck_name := name; ck_overwrites := ow;
                 ck_category := p; ck_reason := reason E |})
    as [[Hno _] | (_ & c & Hkw & ->)]; [congruence|].
  run_step. destruct (dest E n c) as [e|h]; cbn; [destruct (is_Forbidden e); cbn|]; eauto.
Qed.

Lemma calls_app (t t' : list event) : calls (t ++ t') = calls t ++ calls t'.
Proof. apply omap_app. Qed.

(** The first pass on a record, in a destination that accepts every
    call: a category is created and recorded under the id of the record. *)
Lemma category_step_run (rm cm : gmap Z handle) (channel : pydict) (n : nat) :
  channel_well_formed rm channel ->
  (forall i c, exists h, dest E i c = inr h) ->
  if is_category channel then
    exists k name ow h,
      old_id channel = inr k /\
      dest E n (create_category name ow (reason E)) = inr h /\
      category_step E rm channel cm n =
      Out (inr (Next (<[k := h]> cm)))
          [Call channel (create_category name ow (reason E)); Sleep] (S n)
  else category_step E rm channel cm n = Out (inr (Next cm)) [] n.
Proof.
  unfold channel_well_formed, category_step.
  intros ((name & Hname) & (ow & How) & Hid) Hdest.
  destruct (is_category channel); [|done].
  destruct Hid as [k Hk].
  destruct (Hdest n (create_category name ow (reason E))) as [h Hh].
  exists k, name, ow, h. split; [done|]. split; [done|].
  rewrite Hk, How, !run_lift_ok, Hname. run_step. by rewrite Hh.
Qed.

(** What the first pass records: the mapping it returns has the id of
    every category record as a key, and each of its entries was there at
    the start or is the handle that the destination returned for the
    creation of a category record of that id. *)
Lemma category_loop_records (rm : gmap Z handle) (channels : list pydict)
    (cm : gmap Z handle) (n : nat) :
  Forall (channel_well_formed rm) channels ->
  (forall i c, exists h, dest E i c = inr h) ->
  exists cm',
    res (category_loop E rm channels cm n) = inr cm' /\
    (forall k, is_Some (cm !! k) -> is_Some (cm' !! k)) /\
    (forall category k, category ∈ channels -> is_category category = true ->
       old_id category = inr k -> is_Some (cm' !! k)) /\
    (forall k h, cm' !! k = Some h ->
       cm !! k = Some h \/
       exists i category name ow,
         calls (log (category_loop E rm channels cm n)) !! i
           = Some (category, create_category name ow (reason E)) /\
         category ∈ channels /\ is_category category = true /\
         old_id category = inr k /\
         dest E (n + i) (create_category name ow (reason E)) = inr h).
Proof.
  intros Hwf Hdest. revert cm n.
  induction Hwf as [|channel rest Hc _ IH]; intros cm n.
  { exists cm. split; [done|]. split; [done|]. split; [|by left].
    intros category k Hin. by apply elem_of_nil in Hin. }
  cbn [category_loop].
  pose proof (category_step_run rm cm channel n Hc Hdest) as Hstep.
  destruct (is_category channel) eqn:Hcat.
  - destruct Hstep as (k & name & ow & h & Hk & Hh & Hstep).
    erewrite run_bind_ok; [|exact Hstep]. rewrite res_after, log_after.
    destruct (IH (<[k := h]> cm) (S n)) as (cm' & Hres & Hkeep & Hkeys & Hfrom).
    exists cm'. split; [done|]. split; [|split].
    + intros k0 Hk0. apply Hkeep.
      destruct (decide (k = k0)) as [->|Hne];
        [by rewrite lookup_insert_eq | by rewrite lookup_insert_ne].
    + intros category k0 [->|Hin]%elem_of_cons Hc0 Hk0; [|by eapply Hkeys].
      apply Hkeep. assert (k0 = k) as -> by congruence. by rewrite lookup_insert_eq.
    + intros k0 h0 Hk0. destruct (Hfrom k0 h0 Hk0) as [Hins | Hcall].
      * destruct (decide (k = k0)) as [->|Hne].
        -- rewrite lookup_insert_eq in Hins. injection Hins as <-.
           right. exists 0%nat, channel, name, ow.
           split; [done|]. split; [apply list_elem_of_here|].
           split; [done|]. split; [done|]. by rewrite Nat.add_0_r.
        -- rewrite lookup_insert_ne in Hins by done. by left.
      * destruct Hcall as (i & category & name' & ow' & Hi & Hin & Hc0 & Hk0' & Hd).
        right. exists (S i), category, name', ow'.
        split; [done|]. split; [by apply list_elem_of_further|].
        split; [done|]. split; [done|].
        by replace (n + S i)%nat with (S n + i)%nat by lia.
  - erewrite run_bind_ok; [|exact Hstep]. rewrite after_nil.
    destruct (IH cm n) as (cm' & Hres & Hkeep & Hkeys & Hfrom).
    exists cm'. split; [done|]. split; [done|]. split.
    + intros category k0 [->|Hin]%elem_of_cons Hc0 Hk0; [congruence | by eapply Hkeys].
    + intros k0 h0 Hk0. destruct (Hfrom k0 h0 Hk0) as [Hins | Hcall]; [by left|].
      destruct Hcall as (i & category & name' & ow' & Hi & Hin & Hrest).
      right. exists i, category, name', ow'.
      split; [done|]. split; [by apply list_elem_of_further | done].
Qed.

(** In a destination that accepts every call the second pass goes on after
    every record. *)
Lemma channel_step_accepted (rm cm : gmap Z handle) (channel : pydict) (n : nat) :
  channel_well_formed rm channel ->
  (forall i c, exists h, dest E i c = inr h) ->
  res (channel_step E rm cm channel n) = inr (Next tt).
Proof.
  unfold channel_well_formed, channel_step.
  intros ((name & Hname) & (ow & How) & Hparent) Hdest.
  destruct (is_category channel); [done|]. cbn [negb].
  destruct (Hparent cm) as [p Hp]. rewrite Hp, How, Hname, !run_lift_ok.
  destruct (create_channel_cases E channel
              {| ck_name := name; ck_overwrites := ow;
                 ck_category := p; ck_reason := reason E |})
    as [[_ ->] | (_ & c & _ & ->)].
  - done.
  - run_step. by destruct (Hdest n c) as [h ->].
Qed.

(** The call that the second pass issues for a record carries the category
    that the parent of the record resolves to. *)
Lemma channel_loop_calls (rm cm : gmap Z handle) (channels : list pydict) (n : nat)
    (channel : pydict) (p : option handle) :
  Forall (channel_well_formed rm) channels ->
  (forall i c, exists h, dest E i c = inr h) ->
  channel ∈ channels ->
  is_category channel = false ->
  creatable channel = true ->
  resolve_parent cm channel = inr p ->
  exists c kw,
    (channel, c) ∈ calls (log (channel_loop E rm cm channels n)) /\
    call_kwargs c = Some kw /\ ck_category kw = p.
Proof.
  intros Hwf Hdest Hin Hcat Hcreatable Hp. revert n.
  induction Hwf as [|record rest Hc _ IH]; intros n; [by apply elem_of_nil in Hin|].
  cbn [channel_loop].
  pose proof (channel_step_accepted rm cm record n Hc Hdest) as Hnext.
  destruct (channel_step E rm cm record n) as [r t c0] eqn:Hstep.
  cbn [res] in Hnext. subst r.
  erewrite run_bind_ok; [|exact Hstep]. rewrite log_after, calls_app.
  apply elem_of_cons in Hin as [->|Hin].
  - destruct Hc as ((name & Hname) & (ow & How) & _).
    destruct (channel_step_call rm cm record name ow p n Hcat Hp Hname How Hcreatable)
      as (c & rest' & Hlog & Hkw).
    rewrite Hstep in Hlog. cbn [log] in Hlog. subst t.
    exists c, {| ck_name := name; ck_overwrites := ow;
                 ck_category := p; ck_reason := reason E |}.
    split; [|done]. apply elem_of_app. left. apply list_elem_of_here.
  - destruct (IH Hin c0) as (c & kw & Hcall & Hkw & Hcategory).
    exists c, kw. split; [|done]. apply elem_of_app. by right.
Qed.

(** X10: a channel whose [parent_id] converts to the id of a category of
    the source is created in the category that the first pass created for
    it.  When the channels are fetched and sorted, every record is well
    formed, no two records share an id and the destination accepts every
    call, the first pass calls [create_category] for the category record,
    and the creation call of the channel carries the handle that the
    destination returned to that call. *)
Theorem parent_category_is_passed (token origem : string) (rm : gmap Z handle)
    (resp : response) (channels_data sorted : list pydict)
    (category channel : pydict) (k : Z) :
  http_get E (GuildChannels origem) token = inr resp ->
  status_code resp = 200 ->
  json resp = inr channels_data ->
  sort_by position channels_data = inr sorted ->
  Forall (channel_well_formed rm) channels_data ->
  unique_ids channels_data ->
  (forall i c, exists h, dest E i c = inr h) ->
  category ∈ channels_data ->
  is_category category = true ->
  old_id category = inr k ->
  channel ∈ channels_data ->
  is_category channel = false ->
  creatable channel = true ->
  truthy (get channel "parent_id" VNone) = true ->
  int (get channel "parent_id" VNone) = inr k ->
  exists i name ow h c kw,
    calls (trace (clone_channels_user E token origem rm)) !! i
      = Some (category, create_category name ow (reason E)) /\
    dest E i (create_category name ow (reason E)) = inr h /\
    (channel, c) ∈ calls (trace (clone_channels_user E token origem rm)) /\
    call_kwargs c = Some kw /\
    ck_category kw = Some h.
Proof.
  intros Hget Hs Hjson Hsort Hwf Hunique Hdest Hcategory Hcat Hk Hchannel Hnot Hcreatable
    Htruthy Hparent.
  pose proof (sort_by_perm _ _ _ Hsort) as Hperm.
  assert (Hwf' : Forall (channel_well_formed rm) sorted) by (by rewrite Hperm).
  rewrite <- Hperm in Hcategory, Hchannel.
  destruct (category_loop_records rm sorted ∅ 0%nat Hwf' Hdest)
    as (cm & Hres & _ & Hkeys & Hfrom).
  destruct (Hkeys category k Hcategory Hcat Hk) as [h Hh].
  destruct (Hfrom k h Hh) as [Hempty | (i & category' & name & ow & Hi & Hin' & Hcat' & Hk' & Hd)].
  { by rewrite lookup_empty in Hempty. }
  assert (category' = category) as ->.
  { apply (Hunique category' category k); [by rewrite <- Hperm..|done|done]. }
  destruct (channel_loop_calls rm cm sorted
              (clock (category_loop E rm sorted ∅ 0%nat)) channel (Some h)
              Hwf' Hdest Hchannel Hnot Hcreatable) as (c & kw & Hcall & Hkw & Hcategory').
  { unfold resolve_parent. by rewrite Htruthy, Hparent, Hh. }
  exists i, name, ow, h, c, kw.
  unfold trace.
  rewrite clone_channels_user_run, Hget, Hs, Hjson, Hsort; cbn [negb Z.eqb Pos.eqb].
  rewrite log_after.
  destruct (category_loop E rm sorted ∅ 0%nat) as [r t n] eqn:Hloop.
  cbn [res log clock] in *. subst r.
  erewrite run_bind_ok; [|exact Hloop]. rewrite log_after.
  pose proof (channel_loop_res rm cm sorted n Hwf') as Hdone.
  destruct (channel_loop E rm cm sorted n) as [r' t' n'] eqn:Hloop'.
  cbn [res log] in *. subst r'.
  erewrite run_bind_ok; [|exact Hloop']. rewrite log_after.
  rewrite !calls_app.
  change (calls [HttpGet (GuildChannels origem) token;
                 Send (CopyingChannels (length sorted))]) with (@nil (pydict * dest_call)).
  rewrite app_nil_l.
  split; [by apply lookup_app_l_Some|]. split; [done|].
  split; [|done]. apply elem_of_app. right. apply elem_of_app. by left.
Qed.

(** X11: a record of a type that has no creation call (a forum, say) is
    passed over without a call and without a message, but the delay that
    follows a creation is still taken. *)
Theorem other_types_only_sleep (rm cm : gmap Z handle) (channel : pydict) (n : nat) :
  is_category channel = false ->
  creatable channel = false ->
  channel_well_formed rm channel ->
  channel_step E rm cm channel n = Out (inr (Next tt)) [Sleep] n.
Proof.
  intros Hcat Hno ((name & Hname) & (ow & How) & Hparent). rewrite Hcat in Hparent.
  destruct (Hparent cm) as [p Hp]. unfold channel_step.
  rewrite Hcat, Hp, How, Hname; cbn [negb]. rewrite !run_lift_ok.
  destruct (create_channel_cases E channel
              {| ck_name := name; ck_overwrites := ow;
                 ck_category := p; ck_reason := reason E |})
    as [[_ ->] | (Hyes & _)]; [reflexivity | congruence].
Qed.

(** *** Counting the calls *)

Lemma writes_app (t1 t2 : list event) : writes (t1 ++ t2) = (writes t1 + writes t2)%nat.
Proof. unfold writes. by rewrite List.filter_app, length_app. Qed.

Lemma writes_bind {A B} (m : M A) (f : A -> M B) (n : nat) :
  writes (log ((m ≫= f) n)) =
  (writes (log (m n)) +
   match res (m n) with
   | inr a => writes (log (f a (clock (m n))))
   | inl _ => 0
   end)%nat.
Proof.
  unfold mbind, M_bind. destruct (m n) as [[e|a] t c]; cbn; [lia | apply writes_app].
Qed.

Lemma category_step_writes (rm cm : gmap Z handle) (channel : pydict) (n : nat) :
  (writes (log (category_step E rm channel cm n))
   <= if is_category channel then 1 else 0)%nat.
Proof.
  unfold category_step. destruct (is_category channel); [|done].
  destruct (old_id channel) as [e|k]; [rewrite run_lift_err; unfold writes; cbn; lia|].
  rewrite run_lift_ok.
  destruct (channel_overwrites rm channel) as [e|ow]; [rewrite run_lift_err; unfold writes; cbn; lia|].
  rewrite run_lift_ok. run_step.
  destruct (item channel "name") as [e|name]; cbn; [unfold writes; cbn; lia|].
  destruct (dest E n _) as [e|h]; cbn; [destruct (is_Forbidden e); cbn|];
    unfold writes; cbn; lia.
Qed.

Lemma channel_step_writes (rm cm : gmap Z handle) (channel : pydict) (n : nat) :
  (writes (log (channel_step E rm cm channel n))
   <= if is_category channel then 0 else 1)%nat.
Proof.
  unfold channel_step. destruct (is_category channel); [done|]. cbn [negb].
  destruct (resolve_parent cm channel) as [e|p]; [rewrite run_lift_err; unfold writes; cbn; lia|].
  rewrite run_lift_ok.
  destruct (channel_overwrites rm channel) as [e|ow]; [rewrite run_lift_err; unfold writes; cbn; lia|].
  rewrite run_lift_ok.
  destruct (item channel "name") as [e|name]; [rewrite run_lift_err; unfold writes; cbn; lia|].
  rewrite run_lift_ok.
  destruct (create_channel_cases E channel
              {| ck_name := name; ck_overwrites := ow;
                 ck_category := p; ck_reason := reason E |})
    as [[_ ->] | (_ & c & _ & ->)]; [run_step; unfold writes; cbn; lia|].
  run_step. destruct (dest E n c) as [e|h]; cbn; [destruct (is_Forbidden e); cbn|];
    unfold writes; cbn; lia.
Qed.

Lemma category_loop_writes (rm cm : gmap Z handle) (channels : list pydict) (n : nat) :
  (writes (log (category_loop E rm channels cm n))
   <= length (List.filter is_category channels))%nat.
Proof.
  revert cm n. induction channels as [|channel rest IH]; intros cm n; [done|].
  cbn [category_loop List.filter]. rewrite writes_bind.
  pose proof (category_step_writes rm cm channel n) as Hstep.
  destruct (res (category_step E rm channel cm n)) as [e|[m|m]].
  - destruct (is_category channel); cbn; lia.
  - specialize (IH m (clock (category_step E rm channel cm n))).
    destruct (is_category channel); cbn [length]; lia.
  - unfold mret, M_ret, writes in *; cbn [log List.filter length] in *.
    destruct (is_category channel); cbn [length]; lia.
Qed.

Lemma channel_loop_writes (rm cm : gmap Z handle) (channels : list pydict) (n : nat) :
  (writes (log (channel_loop E rm cm channels n))
   <= length (List.filter (fun c => negb (is_category c)) channels))%nat.
Proof.
  revert n. induction channels as [|channel rest IH]; intros n; [done|].
  cbn [channel_loop List.filter]. rewrite writes_bind.
  pose proof (channel_step_writes rm cm channel n) as Hstep.
  destruct (res (channel_step E rm cm channel n)) as [e|[m|m]].
  - destruct (is_category channel); cbn; lia.
  - specialize (IH (clock (channel_step E rm cm channel n))).
    destruct (is_category channel); cbn [length negb]; lia.
  - unfold mret, M_ret, writes in *; cbn [log List.filter length] in *.
    destruct (is_category channel); cbn [length negb]; lia.
Qed.

Lemma filter_partition_length {A} (p : A -> bool) (l : list A) :
  (length (List.filter p l) + length (List.filter (fun x => negb (p x)) l))%nat
  = length l.
Proof. induction l as [|x l IH]; [done|]. cbn. destruct (p x); cbn; lia. Qed.

(** X12: the channel cloner calls the destination at most once per fetched
    channel record. *)
Theorem at_most_one_call_per_channel (token origem : string) (rm : gmap Z handle)
    (resp : response) (channels_data : list pydict) :
  http_get E (GuildChannels origem) token = inr resp ->
  json resp = inr channels_data ->
  (writes (trace (clone_channels_user E token origem rm)) <= length channels_data)%nat.
Proof.
  intros Hget Hjson. unfold trace.
  rewrite clone_channels_user_run, Hget, Hjson.
  destruct (negb _); [cbn; lia|].
  destruct (sort_by position channels_data) as [e|sorted] eqn:Hsort; [cbn; lia|].
  rewrite log_after, writes_app, writes_bind.
  change (writes [HttpGet _ _; Send _]) with 0%nat.
  rewrite <- (Permutation_length (sort_by_perm _ _ _ Hsort)).
  pose proof (category_loop_writes rm ∅ sorted 0%nat) as H1.
  pose proof (filter_partition_length is_category sorted) as Hlen.
  destruct (res (category_loop E rm sorted ∅ 0%nat)) as [e|cm]; [lia|].
  rewrite writes_bind.
  pose proof (channel_loop_writes rm cm sorted
                (clock (category_loop E rm sorted ∅ 0%nat))) as H2.
  destruct (res (channel_loop E rm cm sorted _)) as [e|u]; [lia|].
  change (writes (log (send _ _))) with 0%nat. lia.
Qed.
End Channels.

(** ** The channel phase in the command *)

Section ChannelPhase.
Context `{StrBuiltins} (E : env).

(** The command once its precondition holds. *)
Lemma clone_server_user_slash_run (token origem destino : string) (d : Z) (g : guild) :
  int_of_str destino = Some d ->
  get_guild E d = Some g ->
  me_administrator g = true ->
  clone_server_user_slash E token origem destino 0%nat =
  after [Defer]
    (try_ (send (Starting origem (guild_name g));;
           role_mapping ← clone_roles_user E token origem;
           clone_channels_user E token origem role_mapping;;
           send (Done origem (guild_name g))) report 0%nat).
Proof.
  intros Hd Hg Hadmin. unfold clone_server_user_slash. rewrite run_emit_bind. f_equal.
  unfold try_ at 1 2. unfold int. rewrite Hd, run_lift_ok, Hg, Hadmin. reflexivity.
Qed.

Lemma report_log (e : exn) (n : nat) : log (report e n) = trace (report e).
Proof. unfold trace, report. by destruct (is_ValueError e). Qed.

(** X13: when the role phase has returned and the fetch of the channels
    raises, the exception is reported and nothing follows; when the fetch
    answers with another status than 200, that is reported, no category
    and no channel is created, and the command still ends with its message
    of completion. *)
Theorem channels_fetch_failure (token origem destino : string) (d : Z) (g : guild)
    (rm : gmap Z handle) :
  int_of_str destino = Some d ->
  get_guild E d = Some g ->
  me_administrator g = true ->
  result (clone_roles_user E token origem) = inr rm ->
  let t := trace (clone_server_user_slash E token origem destino) in
  let start := [Defer; Send (Starting origem (guild_name g))] ++
               trace (clone_roles_user E token origem) in
  (forall e, http_get E (GuildChannels origem) token = inl e ->
     t = start ++ HttpGet (GuildChannels origem) token :: trace (report e)) /\
  (forall resp, http_get E (GuildChannels origem) token = inr resp ->
     status_code resp <> 200 ->
     t = start ++ [HttpGet (GuildChannels origem) token;
                   Send (ChannelsFetchFailed (status_code resp));
                   Send (Done origem (guild_name g))]).
Proof.
  intros Hd Hg Hadmin Hroles t start. unfold t, start, trace, result in *.
  rewrite (clone_server_user_slash_run token origem destino d g Hd Hg Hadmin).
  destruct (clone_roles_user E token origem 0%nat) as [r troles c] eqn:Hrun.
  cbn in Hroles. subst r. cbn [log].
  split.
  - intros e He.
    erewrite run_try_err.
    2:{ rewrite (run_send_bind (Starting origem (guild_name g))).
        erewrite run_bind_ok by exact Hrun.
        erewrite run_bind_err; [reflexivity|].
        rewrite clone_channels_user_run, He. reflexivity. }
    rewrite !log_after, report_log. cbn. by rewrite <- app_assoc.
  - intros resp Hget Hs. apply Z.eqb_neq in Hs.
    erewrite run_try_ok.
    2:{ rewrite (run_send_bind (Starting origem (guild_name g))).
        erewrite run_bind_ok by exact Hrun.
        erewrite run_bind_ok; [|rewrite clone_channels_user_run, Hget, Hs; reflexivity].
        reflexivity. }
    cbn. done.
Qed.
End ChannelPhase.

(** ** The theorems at concrete inputs *)

Section Instances.
Import Scenarios.
Local Open Scope string_scope.
#[local] Existing Instance ascii_str.

Lemma invalid_destination_id_witness :
  trace (clone_server_user_slash readable "token" "1" "abc") =
    [Defer; Send (InvalidId ValueError)].
Proof. apply (invalid_destination_id readable "token" "1" "abc"). reflexivity. Defined.

Lemma mod_role_well_formed : role_well_formed readable mod_role.
Proof. split; eexists; reflexivity. Qed.

Lemma all_copied_roles_created_witness :
  exists rm,
    result (clone_roles_user readable "token" "1") = inr rm /\
    created_role_sources (trace (clone_roles_user readable "token" "1")) = [mod_role] /\
    forall r k, r ∈ [mod_role; bot_role; everyone_role] -> copied r = true ->
                old_id r = inr k -> is_Some (rm !! k).
Proof.
  apply (all_copied_roles_created readable "token" "1"
           {| status_code := 200; json := inr [mod_role; bot_role; everyone_role] |}).
  - reflexivity.
  - reflexivity.
  - reflexivity.
  - reflexivity.
  - intros r Hr Hc.
    apply elem_of_cons in Hr as [->|Hr]; [apply mod_role_well_formed|].
    apply elem_of_cons in Hr as [->|Hr]; [discriminate Hc|].
    apply list_elem_of_singleton in Hr as ->. discriminate Hc.
  - intros i c. eexists. reflexivity.
Defined.

Lemma map_overwrites_empty_mapping_witness :
  map_overwrites ∅ (VList [role_overwrite; member_overwrite]) = inr ∅ /\
  (∅ : overwrites) = ∅.
Proof.
  split; [reflexivity|].
  apply (map_overwrites_empty_mapping (VList [role_overwrite; member_overwrite]) ∅).
  reflexivity.
Defined.

Lemma map_overwrites_last_entry_witness :
  map_overwrites {[ 1 := 100 ]} (VList ([member_overwrite] ++ [role_overwrite])%list) =
    inr {[ 100 := (1024, 0) ]} /\
  ({[ 100 := (1024, 0) ]} : overwrites) !! 100 = Some (1024, 0).
Proof.
  split; [reflexivity|].
  apply (map_overwrites_last_entry {[ 1 := 100 ]} [member_overwrite] role_overwrite
           1 100 (VStr "1024") (VStr "0") 1024 0).
  - exists (VInt 0). split; reflexivity.
  - exists "1". repeat split; reflexivity.
  - reflexivity.
  - reflexivity.
  - reflexivity.
  - reflexivity.
  - reflexivity.
  - reflexivity.
Defined.

Lemma map_overwrites_skips_non_numeric_id_witness :
  map_overwrites {[ 1 := 100 ]} (VList ([role_overwrite] ++ unnumbered_overwrite :: [])%list) =
  map_overwrites {[ 1 := 100 ]} (VList ([role_overwrite] ++ [])%list).
Proof.
  apply (map_overwrites_skips_non_numeric_id {[ 1 := 100 ]} [role_overwrite] []
           unnumbered_overwrite "abc").
  - exists (VInt 0). split; reflexivity.
  - reflexivity.
  - reflexivity.
Defined.

Lemma chat_well_formed : channel_well_formed ∅ chat.
Proof.
  split; [by eexists|]. split; [eexists; vm_compute; reflexivity|].
  change (is_category chat) with false. intros cm. unfold resolve_parent.
  change (get chat "parent_id" VNone) with (VStr "10"). by eexists.
Qed.

Lemma general_well_formed : channel_well_formed ∅ general.
Proof.
  split; [by eexists|]. split; [by eexists|].
  change (is_category general) with true. by exists 10.
Qed.

Lemma destination_failures_do_not_abort_witness :
  (forall n c, exists e, dest refusing n c = inl e) /\
  Send (CategoryForbidden (VStr "General")) ∈
    trace (clone_channels_user refusing "token" "1" ∅) /\
  Send (ChannelError (VStr "chat") OtherError) ∈
    trace (clone_channels_user refusing "token" "1" ∅) /\
  result (clone_channels_user refusing "token" "1" ∅) = inr tt /\
  last (trace (clone_channels_user refusing "token" "1" ∅)) = Some (Send ChannelsCopied).
Proof.
  split; [intros [|n] c; by eexists|].
  split; [vm_compute; do 3 apply list_elem_of_further; apply list_elem_of_here|].
  split; [vm_compute; do 5 apply list_elem_of_further; apply list_elem_of_here|].
  apply (destination_failures_do_not_abort refusing "token" "1" ∅
           {| status_code := 200; json := inr [chat; general] |} [chat; general]
           [chat; general]).
  - reflexivity.
  - reflexivity.
  - reflexivity.
  - reflexivity.
  - apply Forall_cons. split; [apply chat_well_formed|].
    apply Forall_cons. split; [apply general_well_formed | apply Forall_nil_2].
Defined.

Lemma parent_category_is_passed_witness :
  exists i name ow h c kw,
    calls (trace (clone_channels_user readable "token" "1" ∅)) !! i
      = Some (general, create_category name ow (reason readable)) /\
    dest readable i (create_category name ow (reason readable)) = inr h /\
    (chat, c) ∈ calls (trace (clone_channels_user readable "token" "1" ∅)) /\
    call_kwargs c = Some kw /\
    ck_category kw = Some h.
Proof.
  apply (parent_category_is_passed readable "token" "1" ∅
           {| status_code := 200; json := inr [chat; general] |} [chat; general]
           [chat; general] general chat 10).
  - reflexivity.
  - reflexivity.
  - reflexivity.
  - reflexivity.
  - apply Forall_cons. split; [apply chat_well_formed|].
    apply Forall_cons. split; [apply general_well_formed | apply Forall_nil_2].
  - apply unique_ids_NoDup. apply (bool_decide_unpack _). vm_compute. exact I.
  - intros i c. by eexists.
  - apply list_elem_of_further, list_elem_of_here.
  - reflexivity.
  - reflexivity.
  - apply list_elem_of_here.
  - reflexivity.
  - reflexivity.
  - reflexivity.
  - reflexivity.
Defined.

Lemma forum_well_formed : channel_well_formed ∅ forum.
Proof.
  split; [by eexists|]. split; [by eexists|].
  change (is_category forum) with false. intros cm. by eexists.
Qed.

Lemma other_types_only_sleep_witness :
  channel_step readable ∅ ∅ forum 0%nat = Out (inr (Next tt)) [Sleep] 0%nat.
Proof.
  apply (other_types_only_sleep readable ∅ ∅ forum 0%nat).
  - reflexivity.
  - reflexivity.
  - apply forum_well_formed.
Defined.

Lemma at_most_one_call_per_channel_witness :
  (writes (trace (clone_channels_user readable "token" "1" ∅)) <= 2)%nat.
Proof.
  apply (at_most_one_call_per_channel readable "token" "1" ∅
           {| status_code := 200; json := inr [chat; general] |} [chat; general]).
  - reflexivity.
  - reflexivity.
Defined.

Lemma channels_fetch_failure_witness :
  let g := {| guild_name := "destino"; me_administrator := true |} in
  trace (clone_server_user_slash channels_refused "token" "1" "5") =
    (([Defer; Send (Starting "1" "destino")] ++
      trace (clone_roles_user channels_refused "token" "1")) ++
     [HttpGet (GuildChannels "1") "token"; Send (ChannelsFetchFailed 503);
      Send (Done "1" "destino")])%list.
Proof.
  intros g.
  destruct (channels_fetch_failure channels_refused "token" "1" "5" 5 g {[ 1 := 100 ]})
    as [_ Hstatus]; [reflexivity..|].
  apply (Hstatus {| status_code := 503; json := inl JSONDecodeError |});
    [reflexivity | discriminate].
Defined.
End Instances.

End ClonerMore.

(* ===================================================================== *)
(** * More about bot_limpeza.py *)
(* ===================================================================== *)

Module LimpezaMore.
Import Py Limpeza.
Import Cloner (exn_ret, exn_bind).

(** ** The list of the reordering *)

Lemma insert_perm (i : Z) (x : role) (l : list role) : insert i x l ≡ₚ x :: l.
Proof.
  unfold insert. rewrite <- Permutation_middle, take_drop. reflexivity.
Qed.

Lemma insert_sublist (i : Z) (x : role) (l : list role) : l `sublist_of` insert i x l.
Proof.
  unfold insert. set (k := Z.to_nat _).
  rewrite <- (take_drop k l) at 1.
  apply sublist_app; [reflexivity|]. by apply sublist_cons.
Qed.

Lemma insert_all_perm (p : Z) (created l : list role) :
  insert_all p created l ≡ₚ created ++ l.
Proof.
  revert p l. induction created as [|r created IH]; intros p l; cbn; [done|].
  rewrite IH, insert_perm. symmetry. apply Permutation_middle.
Qed.

Lemma insert_all_sublist (p : Z) (created l : list role) :
  l `sublist_of` insert_all p created l.
Proof.
  revert p l. induction created as [|r created IH]; intros p l; cbn; [done|].
  etrans; [apply (insert_sublist p r)|]. apply IH.
Qed.

Lemma positions_of_fst (l : list role) : (positions_of l).*1 = role_id <$> l.
Proof.
  unfold positions_of. rewrite fmap_imap.
  induction l as [|r l IH] using rev_ind; [done|].
  rewrite imap_app, fmap_app, IH. done.
Qed.

Lemma positions_of_snd (l : list role) : (positions_of l).*2 = seq 0 (length l).
Proof.
  unfold positions_of. rewrite fmap_imap.
  induction l as [|r l IH] using rev_ind; [done|].
  rewrite imap_app, length_app, seq_app, IH. cbn. by rewrite Nat.add_0_r.
Qed.

(** X14: the list that the reordering sends holds the created roles and
    the other roles of the guild, nothing else and nothing twice over;
    the other roles keep their order; and the positions sent
    are 0, 1, 2, ... along the list. *)
Theorem reorder_request_lists_every_role (guild_roles : list role) (bot_role_index : nat)
    (created_roles : list role) :
  let others :=
    List.filter (fun r => negb (existsb (Z.eqb (role_id r)) (role_id <$> created_roles)))
                guild_roles in
  let sent := reordered_roles guild_roles bot_role_index created_roles in
  sent ≡ₚ created_roles ++ others /\
  others `sublist_of` sent /\
  (positions_of sent).*1 = role_id <$> sent /\
  (positions_of sent).*2 = seq 0 (length created_roles + length others).
Proof.
  intros others sent. unfold sent, reordered_roles. fold others.
  split; [|split; [|split]].
  - rewrite insert_all_perm. by rewrite reverse_Permutation.
  - apply insert_all_sublist.
  - apply positions_of_fst.
  - rewrite positions_of_snd. f_equal.
    rewrite (Permutation_length (insert_all_perm _ _ _)), length_app, length_reverse. done.
Qed.

(** ** /preset_cargos usar *)

Section Usar.
Context `{TextBuiltins} (json_loads : string -> exn + pyval).

Lemma usar_attempt_guard (U : usar_env) (n : nat) (name : pyval) (d : pydict) :
  u_me_administrator U = false ->
  Forall without_administrator (fst (usar_attempt U n name d)).
Proof.
  intros Hadmin. unfold usar_attempt.
  destruct (as_int _) as [e|perms]; [constructor|].
  rewrite Hadmin. cbn [negb]. rewrite andb_true_r.
  destruct (Z.testbit perms 3) eqn:Hbit; [constructor|].
  destruct (colour_of _); repeat constructor. exact Hbit.
Qed.

(** The events of the loop satisfy [P] when those of every attempt do. *)
Lemma usar_loop_events (P : action -> Prop) (U : usar_env) :
  (forall n name d, Forall P (fst (usar_attempt U n name d))) ->
  forall items n created failed, Forall P (fst (usar_loop U items n created failed)).
Proof.
  intros Hattempt items. induction items as [|item rest IH]; intros n created failed;
    cbn [usar_loop]; [constructor|].
  destruct item as [| | | | |d]; try constructor.
  destruct (negb (truthy _)); [apply IH|].
  specialize (Hattempt n (get d "name" VNone) d).
  destruct (usar_attempt U n (get d "name" VNone) d) as [t [e|[r|]]]; cbn in Hattempt.
  - destruct (is_Forbidden e); [done|].
    specialize (IH (n + length t)%nat created (failed ++ [CreateError (get d "name" VNone) e])).
    destruct (usar_loop U rest _ _ _) as [t' x]. by apply Forall_app.
  - specialize (IH (n + length t)%nat (created ++ [r]) failed).
    destruct (usar_loop U rest _ _ _) as [t' x]. by apply Forall_app.
  - specialize (IH (n + length t)%nat created (failed ++ [AdminRefused (get d "name" VNone)])).
    destruct (usar_loop U rest _ _ _) as [t' x]. by apply Forall_app.
Qed.

Lemma usar_reorder_events (U : usar_env) (created : list role) :
  Forall (fun a => match a with AEditRolePositions _ => True | _ => False end)
         (snd (fst (usar_reorder U created))).
Proof.
  unfold usar_reorder. destruct (index _ _); [constructor|].
  destruct (_ ;; _); repeat constructor.
Qed.

(** The events of the command satisfy [P] when the deferral, the replies,
    the reordering and every attempt do. *)
Lemma preset_usar_events (P : action -> Prop) (U : usar_env) (nome : string) :
  P ADefer -> (forall a, P (AReply a)) -> (forall p, P (AEditRolePositions p)) ->
  (forall n name d, Forall P (fst (usar_attempt U n name d))) ->
  Forall P (fst (preset_usar_slash json_loads U nome)).
Proof.
  intros Hdefer Hreply Hedit Hattempt. unfold preset_usar_slash.
  destruct (negb (u_in_guild U)); [by repeat constructor|].
  destruct (_ ≫= _) as [e|[items|]]; [by repeat constructor| |by repeat constructor].
  pose proof (usar_loop_events P U Hattempt items 0%nat [] []) as Hloop.
  destruct (usar_loop U items 0 [] []) as [t [e|[created failed]]]; cbn in Hloop.
  - by constructor.
  - destruct created as [|r created].
    + constructor; [done|]. apply Forall_app. split; [done | by repeat constructor].
    + pose proof (usar_reorder_events U (r :: created)) as Hre.
      destruct (usar_reorder U (r :: created)) as [[res t'] created']; cbn in Hre.
      destruct res as [e|u]; cbn; constructor; try done;
        (apply Forall_app; split; [done|]); (apply Forall_app; split; [|by repeat constructor]);
        (eapply Forall_impl; [exact Hre|]); intros [] ?; try done; apply Hedit.
Qed.

(** X15: when the bot is not administrator of the guild, the command never
    calls [create_role] with permissions that include Administrator, whatever
    the preset holds. *)
Theorem preset_usar_never_grants_administrator (U : usar_env) (nome : string)
    (name : pyval) (permissions colour : Z) :
  u_me_administrator U = false ->
  ACreateRole name permissions colour ∈ fst (preset_usar_slash json_loads U nome) ->
  Z.testbit permissions 3 = false.
Proof.
  intros Hadmin Hin.
  assert (Hall : Forall without_administrator (fst (preset_usar_slash json_loads U nome))).
  { apply preset_usar_events; try done. intros. by apply usar_attempt_guard. }
  rewrite Forall_forall in Hall. exact (Hall _ Hin).
Qed.

Lemma usar_loop_creates (U : usar_env) (items : list pyval) (n : nat)
    (created : list role) (failed : list usar_failure) :
  Forall is_create (fst (usar_loop U items n created failed)).
Proof.
  apply usar_loop_events. intros n' name d. unfold usar_attempt.
  destruct (as_int _); [constructor|]. destruct (_ && _); [constructor|].
  destruct (colour_of _); repeat constructor.
Qed.

Lemma edit_calls_creates (t : list action) : Forall is_create t -> edit_calls t = [].
Proof.
  induction 1 as [|a t Ha _ IH]; [done|]. by destruct a.
Qed.

Lemma create_calls_creates (t : list action) : Forall is_create t -> create_calls t = t.
Proof.
  induction 1 as [|a t Ha _ IH]; [done|]. destruct a; try done.
  unfold create_calls in *. cbn. by rewrite IH.
Qed.

Lemma last_creates (t : list action) (x : answer) :
  Forall is_create t -> last (ADefer :: t) <> Some (AReply x).
Proof.
  intros Ht Hlast. destruct t as [|a t _] using rev_ind; [done|].
  change (ADefer :: t ++ [a]) with ((ADefer :: t) ++ [a]) in Hlast.
  rewrite last_snoc in Hlast. apply Forall_app in Ht as [_ Ha].
  inversion Ha as [|? ? Hc _]; subst. injection Hlast as ->. exact Hc.
Qed.

Lemma last_reply (t : list action) (x : action) : last (ADefer :: t ++ [x]) = Some x.
Proof. exact (last_snoc x (ADefer :: t)). Qed.

Lemma edit_calls_app (t t' : list action) :
  edit_calls (t ++ t') = edit_calls t ++ edit_calls t'.
Proof. apply List.filter_app. Qed.

Lemma create_calls_app (t t' : list action) :
  create_calls (t ++ t') = create_calls t ++ create_calls t'.
Proof. apply List.filter_app. Qed.

(** The names in the reason of the reordering are bound in
    [preset_usar_slash]. *)
Lemma usar_reason_bound :
  (load_name preset_usar_locals "nome";; load_name preset_usar_locals "interaction")
  = inr tt.
Proof. vm_compute. reflexivity. Qed.

(** X17: in a guild, when the preset file is missing, cannot be read, is
    empty or cannot be decoded, or when it holds an object in which the
    lower-cased name is absent or bound to an empty value, the command
    answers that the preset was not found and creates nothing. *)
Theorem preset_usar_not_found (U : usar_env) (nome : string) :
  u_in_guild U = true ->
  (file_exists (u_file U) = false \/
   (exists e, file_read (u_file U) = inl e) \/
   (exists content, file_read (u_file U) = inr content /\
      (content = "" \/
       (exists e, json_loads content = inl e) \/
       (exists d, json_loads content = inr (VDict d) /\
                  truthy (get d (lower nome) VNone) = false)))) ->
  preset_usar_slash json_loads U nome = ([ADefer; AReply (PresetNotFound nome)], inr tt).
Proof.
  intros Hguild Hfile.
  assert (exists d, load_presets json_loads (u_file U) = inr (VDict d) /\
                    truthy (get d (lower nome) VNone) = false) as (d & Hload & Hget).
  { unfold load_presets.
    destruct Hfile as [-> | [[e Hread] | (content & Hread & Hcontent)]].
    - exists ∅. split; [done|]. unfold get. by rewrite lookup_empty.
    - exists ∅. split; [|unfold get; by rewrite lookup_empty].
      rewrite Hread. destruct (file_exists _); cbn; [|done]. by destruct e.
    - rewrite Hread. destruct (file_exists _); cbn;
        [|exists ∅; split; [done|]; unfold get; by rewrite lookup_empty].
      destruct Hcontent as [-> | [[e He] | (d & Hd & Hget)]].
      + exists ∅. split; [done|]. unfold get. by rewrite lookup_empty.
      + exists ∅. split; [|unfold get; by rewrite lookup_empty].
        destruct (String.eqb content ""); cbn; [done|]. rewrite He. by destruct e.
      + destruct (String.eqb content ""); cbn.
        * exists ∅. split; [done|]. unfold get. by rewrite lookup_empty.
        * exists d. by rewrite Hd. }
  unfold preset_usar_slash. rewrite Hguild, Hload. cbn. by rewrite Hget.
Qed.

(** What an attempt does: it issues no call, or one call, whose answer
    decides its result. *)
Lemma usar_attempt_run (U : usar_env) (n : nat) (name : pyval) (d : pydict) :
  (fst (usar_attempt U n name d) = [] /\
   forall r, snd (usar_attempt U n name d) <> inr (Some r)) \/
  (exists p c,
     usar_attempt U n name d =
     ([ACreateRole name p c],
      match u_create U n name p c with
      | inl e => inl e
      | inr new_role => inr (Some new_role)
      end)).
Proof.
  unfold usar_attempt. destruct (as_int _) as [e|perms]; [by left|].
  destruct (_ && _); [by left|]. destruct (colour_of _) as [e|c]; [by left|].
  right. by exists perms, c.
Qed.

Lemma usar_loop_forbidden (U : usar_env) (items : list pyval) (k : nat)
    (created : list role) (failed : list usar_failure)
    (i : nat) (name : pyval) (p c : Z) (e : exn) :
  fst (usar_loop U items k created failed) !! i = Some (ACreateRole name p c) ->
  u_create U (k + i) name p c = inl e ->
  is_Forbidden e = true ->
  length (fst (usar_loop U items k created failed)) = S i.
Proof.
  revert k created failed i.
  induction items as [|item rest IH]; intros k created failed i; cbn [usar_loop]; [done|].
  destruct item as [| | | | |d]; try done.
  destruct (negb (truthy _)); [apply IH|].
  destruct (usar_attempt_run U k (get d "name" VNone) d) as [[Ht Hr] | (p' & c' & ->)].
  - destruct (usar_attempt U k (get d "name" VNone) d) as [t r]; cbn in Ht, Hr. subst t.
    assert (Hk : (k + length (@nil action) = k)%nat) by (cbn; lia). rewrite Hk.
    destruct r as [e'|[r|]]; [|by destruct (Hr r)|].
    + destruct (is_Forbidden e'); [done|].
      specialize (IH k created (failed ++ [CreateError (get d "name" VNone) e']) i).
      by destruct (usar_loop U rest k _ _).
    + specialize (IH k created (failed ++ [AdminRefused (get d "name" VNone)]) i).
      by destruct (usar_loop U rest k _ _).
  - assert (Hk : (k + length [ACreateRole (get d "name" VNone) p' c'] = S k)%nat)
      by (cbn; lia).
    rewrite Hk.
    destruct (u_create U k (get d "name" VNone) p' c') as [e'|r] eqn:Hcreate.
    + destruct (is_Forbidden e') eqn:Hf.
      * destruct i as [|i]; [done|]. done.
      * specialize (IH (S k) created (failed ++ [CreateError (get d "name" VNone) e'])).
        destruct (usar_loop U rest (S k) _ _) as [t' x]. cbn [fst] in *.
        destruct i as [|i]; cbn.
        -- intros [= <- <- <-]. rewrite Nat.add_0_r, Hcreate. intros [= <-]. congruence.
        -- intros Hi Hc He. f_equal. apply IH; [done| |done].
           by replace (S k + i)%nat with (k + S i)%nat by lia.
    + specialize (IH (S k) (created ++ [r]) failed).
      destruct (usar_loop U rest (S k) _ _) as [t' x]. cbn [fst] in *.
      destruct i as [|i]; cbn.
      -- intros [= <- <- <-]. by rewrite Nat.add_0_r, Hcreate.
      -- intros Hi Hc He. f_equal. apply IH; [done| |done].
         by replace (S k + i)%nat with (k + S i)%nat by lia.
Qed.

Lemma returned_roles_app (U : usar_env) (n : nat) (t t' : list action) :
  returned_roles U n (t ++ t') =
  returned_roles U n t ++ returned_roles U (n + length (create_calls t)) t'.
Proof.
  revert n. induction t as [|a t IH]; intros n.
  { cbn. by rewrite Nat.add_0_r. }
  destruct a; cbn [app returned_roles]; try apply IH.
  change (create_calls (ACreateRole name permissions colour :: t))
    with (ACreateRole name permissions colour :: create_calls t).
  cbn [length]. replace (n + S (length (create_calls t)))%nat
    with (S n + length (create_calls t))%nat by lia.
  destruct (u_create U n name permissions colour); by rewrite IH.
Qed.

(** The roles that the loop collects are those that [create_role]
    returned to its calls, in the order of the calls. *)
Lemma usar_loop_returned (U : usar_env) (items : list pyval) (n : nat)
    (created : list role) (failed : list usar_failure)
    (created' : list role) (failed' : list usar_failure) :
  snd (usar_loop U items n created failed) = inr (created', failed') ->
  created' = created ++ returned_roles U n (fst (usar_loop U items n created failed)).
Proof.
  revert n created failed.
  induction items as [|item rest IH]; intros n created failed; cbn [usar_loop].
  { intros [= <- _]. cbn. by rewrite app_nil_r. }
  destruct item as [| | | | |d]; try done.
  destruct (negb (truthy _)); [apply IH|].
  destruct (usar_attempt_run U n (get d "name" VNone) d) as [[Ht Hr] | (p & c & ->)].
  - destruct (usar_attempt U n (get d "name" VNone) d) as [t r]; cbn in Ht, Hr. subst t.
    assert (Hn : (n + length (@nil action) = n)%nat) by (cbn; lia). rewrite Hn.
    destruct r as [e|[r|]]; [|by destruct (Hr r)|].
    + destruct (is_Forbidden e).
      * intros [= <- _]. cbn. by rewrite app_nil_r.
      * specialize (IH n created (failed ++ [CreateError (get d "name" VNone) e])).
        by destruct (usar_loop U rest n _ _).
    + specialize (IH n created (failed ++ [AdminRefused (get d "name" VNone)])).
      by destruct (usar_loop U rest n _ _).
  - assert (Hn : (n + length [ACreateRole (get d "name" VNone) p c] = S n)%nat)
      by (cbn; lia).
    rewrite Hn.
    destruct (u_create U n (get d "name" VNone) p c) as [e|r] eqn:Hcreate.
    + destruct (is_Forbidden e).
      * intros [= <- _]. cbn [fst returned_roles]. rewrite Hcreate. cbn.
        by rewrite app_nil_r.
      * specialize (IH (S n) created (failed ++ [CreateError (get d "name" VNone) e])).
        destruct (usar_loop U rest (S n) _ _) as [t' x]. cbn [fst snd] in *.
        intros Hx. cbn [app returned_roles]. rewrite Hcreate. by apply IH.
    + specialize (IH (S n) (created ++ [r]) failed).
      destruct (usar_loop U rest (S n) _ _) as [t' x]. cbn [fst snd] in *.
      intros Hx. cbn [app returned_roles]. rewrite Hcreate.
      rewrite (IH Hx), <- app_assoc. done.
Qed.

(** X16: when [/preset_cargos usar] reports a preset as applied and the top
    role of the bot is among the roles of the guild, it has called
    [edit_role_positions] exactly once, with the positions of the list
    reordered around the roles that [create_role] returned; the names
    reported are those of these roles, last created first, and the reply
    says the reordering failed exactly when that call raised. *)
Theorem preset_usar_reorders (U : usar_env) (nome : string) (names : list string)
    (failed : list usar_failure) (reorder_failed : bool) (bot_role_index : nat) :
  last (fst (preset_usar_slash json_loads U nome)) =
    Some (AReply (PresetApplied nome names failed reorder_failed)) ->
  index (u_guild_roles U) (u_top_role U) = inr bot_role_index ->
  let created_roles :=
    returned_roles U 0 (fst (preset_usar_slash json_loads U nome)) in
  let positions :=
    positions_of (reordered_roles (u_guild_roles U) bot_role_index created_roles) in
  created_roles <> [] /\
  names = role_name <$> reverse created_roles /\
  edit_calls (fst (preset_usar_slash json_loads U nome)) =
    [AEditRolePositions positions] /\
  reorder_failed = negb (succeeded (u_edit U positions)).
Proof.
  unfold preset_usar_slash. intros Hlast Hindex.
  destruct (negb (u_in_guild U)); [done|].
  destruct (_ ≫= _) as [e|[items|]]; [done| |done].
  pose proof (usar_loop_creates U items 0%nat [] []) as Hloop.
  pose proof (usar_loop_returned U items 0%nat [] []) as Hreturned.
  destruct (usar_loop U items 0 [] []) as [t [e|[created failed0]]]; cbn [fst snd] in *.
  { by apply last_creates in Hlast. }
  specialize (Hreturned created failed0 eq_refl). cbn [app] in Hreturned.
  destruct created as [|r created]; cbn [fst] in *.
  { rewrite last_reply in Hlast. done. }
  unfold usar_reorder in *. rewrite Hindex in *. rewrite usar_reason_bound in *.
  assert (Hroles : forall p x,
            returned_roles U 0 (ADefer :: t ++ [AEditRolePositions p] ++ [AReply x])
            = r :: created).
  { intros p x. change (ADefer :: ?l) with ([ADefer] ++ l).
    rewrite !returned_roles_app. cbn. by rewrite app_nil_r. }
  assert (Hcalls : forall p x,
            edit_calls (ADefer :: t ++ [AEditRolePositions p] ++ [AReply x])
            = [AEditRolePositions p]).
  { intros p x. change (ADefer :: ?l) with ([ADefer] ++ l).
    rewrite !edit_calls_app, (edit_calls_creates t Hloop). reflexivity. }
  destruct (u_edit U _) as [e|u] eqn:Hedit; cbn [fst] in *; cbn zeta;
    rewrite Hroles, Hcalls, Hedit; rewrite app_assoc, last_reply in Hlast;
    injection Hlast as <- <- <-; done.
Qed.

(** The calls of [create_role] of the command are those of its loop. *)
Lemma preset_usar_create_calls (U : usar_env) (nome : string) :
  create_calls (fst (preset_usar_slash json_loads U nome)) =
  if negb (u_in_guild U) then []
  else
    match (presets ← load_presets json_loads (u_file U);
           role_data_list ← preset_get presets nome;
           if negb (truthy role_data_list) then inr None
           else items ← iter role_data_list; inr (Some items)) with
    | inr (Some items) => fst (usar_loop U items 0 [] [])
    | _ => []
    end.
Proof.
  unfold preset_usar_slash.
  destruct (negb (u_in_guild U)); [done|].
  destruct (_ ≫= _) as [e|[items|]]; [done| |done].
  pose proof (usar_loop_creates U items 0%nat [] []) as Hloop.
  destruct (usar_loop U items 0 [] []) as [t [e|[created failed0]]]; cbn [fst] in *.
  { change (ADefer :: t) with ([ADefer] ++ t).
    by rewrite create_calls_app, (create_calls_creates t Hloop). }
  destruct created as [|r created]; cbn [fst].
  { change (ADefer :: ?l) with ([ADefer] ++ l).
    rewrite !create_calls_app, (create_calls_creates t Hloop). cbn. by rewrite app_nil_r. }
  pose proof (usar_reorder_events U (r :: created)) as Hre.
  destruct (usar_reorder U (r :: created)) as [[res t'] created']; cbn [fst snd] in Hre.
  assert (Ht' : create_calls t' = []).
  { clear -Hre. induction Hre as [|a t' Ha _ IH]; [done|]. by destruct a. }
  destruct res as [e|u]; cbn [fst];
    change (ADefer :: ?l) with ([ADefer] ++ l);
    rewrite !create_calls_app, (create_calls_creates t Hloop), Ht'; cbn;
    by rewrite app_nil_r.
Qed.

(** X18: once a call of [create_role] is answered with [Forbidden], the
    command calls [create_role] no more: that call is the last one. *)
Theorem preset_usar_forbidden_ends_creation (U : usar_env) (nome : string)
    (i : nat) (name : pyval) (p c : Z) (e : exn) :
  create_calls (fst (preset_usar_slash json_loads U nome)) !! i
    = Some (ACreateRole name p c) ->
  u_create U i name p c = inl e ->
  is_Forbidden e = true ->
  length (create_calls (fst (preset_usar_slash json_loads U nome))) = S i.
Proof.
  rewrite preset_usar_create_calls.
  destruct (negb (u_in_guild U)); [done|].
  destruct (_ ≫= _) as [e'|[items|]]; [done| |done].
  intros Hi Hc He. by eapply (usar_loop_forbidden U items 0%nat).
Qed.
End Usar.

(** ** /preset_cargos salvar *)

Section Salvar.
Context `{TextBuiltins} (json_loads : string -> exn + pyval).

(** When [save_presets] is called, and with what. *)
Lemma salvar_saves (Sv : salvar_env) (nome lista_cargos : string) (saved : pyval) :
  ASave saved ∈ fst (preset_salvar_slash json_loads Sv nome lista_cargos) <->
  role_names lista_cargos <> [] /\
  exists d, load_presets json_loads (s_file Sv) = inr (VDict d) /\
            saved = VDict (<[lower nome := VList (role_data_of <$> role_names lista_cargos)]> d).
Proof.
  unfold preset_salvar_slash.
  destruct (role_names lista_cargos) as [|name names].
  { split; [|by intros [? _]]. intros Hin.
    apply elem_of_cons in Hin as [|Hin]; [done|].
    apply elem_of_cons in Hin as [|Hin]; [done|]. by apply elem_of_nil in Hin. }
  destruct (load_presets json_loads (s_file Sv)) as [e|presets]; cbn.
  { split; [|by intros [_ (? & ? & _)]]. intros Hin.
    apply elem_of_cons in Hin as [|Hin]; [done|]. by apply elem_of_nil in Hin. }
  destruct presets as [| | | | |d]; cbn;
    try (split; [|by intros [_ (? & ? & _)]]; intros Hin;
         apply elem_of_cons in Hin as [|Hin]; [done|]; by apply elem_of_nil in Hin).
  set (d' := <[_ := _]> d).
  assert (Hin : forall t, ASave saved ∈ ADefer :: ASave (VDict d') :: t ->
                          (forall x, t = [AReply x] \/ t = []) -> saved = VDict d').
  { intros t Hin Ht. apply elem_of_cons in Hin as [|Hin]; [done|].
    apply elem_of_cons in Hin as [[= ->]|Hin]; [done|].
    destruct (Ht GuildOnly) as [-> | ->].
    - apply elem_of_cons in Hin as [|Hin]; [done|]. by apply elem_of_nil in Hin.
    - by apply elem_of_nil in Hin. }
  split.
  - intros Hsaved. split; [done|]. exists d. split; [done|].
    destruct (s_write Sv (VDict d')); cbn [fst] in Hsaved.
    + apply (Hin [] Hsaved). by right.
    + apply elem_of_cons in Hsaved as [|Hsaved]; [done|].
      apply elem_of_cons in Hsaved as [[= ->]|Hsaved]; [done|].
      apply elem_of_cons in Hsaved as [|Hsaved]; [done|]. by apply elem_of_nil in Hsaved.
  - intros [_ (d0 & [= <-] & ->)].
    destruct (s_write Sv (VDict d')); cbn [fst];
      apply list_elem_of_further, list_elem_of_here.
Qed.

(** X19: [/preset_cargos salvar] calls [save_presets] exactly when the list
    has a name and the preset file loads as an object; what it saves is the
    object loaded with the lower-cased name bound to one entry per name,
    with permissions 0 and colour #FFFFFF: the other presets are kept, and
    a preset whose name differs only in case is replaced. *)
Theorem preset_salvar_store (Sv : salvar_env) (nome lista_cargos : string) (saved : pyval) :
  ASave saved ∈ fst (preset_salvar_slash json_loads Sv nome lista_cargos) <->
  role_names lista_cargos <> [] /\
  exists d d' : pydict,
    load_presets json_loads (s_file Sv) = inr (VDict d) /\
    saved = VDict d' /\
    d' !! lower nome = Some (VList (role_data_of <$> role_names lista_cargos)) /\
    forall k, k <> lower nome -> d' !! k = d !! k.
Proof.
  rewrite salvar_saves. split.
  - intros (Hnames & d & Hload & ->). split; [done|].
    exists d, (<[lower nome := VList (role_data_of <$> role_names lista_cargos)]> d).
    split; [done|]. split; [done|]. split; [apply lookup_insert_eq|].
    intros k Hk. by apply lookup_insert_ne.
  - intros (Hnames & d & d' & Hload & -> & Hnew & Hold). split; [done|].
    exists d. split; [done|]. f_equal. apply map_eq. intros k.
    destruct (decide (k = lower nome)) as [->|Hk].
    + by rewrite lookup_insert_eq.
    + rewrite lookup_insert_ne by done. by apply Hold.
Qed.

(** X20: when the preset file decodes to a value that is not an object,
    [/preset_cargos usar] raises [AttributeError] and
    [/preset_cargos salvar] raises [TypeError]: after the deferral nothing
    is created, nothing is saved and no reply is sent. *)
Theorem non_object_store_raises (f : preset_file) (U : usar_env) (Sv : salvar_env)
    (nome lista_cargos content : string) (v : pyval) :
  file_exists f = true ->
  file_read f = inr content ->
  content <> "" ->
  json_loads content = inr v ->
  (forall d, v <> VDict d) ->
  (u_file U = f -> u_in_guild U = true ->
   preset_usar_slash json_loads U nome = ([ADefer], inl AttributeError)) /\
  (s_file Sv = f -> role_names lista_cargos <> [] ->
   preset_salvar_slash json_loads Sv nome lista_cargos = ([ADefer], inl TypeError)).
Proof.
  intros Hexists Hread Hcontent Hloads Hv.
  assert (Hload : load_presets json_loads f = inr v).
  { unfold load_presets. rewrite Hexists, Hread. cbn.
    destruct (String.eqb_spec content ""); [done|]. cbn. by rewrite Hloads. }
  split.
  - intros <- Hguild. unfold preset_usar_slash. rewrite Hguild, Hload. cbn.
    destruct v as [| | | | |d]; try done. by destruct (Hv d).
  - intros <- Hnames. unfold preset_salvar_slash.
    destruct (role_names lista_cargos) as [|name names]; [done|].
    rewrite Hload. cbn. destruct v as [| | | | |d]; try done. by destruct (Hv d).
Qed.

Lemma role_names_nonempty (lista_cargos name : string) :
  name ∈ role_names lista_cargos -> name <> "".
Proof.
  unfold role_names. rewrite list_elem_of_In, List.filter_In.
  intros [_ Hname] ->. done.
Qed.

(** The attempt for an entry written by [/preset_cargos salvar]. *)
Lemma usar_attempt_saved (U : usar_env) (n : nat) (name : string) (d : pydict) :
  int16 "FFFFFF" = Some 16777215 ->
  role_data_of name = VDict d ->
  get d "name" VNone = VStr name /\
  usar_attempt U n (VStr name) d =
  ([ACreateRole (VStr name) 0 16777215],
   match u_create U n (VStr name) 0 16777215 with
   | inl e => inl e
   | inr new_role => inr (Some new_role)
   end).
Proof.
  intros Hwhite [= <-]. split; [reflexivity|].
  unfold usar_attempt.
  change (get _ "permissions" (VInt 0)) with (VInt 0).
  change (get _ "color" (VStr "#FFFFFF")) with (VStr "#FFFFFF").
  cbn. by rewrite Hwhite.
Qed.

Lemma usar_loop_saved (U : usar_env) (names : list string) (k : nat)
    (created : list role) (failed : list usar_failure) :
  int16 "FFFFFF" = Some 16777215 ->
  Forall (fun name => name <> "") names ->
  (forall n name p c e, u_create U n name p c = inl e -> is_Forbidden e = false) ->
  fst (usar_loop U (role_data_of <$> names) k created failed) =
  (fun name => ACreateRole (VStr name) 0 16777215) <$> names.
Proof.
  intros Hwhite Hnames Hcreate. revert k created failed.
  induction Hnames as [|name names Hname _ IH]; intros k created failed; [done|].
  rewrite !fmap_cons.
  destruct (role_data_of name) as [| | | | |d] eqn:Hd; try done.
  destruct (usar_attempt_saved U k name d Hwhite Hd) as [Hget Hattempt].
  cbn [usar_loop]. rewrite Hget, Hattempt.
  assert (Htruthy : negb (truthy (VStr name)) = false).
  { cbn. by destruct (String.eqb_spec name ""). }
  rewrite Htruthy.
  destruct (u_create U k (VStr name) 0 16777215) as [e|r] eqn:Hc.
  - rewrite (Hcreate _ _ _ _ _ Hc).
    specialize (IH (k + length [ACreateRole (VStr name) 0 16777215])%nat created
                   (failed ++ [CreateError (VStr name) e])).
    destruct (usar_loop U (role_data_of <$> names) _ _ _) as [t' x]. cbn in *. by rewrite IH.
  - specialize (IH (k + length [ACreateRole (VStr name) 0 16777215])%nat (created ++ [r])
                   failed).
    destruct (usar_loop U (role_data_of <$> names) _ _ _) as [t' x]. cbn in *. by rewrite IH.
Qed.

(** X21: [/preset_cargos usar] on what [/preset_cargos salvar] saved.  When
    the store that [salvar] saved under a name is the one [usar] loads, the
    name given to [usar] has the same lower-cased form, white reads as
    16777215 and no creation is answered with [Forbidden], then [usar] calls
    [create_role] once for each name of the list given to [salvar], in the
    order of the list, with no permission and the colour white. *)
Theorem salvar_then_usar (Sv : salvar_env) (U : usar_env)
    (nome nome' lista_cargos : string) (saved : pyval) :
  ASave saved ∈ fst (preset_salvar_slash json_loads Sv nome lista_cargos) ->
  u_in_guild U = true ->
  load_presets json_loads (u_file U) = inr saved ->
  lower nome' = lower nome ->
  int16 "FFFFFF" = Some 16777215 ->
  (forall n name p c e, u_create U n name p c = inl e -> is_Forbidden e = false) ->
  create_calls (fst (preset_usar_slash json_loads U nome')) =
  (fun name => ACreateRole (VStr name) 0 16777215) <$> role_names lista_cargos.
Proof.
  intros Hsaved Hguild Hload Hlower Hwhite Hcreate.
  apply salvar_saves in Hsaved as (Hnames & d & _ & ->).
  rewrite (preset_usar_create_calls json_loads), Hguild, Hload. cbn [negb].
  unfold preset_get. cbn. unfold get. rewrite Hlower, lookup_insert_eq.
  assert (Ht : negb (truthy (VList (role_data_of <$> role_names lista_cargos))) = false).
  { by destruct (role_names lista_cargos). }
  rewrite Ht.
  apply usar_loop_saved; [done| |done].
  apply Forall_forall. intros x Hx. by apply (role_names_nonempty lista_cargos).
Qed.
End Salvar.

(** ** /apagar_canais and /apagar_cargos *)

Section Purge.
Variable role_lt : role -> role -> bool.

Lemma delete_channels_run (D : purge_env) (channels : list channel) (n : nat) :
  deleted_channels (fst (delete_channels D channels n)) = channels /\
  snd (delete_channels D channels n) =
  length (List.filter id (imap (fun i c => succeeded (d_delete_channel D (n + i) c)) channels)).
Proof.
  revert n. induction channels as [|c rest IH]; intros n; [done|].
  cbn [delete_channels]. destruct (IH (S n)) as [Htrace Hcount].
  destruct (delete_channels D rest (S n)) as [t k]. cbn [fst snd] in *.
  split; [change (deleted_channels (ADeleteChannel c :: t)) with (c :: deleted_channels t);
          by rewrite Htrace|].
  rewrite imap_cons. cbn [List.filter]. rewrite Nat.add_0_r.
  assert (Himap : imap ((fun i c => succeeded (d_delete_channel D (n + i) c)) ∘ S) rest =
                  imap (fun i c => succeeded (d_delete_channel D (S n + i) c)) rest).
  { apply imap_ext. intros i x _. cbn. by replace (n + S i)%nat with (S (n + i)) by lia. }
  rewrite Himap. destruct (d_delete_channel D n c); cbn; by rewrite Hcount.
Qed.

Lemma filter_id_length (l : list bool) : (length (List.filter id l) <= length l)%nat.
Proof. induction l as [|[] l IH]; cbn; lia. Qed.

(** X22: in a guild, [/apagar_canais] attempts to delete every channel of
    the guild once, in the order of [guild.channels], whether or not earlier
    deletions failed, and the number it reports is the number of deletions
    that did not raise, which is at most the number of channels. *)
Theorem apagar_canais_attempts_every_channel (D : purge_env) :
  d_in_guild D = true ->
  let count :=
    length (List.filter id (imap (fun i c => succeeded (d_delete_channel D i c))
                                 (d_channels D))) in
  deleted_channels (apagar_canais_slash D) = d_channels D /\
  last (apagar_canais_slash D) = Some (AReply (ChannelsDeleted count)) /\
  (count <= length (d_channels D))%nat.
Proof.
  intros Hguild count. unfold apagar_canais_slash. rewrite Hguild. cbn [negb].
  destruct (delete_channels_run D (d_channels D) 0) as [Htrace Hcount].
  destruct (delete_channels D (d_channels D) 0) as [t k]. cbn [fst snd] in *.
  split; [|split].
  - unfold deleted_channels in *. cbn. rewrite omap_app, Htrace. cbn. by rewrite app_nil_r.
  - change (ADefer :: ?a :: t ++ ?l) with ((ADefer :: a :: t) ++ l).
    rewrite last_snoc. by rewrite Hcount.
  - subst count. etrans; [apply filter_id_length|]. by rewrite length_imap.
Qed.

Lemma delete_roles_run (D : purge_env) (roles : list role) (n : nat) :
  deleted_roles (fst (delete_roles D roles n)) = roles.
Proof.
  revert n. induction roles as [|r rest IH]; intros n; [done|].
  cbn [delete_roles]. specialize (IH (S n)).
  destruct (delete_roles D rest (S n)) as [t k]. cbn [fst] in *.
  change (deleted_roles (ADeleteRole r :: t)) with (r :: deleted_roles t). by rewrite IH.
Qed.

Lemma apagar_cargos_deleted (D : purge_env) :
  deleted_roles (apagar_cargos_slash role_lt D) =
  if d_in_guild D then roles_to_delete role_lt D else [].
Proof.
  unfold apagar_cargos_slash. destruct (d_in_guild D); cbn [negb]; [|done].
  pose proof (delete_roles_run D (roles_to_delete role_lt D) 0) as Htrace.
  destruct (delete_roles D (roles_to_delete role_lt D) 0) as [t k]. cbn [fst] in *.
  unfold deleted_roles in *. cbn. rewrite omap_app, Htrace. cbn. by rewrite app_nil_r.
Qed.

(** X23: [/apagar_cargos] attempts to delete only roles of the guild that
    are not named [@everyone] and are lower than the top role of the bot, in
    the order of [guild.roles]; as no role is lower than itself, the top
    role of the bot is never deleted. *)
Theorem apagar_cargos_spares (D : purge_env) :
  (forall r, role_lt r r = false) ->
  (deleted_roles (apagar_cargos_slash role_lt D) `sublist_of` d_roles D) /\
  (d_top_role D ∉ deleted_roles (apagar_cargos_slash role_lt D)) /\
  forall r, r ∈ deleted_roles (apagar_cargos_slash role_lt D) ->
            role_name r <> "@everyone" /\ role_lt r (d_top_role D) = true.
Proof.
  intros Hirreflexive. rewrite apagar_cargos_deleted.
  assert (Hin : forall r, r ∈ (if d_in_guild D then roles_to_delete role_lt D else []) ->
                          role_name r <> "@everyone" /\ role_lt r (d_top_role D) = true).
  { intros r. destruct (d_in_guild D); [|by intros ?%elem_of_nil].
    unfold roles_to_delete. rewrite list_elem_of_In, List.filter_In.
    intros [_ [Hname Hlt]%andb_prop]. split; [|done].
    intros Heq. rewrite Heq in Hname. done. }
  split; [|split; [|done]].
  - destruct (d_in_guild D); [|apply sublist_nil_l].
    unfold roles_to_delete. generalize (d_roles D). intros l.
    induction l as [|r l IH]; cbn; [done|].
    destruct (_ && _); [by apply sublist_skip | by apply sublist_cons].
  - intros Htop. apply Hin in Htop as [_ Hlt]. by rewrite Hirreflexive in Hlt.
Qed.
End Purge.

(** ** The list of names *)

Lemma chars_inj (s t : string) : chars s = chars t -> s = t.
Proof.
  intros Heq. rewrite <- (string_of_list_ascii_of_string s),
    <- (string_of_list_ascii_of_string t). unfold chars in Heq. by rewrite Heq.
Qed.

Lemma chars_cons (c : ascii) (s : string) : chars (String c s) = c :: chars s.
Proof. reflexivity. Qed.

Lemma chars_app (s t : string) : chars (s +:+ t) = chars s ++ chars t.
Proof.
  unfold chars. induction s as [|c s IH]; [done|].
  change (list_ascii_of_string (String c s +:+ t))
    with (c :: list_ascii_of_string (s +:+ t)).
  by rewrite IH.
Qed.

Lemma chars_rev_app (s1 s2 : string) :
  chars (String.rev_app s1 s2) = reverse (chars s1) ++ chars s2.
Proof.
  revert s2. induction s1 as [|c s1 IH]; intros s2; [done|].
  cbn [String.rev_app]. rewrite IH, !chars_cons, reverse_cons, <- app_assoc. done.
Qed.

Lemma chars_rev (s : string) : chars (String.rev s) = reverse (chars s).
Proof.
  unfold String.rev. rewrite chars_rev_app. change (chars "") with (@nil ascii).
  by rewrite app_nil_r.
Qed.

Lemma rev_rev (s : string) : String.rev (String.rev s) = s.
Proof. apply chars_inj. by rewrite !chars_rev, reverse_involutive. Qed.

(** [lstrip] drops a prefix, and what it leaves does not start with
    whitespace. *)
Lemma lstrip_suffix (s : string) : exists p, chars s = p ++ chars (lstrip s).
Proof.
  induction s as [|c s [p IH]]; [by exists []|]. cbn [lstrip].
  destruct (is_space c); [|by exists []]. exists (c :: p). by rewrite chars_cons, IH.
Qed.

Lemma lstrip_head (s : string) (c : ascii) (r : list ascii) :
  chars (lstrip s) = c :: r -> is_space c = false.
Proof.
  induction s as [|c' s IH]; [done|]. cbn [lstrip].
  destruct (is_space c') eqn:Hc'; [done|]. by intros [= <- _].
Qed.

Lemma lstrip_id (s : string) :
  (forall c r, chars s = c :: r -> is_space c = false) -> lstrip s = s.
Proof.
  destruct s as [|c s]; [done|]. intros Hhead. cbn [lstrip].
  by rewrite (Hhead c (chars s)).
Qed.

Lemma strip_chars (s : string) (c : ascii) : c ∈ chars (strip s) -> c ∈ chars s.
Proof.
  unfold strip. rewrite chars_rev, elem_of_reverse.
  destruct (lstrip_suffix (String.rev (lstrip s))) as [p Hp].
  destruct (lstrip_suffix s) as [q Hq].
  intros Hc. rewrite Hq. apply elem_of_app. right.
  apply elem_of_reverse. rewrite <- chars_rev, Hp. apply elem_of_app. by right.
Qed.

Lemma strip_strip (s : string) : strip (strip s) = strip s.
Proof.
  unfold strip at 1.
  set (a := lstrip s). set (b := lstrip (String.rev a)).
  assert (Hr : strip s = String.rev b) by done.
  destruct (lstrip_suffix (String.rev a)) as [p Hp]. fold b in Hp.
  assert (Ha : chars a = chars (String.rev b) ++ reverse p).
  { rewrite chars_rev, <- reverse_app, <- Hp, chars_rev. by rewrite reverse_involutive. }
  rewrite Hr.
  rewrite (lstrip_id (String.rev b)).
  - rewrite rev_rev. rewrite (lstrip_id b); [done|].
    intros c r. apply lstrip_head.
  - intros c r Hhead. rewrite Hhead in Ha. by apply (lstrip_head s c (r ++ reverse p)).
Qed.

(** The pieces between separators hold no separator. *)
Lemma split_names_pieces (s cur piece : string) :
  Forall (fun c => c <> ","%char /\ c <> "010"%char) (chars cur) ->
  piece ∈ split_names s cur ->
  Forall (fun c => c <> ","%char /\ c <> "010"%char) (chars piece).
Proof.
  revert cur. induction s as [|c s IH]; intros cur Hcur; cbn [split_names].
  { by intros ->%list_elem_of_singleton. }
  destruct (Ascii.eqb_spec c ","%char) as [->|Hcomma]; cbn [orb].
  { intros [->|Hin]%elem_of_cons; [done|]. by apply (IH ""). }
  destruct (Ascii.eqb_spec c "010"%char) as [->|Hnewline].
  { intros [->|Hin]%elem_of_cons; [done|]. by apply (IH ""). }
  apply IH. rewrite chars_app. apply Forall_app. split; [done|]. by repeat constructor.
Qed.

(** X24: every name that [/criar_cargos] and [/preset_cargos salvar] read
    from the list they are given is non-empty, has no whitespace at either
    end, and holds neither a comma nor a line feed. *)
Theorem role_names_clean (lista_cargos name : string) :
  name ∈ role_names lista_cargos ->
  name <> "" /\ strip name = name /\
  (","%char ∉ chars name) /\ ("010"%char ∉ chars name).
Proof.
  unfold role_names. rewrite list_elem_of_In, List.filter_In, <- list_elem_of_In.
  intros [[piece [-> Hpiece]]%list_elem_of_fmap Hname].
  split; [by intros Heq; rewrite Heq in Hname|].
  split; [apply strip_strip|].
  apply (split_names_pieces _ "") in Hpiece; [|constructor].
  rewrite Forall_forall in Hpiece.
  split; intros Hc%strip_chars; by destruct (Hpiece _ Hc).
Qed.

(** ** /criar_cargos *)

Lemma created_names_cons (name : string) (t : list event) :
  created_names (CreateRole name :: t) = name :: created_names t.
Proof. reflexivity. Qed.

Lemma create_roles_prefix (g : genv) (names : list string) (n : nat) :
  created_names (create_roles g names n).1.1 `prefix_of` names.
Proof.
  revert n. induction names as [|name rest IH]; intros n; [done|].
  cbn [create_roles]. specialize (IH (S n)).
  destruct (create_roles g rest (S n)) as [[t created] failed]. cbn [fst] in IH.
  destruct (create_role_outcome g n name) as [e|r].
  - destruct (is_Forbidden e); cbn.
    + apply prefix_cons, prefix_nil.
    + by apply prefix_cons.
  - cbn. by apply prefix_cons.
Qed.

Lemma create_roles_all (g : genv) (names : list string) (n : nat) :
  (forall i name e, create_role_outcome g i name = inl e -> is_Forbidden e = false) ->
  created_names (create_roles g names n).1.1 = names.
Proof.
  intros Hnever. revert n. induction names as [|name rest IH]; intros n; [done|].
  cbn [create_roles]. specialize (IH (S n)).
  destruct (create_roles g rest (S n)) as [[t created] failed]. cbn [fst] in IH.
  destruct (create_role_outcome g n name) as [e|r] eqn:Hc.
  - rewrite (Hnever _ _ _ Hc). cbn [fst]. by rewrite created_names_cons, IH.
  - cbn [fst]. by rewrite created_names_cons, IH.
Qed.

Lemma create_roles_forbidden (g : genv) (names : list string) (n i : nat)
    (name : string) (e : exn) :
  created_names (create_roles g names n).1.1 !! i = Some name ->
  create_role_outcome g (n + i) name = inl e ->
  is_Forbidden e = true ->
  length (created_names (create_roles g names n).1.1) = S i.
Proof.
  revert n i. induction names as [|name' rest IH]; intros n i; [done|].
  cbn [create_roles]. specialize (IH (S n)).
  destruct (create_roles g rest (S n)) as [[t created] failed]. cbn [fst] in IH.
  assert (Hnext : forall j, created_names t !! j = Some name ->
            create_role_outcome g (n + S j) name = inl e -> is_Forbidden e = true ->
            length (created_names t) = S j).
  { intros j Hj Hc. apply IH; [done|]. by replace (S n + j)%nat with (n + S j)%nat by lia. }
  destruct (create_role_outcome g n name') as [e'|r] eqn:Hc.
  - destruct (is_Forbidden e') eqn:Hf; cbn [fst]; rewrite created_names_cons.
    + by destruct i.
    + destruct i as [|i]; cbn [lookup list_lookup length].
      * intros [= <-]. rewrite Nat.add_0_r, Hc. intros [= <-]. congruence.
      * intros Hi Hci He. f_equal. by apply Hnext.
  - cbn [fst]. rewrite created_names_cons. destruct i as [|i]; cbn [lookup list_lookup length].
    + intros [= <-]. by rewrite Nat.add_0_r, Hc.
    + intros Hi Hci He. f_equal. by apply Hnext.
Qed.

Lemma created_names_app (t t' : list event) :
  created_names (t ++ t') = created_names t ++ created_names t'.
Proof. apply omap_app. Qed.

(** The calls of [create_role] of the command are those of its loop. *)
Lemma criar_cargos_created_names (g : genv) (lista_cargos : string) :
  created_names (criar_cargos_slash g lista_cargos) =
  if in_guild g then created_names (create_roles g (role_names lista_cargos) 0).1.1
  else [].
Proof.
  unfold criar_cargos_slash. destruct (in_guild g); cbn [negb]; [|done].
  destruct (role_names lista_cargos) as [|name names]; [done|].
  destruct (create_roles g (name :: names) 0) as [[t created] failed]. cbn [fst].
  destruct created as [|r created].
  { change (Defer :: ?l) with ([Defer] ++ l). rewrite !created_names_app. cbn.
    by rewrite app_nil_r. }
  assert (Hre : created_names (reorder g (r :: created)).1.2 = []).
  { unfold reorder. destruct (index _ _); [done|]. by destruct (_ ;; _). }
  destruct (reorder g (r :: created)) as [[res t'] created']. cbn [fst snd] in Hre.
  destruct res as [e|u]; change (Defer :: ?l) with ([Defer] ++ l);
    rewrite !created_names_app, Hre; cbn; by rewrite app_nil_r.
Qed.

(** X25: [/criar_cargos] calls [create_role] for the names of the list, in
    the order of the list and with no gap: the names of its calls are a
    prefix of the names read.  In a guild where no creation is answered with
    [Forbidden] it calls [create_role] for every name, and a call answered
    with [Forbidden] is always the last one. *)
Theorem criar_cargos_creates_in_order (g : genv) (lista_cargos : string) :
  created_names (criar_cargos_slash g lista_cargos) `prefix_of` role_names lista_cargos /\
  (in_guild g = true ->
   (forall i name e, create_role_outcome g i name = inl e -> is_Forbidden e = false) ->
   created_names (criar_cargos_slash g lista_cargos) = role_names lista_cargos) /\
  (forall i name e,
     created_names (criar_cargos_slash g lista_cargos) !! i = Some name ->
     create_role_outcome g i name = inl e ->
     is_Forbidden e = true ->
     length (created_names (criar_cargos_slash g lista_cargos)) = S i).
Proof.
  rewrite criar_cargos_created_names. split; [|split].
  - destruct (in_guild g); [apply create_roles_prefix | apply prefix_nil].
  - intros -> Hnever. by apply create_roles_all.
  - intros i name e. destruct (in_guild g); [|done].
    apply (create_roles_forbidden g (role_names lista_cargos) 0).
Qed.

(** ** The theorems at work *)

Section Instances.
Import Scenarios.
Local Open Scope string_scope.
#[local] Existing Instance ascii_text.

Lemma preset_usar_guard_witness :
  ACreateRole (VStr "Mod") 0 16777215 ∈
    fst (preset_usar_slash json_loads_presets (preset_guild edited_text false) "staff") /\
  Z.testbit 0 3 = false.
Proof.
  assert (Hcall : ACreateRole (VStr "Mod") 0 16777215 ∈
    fst (preset_usar_slash json_loads_presets (preset_guild edited_text false) "staff")).
  { vm_compute. apply list_elem_of_further, list_elem_of_here. }
  split; [exact Hcall|].
  apply (preset_usar_never_grants_administrator json_loads_presets
           (preset_guild edited_text false) "staff" (VStr "Mod") 0 16777215).
  - reflexivity.
  - exact Hcall.
Defined.

Lemma preset_usar_reorders_witness :
  let U := preset_guild staff_text false in
  let created_roles :=
    returned_roles U 0 (fst (preset_usar_slash json_loads_presets U "STAFF")) in
  let positions := [(100, 0%nat); (1, 1%nat); (101, 2%nat); (3, 3%nat)] in
  created_roles = [{| role_id := 100; role_name := "Admin" |};
                   {| role_id := 101; role_name := "Mod" |}] /\
  created_roles <> [] /\
  ["Mod"; "Admin"] = role_name <$> reverse created_roles /\
  edit_calls (fst (preset_usar_slash json_loads_presets U "STAFF")) =
    [AEditRolePositions positions] /\
  false = negb (succeeded (u_edit U positions)).
Proof.
  intros U created_roles positions.
  split; [vm_compute; reflexivity|].
  assert (Hlast : last (fst (preset_usar_slash json_loads_presets U "STAFF")) =
                  Some (AReply (PresetApplied "STAFF" ["Mod"; "Admin"] [] false)))
    by (vm_compute; reflexivity).
  assert (Hindex : index (u_guild_roles U) (u_top_role U) = inr 1%nat) by reflexivity.
  pose proof (preset_usar_reorders json_loads_presets U "STAFF" ["Mod"; "Admin"] [] false 1
                Hlast Hindex) as Hreorders.
  vm_compute in Hreorders. vm_compute. exact Hreorders.
Defined.

Lemma preset_usar_not_found_witness :
  preset_usar_slash json_loads_presets (preset_guild "{}" false) "staff" =
  ([ADefer; AReply (PresetNotFound "staff")], inr tt).
Proof.
  apply (preset_usar_not_found json_loads_presets (preset_guild "{}" false) "staff").
  - reflexivity.
  - right. right. exists "{}". split; [reflexivity|].
    right. right. exists ∅. split; [vm_compute; reflexivity | reflexivity].
Defined.

Lemma preset_usar_forbidden_witness :
  length (create_calls
            (fst (preset_usar_slash json_loads_presets (refusing_guild staff_text) "staff")))
  = 1%nat.
Proof.
  apply (preset_usar_forbidden_ends_creation json_loads_presets (refusing_guild staff_text)
           "staff" 0 (VStr "Admin") 0 16777215 Forbidden).
  - vm_compute. reflexivity.
  - reflexivity.
  - reflexivity.
Defined.

Lemma non_object_store_witness :
  preset_usar_slash json_loads_presets (preset_guild "[]" false) "staff"
    = ([ADefer], inl AttributeError) /\
  preset_salvar_slash json_loads_presets
    {| s_file := list_file; s_write := fun _ => inr tt |} "staff" "Admin, Mod"
    = ([ADefer], inl TypeError).
Proof.
  destruct (non_object_store_raises json_loads_presets list_file (preset_guild "[]" false)
              {| s_file := list_file; s_write := fun _ => inr tt |}
              "staff" "Admin, Mod" "[]" (VList [])) as [Husar Hsalvar].
  - reflexivity.
  - reflexivity.
  - discriminate.
  - vm_compute. reflexivity.
  - discriminate.
  - split.
    + apply Husar; reflexivity.
    + apply Hsalvar; [reflexivity | vm_compute; discriminate].
Defined.

Lemma salvar_then_usar_witness :
  create_calls (fst (preset_usar_slash json_loads_presets (preset_guild staff_text false)
                                       "STAFF")) =
  [ACreateRole (VStr "Admin") 0 16777215; ACreateRole (VStr "Mod") 0 16777215].
Proof.
  apply (salvar_then_usar json_loads_presets no_presets (preset_guild staff_text false)
           "Staff" "STAFF" "Admin, Mod" staff_store).
  - vm_compute. apply list_elem_of_further, list_elem_of_here.
  - reflexivity.
  - vm_compute. reflexivity.
  - reflexivity.
  - vm_compute. reflexivity.
  - intros n name p c e. discriminate.
Defined.

Lemma apagar_canais_witness :
  deleted_channels (apagar_canais_slash purge_guild) = [general_channel; voice_channel] /\
  last (apagar_canais_slash purge_guild) = Some (AReply (ChannelsDeleted 1)) /\
  (1 <= 2)%nat.
Proof.
  apply (apagar_canais_attempts_every_channel purge_guild). reflexivity.
Defined.

Lemma apagar_cargos_witness :
  (deleted_roles (apagar_cargos_slash lower_id purge_guild) `sublist_of` d_roles purge_guild) /\
  (bot ∉ deleted_roles (apagar_cargos_slash lower_id purge_guild)) /\
  forall r, r ∈ deleted_roles (apagar_cargos_slash lower_id purge_guild) ->
            role_name r <> "@everyone" /\ lower_id r bot = true.
Proof.
  apply (apagar_cargos_spares lower_id purge_guild).
  intros r. apply Z.ltb_irrefl.
Defined.

Lemma role_names_clean_witness :
  "Admin" <> "" /\ strip "Admin" = "Admin" /\
  (","%char ∉ chars "Admin") /\ ("010"%char ∉ chars "Admin").
Proof.
  apply (role_names_clean " Admin , Mod" "Admin").
  vm_compute. apply list_elem_of_here.
Defined.

Lemma criar_cargos_order_witness :
  created_names (criar_cargos_slash small_guild "Admin, Mod") = ["Admin"; "Mod"].
Proof.
  apply (proj1 (proj2 (criar_cargos_creates_in_order small_guild "Admin, Mod"))).
  - reflexivity.
  - intros i name e. discriminate.
Defined.
End Instances.

End LimpezaMore.
